(** * Pioneer Analytics: the analytics and forecasting engine

    A shallow embedding of the engine functions of the dashboard
    ([app.js]) and of the Express server ([server.js], [routes/growers.js]),
    with the properties the specification states about them.

    Numbers.  A JavaScript number is an IEEE-754 double.  The embedding keeps
    the special values ([NaN], [Infinity], [-Infinity]) and the way the
    operators propagate them, and takes the finite values to be exact
    rationals: rounding, overflow and the sign of zero are not modelled.
    The one place where the rounding decides a digit the code shows, the
    rate the server prints with [toFixed], is computed in doubles
    ([Double]).  [Math.sqrt] is a library function whose value on a rational is in
    general not rational; the forecast code is therefore written over an
    arbitrary [sqrtQ : Q -> Q], of which the proofs use three properties
    ([SqrtSpec]): it depends on the value of its argument only, it is
    non-negative, and it maps [0] to [0].

    Strings.  A string is a sequence of 8-bit code units (the Latin-1 range
    of UTF-16 code units).

    Objects and sets.  The object literal that [by-grower] uses as a map is
    a finite map from the names to the entries, next to the properties every
    object inherits; a [Set] is the list of its elements in insertion
    order.

    Dates.  The functions that read a [Date] take its parsing as a
    parameter. *)

From Stdlib Require Import QArith Qabs Qround Qpower Lqa Lia.
From Stdlib Require Import List String Ascii Bool DecimalString Sorted.
From stdpp Require Import gmap strings list.
Import ListNotations.

Open Scope Q_scope.

(** ** JavaScript numbers *)

Module JS.

Inductive number : Type :=
| Num (q : Q)
| PInf
| NInf
| NaN.

Definition of_nat (n : nat) : number := Num (inject_Z (Z.of_nat n)).

Definition Qltb (a b : Q) : bool := negb (Qle_bool b a).

(** [a + b] *)
Definition add (a b : number) : number :=
  match a, b with
  | NaN, _ | _, NaN => NaN
  | Num x, Num y => Num (x + y)
  | PInf, NInf | NInf, PInf => NaN
  | PInf, _ | _, PInf => PInf
  | NInf, _ | _, NInf => NInf
  end.

(** [-a] *)
Definition neg (a : number) : number :=
  match a with
  | Num x => Num (- x)
  | PInf => NInf
  | NInf => PInf
  | NaN => NaN
  end.

(** [a - b] *)
Definition sub (a b : number) : number := add a (neg b).

(** The infinity with the sign of [x * s], for [s] an infinity of sign
    [pos]; [NaN] when [x] is zero. *)
Definition inf_times (pos : bool) (x : Q) : number :=
  if Qeq_bool x 0 then NaN
  else if Bool.eqb pos (Qltb 0 x) then PInf else NInf.

(** [a * b] *)
Definition mul (a b : number) : number :=
  match a, b with
  | NaN, _ | _, NaN => NaN
  | Num x, Num y => Num (x * y)
  | Num x, PInf | PInf, Num x => inf_times true x
  | Num x, NInf | NInf, Num x => inf_times false x
  | PInf, PInf | NInf, NInf => PInf
  | PInf, NInf | NInf, PInf => NInf
  end.

(** [a / b]; a zero divisor is taken to be [+0]. *)
Definition div (a b : number) : number :=
  match a, b with
  | NaN, _ | _, NaN => NaN
  | Num x, Num y =>
      if Qeq_bool y 0 then
        (if Qeq_bool x 0 then NaN else if Qltb 0 x then PInf else NInf)
      else Num (x / y)
  | Num _, _ => Num 0
  | PInf, Num y => if Qltb y 0 then NInf else PInf
  | NInf, Num y => if Qltb y 0 then PInf else NInf
  | _, _ => NaN
  end.

(** [a < b] and [a > b]: false as soon as an operand is [NaN]. *)
Definition lt (a b : number) : bool :=
  match a, b with
  | NaN, _ | _, NaN => false
  | Num x, Num y => Qltb x y
  | NInf, NInf | PInf, _ => false
  | NInf, _ => true
  | Num _, PInf => true
  | Num _, NInf => false
  end.

Definition gt (a b : number) : bool := lt b a.

(** [a <= b] *)
Definition le (a b : number) : bool :=
  match a, b with
  | NaN, _ | _, NaN => false
  | Num x, Num y => Qle_bool x y
  | NInf, _ | _, PInf => true
  | PInf, _ | _, NInf => false
  end.

(** Truthiness of a number: [0] and [NaN] are falsy. *)
Definition truthy (a : number) : bool :=
  match a with
  | Num x => negb (Qeq_bool x 0)
  | NaN => false
  | _ => true
  end.

(** [a || b] on numbers *)
Definition or (a b : number) : number := if truthy a then a else b.

(** [Math.max(a, b)] *)
Definition Math_max (a b : number) : number :=
  match a, b with
  | NaN, _ | _, NaN => NaN
  | _, _ => if le a b then b else a
  end.

(** [Math.pow(a, 2)] *)
Definition Math_pow2 (a : number) : number := mul a a.

(** [Math.round(a)]: the integer nearest to [a], ties towards [+Infinity]. *)
Definition Math_round (a : number) : number :=
  match a with
  | Num x => Num (inject_Z (Qfloor (x + (1 # 2))))
  | _ => a
  end.

(** [Math.sqrt(a)] over a square root [sqrtQ] of the finite values. *)
Definition Math_sqrt (sqrtQ : Q -> Q) (a : number) : number :=
  match a with
  | Num x => if Qltb x 0 then NaN else Num (sqrtQ x)
  | PInf => PInf
  | _ => NaN
  end.

(** [arr.reduce((a, b) => a + b, 0)] *)
Definition sum (arr : list number) : number := fold_left add arr (Num 0).

(** [arr[i]] read as a number: [undefined] converts to [NaN], and is falsy
    as [NaN] is. *)
Definition at_index (arr : list number) (i : nat) : number := nth i arr NaN.

(** [arr.reduce((total, v, i) => f(total, v, i), init)] *)
Fixpoint reduce_from {A B} (f : B -> A -> nat -> B) (arr : list A) (i : nat)
    (init : B) : B :=
  match arr with
  | [] => init
  | v :: rest => reduce_from f rest (S i) (f init v i)
  end.

Definition reduce_i {A B} (f : B -> A -> nat -> B) (arr : list A) (init : B) : B :=
  reduce_from f arr 0%nat init.

(** Same value: equality of numbers up to the representation of the
    rational. *)
Definition same (a b : number) : Prop :=
  match a, b with
  | Num x, Num y => x == y
  | PInf, PInf | NInf, NInf | NaN, NaN => True
  | _, _ => False
  end.

End JS.

Declare Scope js_scope.
Delimit Scope js_scope with js.
Bind Scope js_scope with JS.number.
Infix "+" := JS.add : js_scope.
Infix "-" := JS.sub : js_scope.
Infix "*" := JS.mul : js_scope.
Infix "/" := JS.div : js_scope.
Infix "||" := JS.or : js_scope.
Infix "≈" := JS.same (at level 70, no associativity).
Coercion JS.Num : Q >-> JS.number.

(** ** Sums and means of rationals, for the statements *)

Module Stats.

(** Sum of a list of rationals. *)
Definition Qsum (l : list Q) : Q := fold_right Qplus 0 l.

(** Number of elements, as a rational. *)
Definition Qlen {A} (l : list A) : Q := inject_Z (Z.of_nat (length l)).

(** A count, as a rational. *)
Definition Qnat (n : nat) : Q := inject_Z (Z.of_nat n).

(** Arithmetic mean; the mean of no values is [0]. *)
Definition mean (l : list Q) : Q := Qsum l / Qlen l.

(** The sums of a list of points [(x, y)] that a least-squares fit uses. *)
Definition Sx (pts : list (Q * Q)) : Q := Qsum (map fst pts).
Definition Sy (pts : list (Q * Q)) : Q := Qsum (map snd pts).
Definition Sxy (pts : list (Q * Q)) : Q := Qsum (map (fun p => fst p * snd p) pts).
Definition Sxx (pts : list (Q * Q)) : Q := Qsum (map (fun p => fst p * fst p) pts).

End Stats.

(** ** The forecast engine ([app.js], "FORECASTING TAB") *)

Module Forecast.
Import JS.

(** One element of [yearlyData]. *)
Record YearPoint : Type := { year : number; revenue : number; growers : number }.

(** The object [calculateForecast] returns. *)
Record ForecastResult : Type := {
  fc_revenue : number;
  fc_revenueLow : number;
  fc_revenueHigh : number;
  fc_growers : number;
  fc_growersLow : number;
  fc_growersHigh : number
}.

Definition linearRegression (x y : list number) (targetX : number) : number :=
  let n := of_nat (length x) in
  if (length x =? 0)%nat then Num 0 else
  let sumX := sum x in
  let sumY := sum y in
  let sumXY := reduce_i (fun total xi i => total + xi * at_index y i)%js x (Num 0) in
  let sumX2 := reduce_i (fun total xi _ => total + xi * xi)%js x (Num 0) in
  let slope := ((n * sumXY - sumX * sumY) / (n * sumX2 - sumX * sumX))%js in
  let intercept := ((sumY - slope * sumX) / n)%js in
  (slope * targetX + intercept)%js.

(** The loop of [growthRateForecast]: [rates data] is [growthRates] after
    the iterations [i = 1 .. data.length - 1]. *)
Fixpoint rates (data : list number) : list number :=
  match data with
  | prev :: (cur :: _) as rest =>
      if gt prev (Num 0) then ((cur - prev) / prev)%js :: rates rest
      else rates rest
  | _ => []
  end.

(** [data[data.length - 1]] *)
Definition last_elem (data : list number) : number :=
  at_index data (length data - 1).

Definition growthRateForecast (data : list number) : number :=
  if (length data <? 2)%nat then (last_elem data || Num 0)%js
  else
    let growthRates := rates data in
    let avgGrowth :=
      if (length growthRates =? 0)%nat then Num 0
      else (sum growthRates / of_nat (length growthRates))%js in
    (last_elem data * (Num 1 + avgGrowth))%js.

Definition weightedAverageForecast (data : list number) : number :=
  if (length data =? 0)%nat then Num 0 else
  let weights := imap (fun i _ => of_nat (i + 1)) data in
  let totalWeight := sum weights in
  let weighted :=
    reduce_i (fun acc value i => acc + value * at_index weights i)%js data (Num 0) in
  let weightedAvg := (weighted / totalWeight)%js in
  let lastValue := last_elem data in
  let avgValue := (sum data / of_nat (length data))%js in
  let trend := if gt lastValue avgValue then Num 1.05 else Num 0.95 in
  (weightedAvg * trend)%js.

(** The table of [getZScore]; a key is the number whose decimal text names
    the property. *)
Definition zScores : list (Q * Q) := [(0.80, 1.28); (0.90, 1.645); (0.95, 1.96)].

(** [zScores[confidence]]: [None] is [undefined]. *)
Definition zScores_get (confidence : number) : option Q :=
  match confidence with
  | Num c => snd <$> List.find (fun kv => Qeq_bool (fst kv) c) zScores
  | _ => None
  end.

Definition getZScore (confidence : number) : number :=
  match zScores_get confidence with
  | Some z => (Num z || Num 1.645)%js
  | None => Num 1.645
  end.

Section WithSqrt.

Variable sqrtQ : Q -> Q.

Definition standardDeviation (data : list number) : number :=
  if (length data =? 0)%nat then Num 0 else
  let mean := (sum data / of_nat (length data))%js in
  let squaredDiffs := map (fun value => Math_pow2 (value - mean)%js) data in
  Math_sqrt sqrtQ (sum squaredDiffs / of_nat (length data))%js.

Definition calculateForecast (data : list YearPoint) (method : string)
    (confidence : number) : ForecastResult :=
  let revenues := map revenue data in
  let growers_ := map growers data in
  let years := map year data in
  let '(forecastRevenue, forecastGrowers) :=
    if String.eqb method "linear" then
      (linearRegression years revenues (Num 2027),
       linearRegression years growers_ (Num 2027))
    else if String.eqb method "growth" then
      (growthRateForecast revenues, growthRateForecast growers_)
    else if String.eqb method "weighted" then
      (weightedAverageForecast revenues, weightedAverageForecast growers_)
    else
      (linearRegression years revenues (Num 2027),
       linearRegression years growers_ (Num 2027)) in
  let revenueStdDev := standardDeviation revenues in
  let zScore := getZScore confidence in
  let marginOfError := (revenueStdDev * zScore)%js in
  let growerStdDev := standardDeviation growers_ in
  let growerMargin := (growerStdDev * zScore)%js in
  {| fc_revenue := Math_max (Num 0) forecastRevenue;
     fc_revenueLow := Math_max (Num 0) (forecastRevenue - marginOfError)%js;
     fc_revenueHigh := (forecastRevenue + marginOfError)%js;
     fc_growers := Math_max (Num 0) (Math_round forecastGrowers);
     fc_growersLow := Math_max (Num 0) (Math_round (forecastGrowers - growerMargin)%js);
     fc_growersHigh := Math_round (forecastGrowers + growerMargin)%js |}.

End WithSqrt.

End Forecast.

(** ** The forecast methods, as the specification words them *)

Module ForecastSpec.
Import Stats.

(** The year-over-year transitions [(v[i-1], v[i])] of a series. *)
Definition transitions (v : list Q) : list (Q * Q) := combine v (tl v).

(** The relative changes [(v[i] - v[i-1]) / v[i-1]] over the transitions
    whose prior value is strictly positive. *)
Definition yoy_changes (v : list Q) : list Q :=
  map (fun t => (snd t - fst t) / fst t)
      (List.filter (fun t => JS.Qltb 0 (fst t)) (transitions v)).

(** The last value, grown once by the mean relative change. *)
Definition growth_projection (v : list Q) : Q :=
  List.last v 0 * (1 + mean (yoy_changes v)).

(** Ordinary least squares.  [sse pts a b] is the sum of the squared
    residuals of the line [y = a * x + b] on the points; the fit is the line
    that makes it least, whose coefficients have the closed form below. *)
Definition sse (pts : list (Q * Q)) (a b : Q) : Q :=
  Qsum (map (fun p => (snd p - (a * fst p + b)) * (snd p - (a * fst p + b))) pts).

Definition ols_slope (pts : list (Q * Q)) : Q :=
  (Qlen pts * Sxy pts - Sx pts * Sy pts) / (Qlen pts * Sxx pts - Sx pts * Sx pts).

Definition ols_intercept (pts : list (Q * Q)) : Q :=
  (Sy pts - ols_slope pts * Sx pts) / Qlen pts.

(** The points have two different x-values. *)
Definition two_distinct_x (pts : list (Q * Q)) : Prop :=
  exists p q, In p pts /\ In q pts /\ ~ fst p == fst q.

(** The series of the specification's regression scenario. *)
Definition scenario : list (Q * Q) :=
  [(2022, 100000); (2023, 120000); (2024, 150000); (2025, 170000); (2026, 200000)].

(** What the proofs ask of the square root: it depends on the value of
    its argument only, it is non-negative, and the root of [0] is [0]. *)
Class SqrtSpec (sqrtQ : Q -> Q) : Prop := {
  sqrt_proper : forall x y, x == y -> sqrtQ x == sqrtQ y;
  sqrt_nonneg : forall x, 0 <= x -> 0 <= sqrtQ x;
  sqrt_zero : sqrtQ 0 == 0
}.

(** A square root for the examples: the integer part of the root, which is
    the exact root on the squares of integers. *)
Definition sqrt_floor (q : Q) : Q := inject_Z (Z.sqrt (Qfloor q)).

(** Population variance and standard deviation: the mean squared deviation
    from the mean, and its root. *)
Definition population_variance (v : list Q) : Q :=
  mean (map (fun x => (x - mean v) * (x - mean v)) v).

Definition population_sd (sqrtQ : Q -> Q) (v : list Q) : Q :=
  sqrtQ (population_variance v).

(** The value a method projects ([forecastRevenue], [forecastGrowers]). *)
Definition projection (method : string) (years values : list JS.number) : JS.number :=
  if String.eqb method "growth" then Forecast.growthRateForecast values
  else if String.eqb method "weighted" then Forecast.weightedAverageForecast values
  else Forecast.linearRegression years values (JS.Num 2027).


(** The yearly data of a list of [(year, revenue)] points, with one grower
    each year. *)
Definition yearly (pts : list (Q * Q)) : list Forecast.YearPoint :=
  map (fun p => {| Forecast.year := JS.Num (fst p);
                   Forecast.revenue := JS.Num (snd p);
                   Forecast.growers := JS.Num 1 |}) pts.

(** Two years of revenue, falling from 100 to 0. *)
Definition falling : list (Q * Q) := [(2025, 100); (2026, 0)].


(** The arrays of x- and y-values of a list of points. *)
Definition xs_of (pts : list (Q * Q)) : list JS.number := map (fun p => JS.Num (fst p)) pts.
Definition ys_of (pts : list (Q * Q)) : list JS.number := map (fun p => JS.Num (snd p)) pts.

End ForecastSpec.

(** ** Transactions and sets of names *)

Module Data.

(** A transaction record, as [parseCSV] builds it. *)
Record Transaction : Type := {
  date : string;
  invoice_number : string;
  grower_name : string;
  product : string;
  quantity : JS.number;
  amount : JS.number
}.

End Data.

(** A [Set] of strings: its elements in insertion order, each once. *)
Module JSSet.

Definition t : Type := list string.

(** [s.has(x)] *)
Definition has (s : t) (x : string) : bool := bool_decide (x ∈ s).

(** [s.add(x)] *)
Definition add (s : t) (x : string) : t := if has s x then s else s ++ [x].

(** [new Set(arr)] *)
Definition of_list (arr : list string) : t := fold_left add arr [].

(** [s.size] *)
Definition size (s : t) : nat := length s.

End JSSet.

(** ** Doubles

    Where a result depends on the rounding of the arithmetic, as the digit
    [toFixed] prints does, the operations are those of the binary64 format:
    the exact result, rounded to the nearest double, ties to the even
    significand. *)

Module Double.
Import JS.

(** [2^e] *)
Definition pow2 (e : Z) : Q := Qpower 2 e.

(** The exponent of the leading bit of a positive rational: the [k] with
    [2^k <= x < 2^(k+1)]. *)
Definition ilog2 (x : Q) : Z :=
  let k := (Z.log2 (Qnum x) - Z.log2 (Zpos (Qden x)))%Z in
  if Qle_bool (pow2 k) x then k else (k - 1)%Z.

(** The integer nearest to [y], the even one of two. *)
Definition round_half_even (y : Q) : Z :=
  let f := Qfloor y in
  match Qcompare (y - inject_Z f) (1 # 2) with
  | Lt => f
  | Gt => (f + 1)%Z
  | Eq => if Z.even f then f else (f + 1)%Z
  end.

(** The multiple of [2^e] nearest to [x], where [2^e] is the weight of the
    last of the 53 bits of the significand, and at least [2^-1074]. *)
Definition nearest (x : Q) : Q :=
  let e := Z.max (ilog2 (Qabs x) - 52) (-1074) in
  inject_Z (round_half_even (x / pow2 e)) * pow2 e.

(** The double nearest to a rational; infinite from [2^1024] on. *)
Definition round (x : Q) : number :=
  if Qeq_bool x 0 then Num 0
  else
    let v := nearest x in
    if Qle_bool (pow2 1024) (Qabs v) then (if Qle_bool 0 x then PInf else NInf)
    else Num v.

Definition rounded (x : number) : number :=
  match x with
  | Num q => round q
  | _ => x
  end.

(** [a / b] and [a * b] on doubles. *)
Definition div (a b : number) : number := rounded (JS.div a b).
Definition mul (a b : number) : number := rounded (JS.mul a b).

(** The decimal digits of a natural number. *)
Definition digits (n : N) : string := NilZero.string_of_uint (N.to_uint n).

(** The text [toFixed(1)] makes of the integer [n] nearest to ten times the
    number: the digits of [n], after a zero when there is one digit only,
    with the point before the last digit.  It is the text of [n / 10]. *)
Definition decimal1 (n : N) : string :=
  let m := digits n in
  let m := if (String.length m <=? 1)%nat then String.append "0" m else m in
  let k := String.length m in
  String.append (substring 0 (k - 1) m) (String.append "." (substring (k - 1) 1 m)).

End Double.

(** ** Retention ([app.js] "GROWER ANALYSIS TAB", [routes/growers.js]) *)

Module Retention.
Import JS Data.

(** What [updateGrowerStats] writes into the page. *)
Record GrowerStats : Type := {
  newGrowers : nat;
  returningGrowers : nat;
  lostGrowers : nat;
  retentionRate : number
}.

(** The body of [updateGrowerStats] once the two years are filtered. *)
Definition growerStats (currentYearData previousYearData : list Transaction) : GrowerStats :=
  let currentGrowers := JSSet.of_list (map grower_name currentYearData) in
  let previousGrowers := JSSet.of_list (map grower_name previousYearData) in
  let newGrowers :=
    length (filter (fun g => JSSet.has previousGrowers g = false) currentGrowers) in
  let returningGrowers :=
    length (filter (fun g => JSSet.has previousGrowers g = true) currentGrowers) in
  let lostGrowers :=
    length (filter (fun g => JSSet.has currentGrowers g = false) previousGrowers) in
  let retentionRate :=
    if (JSSet.size previousGrowers =? 0)%nat then Num 0
    else (of_nat returningGrowers / of_nat (JSSet.size previousGrowers) * Num 100)%js in
  {| newGrowers := newGrowers;
     returningGrowers := returningGrowers;
     lostGrowers := lostGrowers;
     retentionRate := retentionRate |}.

(** The [retentionRate] of an entry of the server: the text [toFixed]
    returns, or the number 0. *)
Inductive Rate : Type :=
| RateText (s : string)
| RateNumber (x : number).

(** One element of [retentionData] of the server. *)
Record RetentionEntry : Type := {
  entry_year : Z;
  totalGrowers : nat;
  entry_returningGrowers : nat;
  entry_newGrowers : nat;
  entry_lostGrowers : nat;
  entry_retentionRate : Rate
}.

Section WithStore.

(** [String(x)], which [toFixed] answers for a number that is not finite or
    is [10^21] or more. *)
Variable Number_toString : number -> string.

(** [x.toFixed(1)] for a double [x]: the sign, then the integer [n] for
    which [n / 10] is nearest to the exact value of [|x|], the larger of two,
    written with one digit after the point. *)
Definition toFixed1 (x : number) : string :=
  match x with
  | Num q =>
      let s := if Qltb q 0 then "-"%string else ""%string in
      let x := Qabs q in
      if Qle_bool (inject_Z (10 ^ 21)) x then String.append s (Number_toString (Num x))
      else String.append s (Double.decimal1 (Z.to_N (Qfloor (x * 10 + (1 # 2)))))
  | _ => Number_toString x
  end.

(** [new Date(d.date).getFullYear()], [None] for an invalid date. *)
Variable Date_getFullYear : string -> option Z.

(** The result of [GrowerTransaction.distinct('grower_name', ...)] for the
    transactions of a year. *)
Variable distinct_grower_name : Z -> list string.

Definition filterDataByYear (data : list Transaction) (year : Z) : list Transaction :=
  List.filter
    (fun d => match Date_getFullYear (date d) with
              | Some y => (y =? year)%Z
              | None => false
              end) data.

Definition updateGrowerStats (data : list Transaction) (year : Z) : GrowerStats :=
  let currentYearData := filterDataByYear data year in
  let previousYearData := filterDataByYear data (year - 1) in
  growerStats currentYearData previousYearData.

(** The body of the loop of the handler of
    [GET /api/growers/retention/analysis]. *)
Definition retentionEntry (currentYear previousYear : Z) : RetentionEntry :=
  let currentGrowers := distinct_grower_name currentYear in
  let previousGrowers := distinct_grower_name previousYear in
  let previousSet := JSSet.of_list previousGrowers in
  let currentSet := JSSet.of_list currentGrowers in
  let returning := filter (fun g => JSSet.has previousSet g = true) currentGrowers in
  let newGrowers := filter (fun g => JSSet.has previousSet g = false) currentGrowers in
  let lost := filter (fun g => JSSet.has currentSet g = false) previousGrowers in
  {| entry_year := currentYear;
     totalGrowers := length currentGrowers;
     entry_returningGrowers := length returning;
     entry_newGrowers := length newGrowers;
     entry_lostGrowers := length lost;
     entry_retentionRate :=
       if (0 <? length previousGrowers)%nat
       then RateText
              (toFixed1 (Double.mul (Double.div (of_nat (length returning))
                                                (of_nat (length previousGrowers)))
                                    (Num 100)))
       else RateNumber (Num 0) |}.

(** The handler: one entry for each year after the first of the window. *)
Definition retentionAnalysis : list RetentionEntry :=
  let years := [2022; 2023; 2024; 2025; 2026]%Z in
  map (fun i => retentionEntry (nth i years 0%Z) (nth (i - 1) years 0%Z))
      (seq 1 (length years - 1)).

End WithStore.

(** The sets of the specification. *)
Definition growers_of (data : list Transaction) : gset string :=
  list_to_set (map grower_name data).

(** A transaction of a grower; only the name matters to the retention. *)
Definition sale (name : string) : Transaction :=
  {| date := "2024-03-01"; invoice_number := "INV-1"; grower_name := name;
     product := "Corn Seed"; quantity := Num 1; amount := Num 100 |}.

(** The specification's scenario: growers A, B, C this year and A, B, D the
    year before. *)
Definition current_ABC : list Transaction := [sale "A"; sale "B"; sale "A"; sale "C"].
Definition previous_ABD : list Transaction := [sale "A"; sale "B"; sale "D"].

Definition distinct_ABC_ABD (year : Z) : list string :=
  if (year =? 2024)%Z then ["A"; "B"; "C"]%string else ["A"; "B"; "D"]%string.

(** The growers numbered from [first], [count] of them. *)
Definition numbered (first count : nat) : list string :=
  map (fun i => Double.digits (N.of_nat i)) (seq first count).

(** Eighty growers the year before, of whom twenty-three come back, with five
    new ones. *)
Definition distinct_23_of_80 (year : Z) : list string :=
  if (year =? 2024)%Z then numbered 0 23 ++ numbered 100 5 else numbered 0 80.

End Retention.

(** ** Aggregation ([server.js]) *)

Module Aggregation.
Import JS Data.

Record Summary : Type := {
  totalRevenue : number;
  totalOrders : nat;
  uniqueGrowers : nat;
  totalUnits : number;
  avgOrderValue : number
}.

Definition calculateSummary (data : list Transaction) : Summary :=
  let totalRevenue := fold_left (fun sum d => (sum + (amount d || Num 0))%js) data (Num 0) in
  let totalOrders := length data in
  let uniqueGrowers := JSSet.size (JSSet.of_list (map grower_name data)) in
  let totalUnits := fold_left (fun sum d => (sum + (quantity d || Num 0))%js) data (Num 0) in
  {| totalRevenue := totalRevenue;
     totalOrders := totalOrders;
     uniqueGrowers := uniqueGrowers;
     totalUnits := totalUnits;
     avgOrderValue :=
       if (totalOrders =? 0)%nat then Num 0 else (totalRevenue / of_nat totalOrders)%js |}.

(** A value of the object [byGrower]. *)
Record GrowerEntry : Type := {
  revenue : number;
  orders : nat;
  products : JSSet.t;
  firstPurchase : string;
  lastPurchase : string
}.

(** The property names every object literal inherits from
    [Object.prototype].  Reading one of them on [{}] yields a function (or,
    for [__proto__], the prototype object): a truthy value that is not an
    entry. *)
Definition Object_prototype_names : list string :=
  ["constructor"; "__defineGetter__"; "__defineSetter__"; "hasOwnProperty";
   "__lookupGetter__"; "__lookupSetter__"; "isPrototypeOf";
   "propertyIsEnumerable"; "toString"; "valueOf"; "__proto__";
   "toLocaleString"]%string.

Section WithDate.

(** The time value of [new Date(s)], [NaN] for an invalid date. *)
Variable Date_valueOf : string -> number.

(** One call of the [forEach] callback of the handler of
    [GET /api/analytics/by-grower].  [None] is the [TypeError] raised by
    [grower.products.add] when [byGrower[d.grower_name]] is an inherited
    property: the test [!byGrower[d.grower_name]] then fails, no entry is
    made, and [grower.products] is [undefined]. *)
Definition by_grower_step (byGrower : gmap string GrowerEntry) (d : Transaction)
    : option (gmap string GrowerEntry) :=
  if bool_decide (grower_name d ∈ Object_prototype_names) then None
  else
    let grower :=
      match byGrower !! grower_name d with
      | Some g => g
      | None => {| revenue := Num 0; orders := 0; products := [];
                   firstPurchase := date d; lastPurchase := date d |}
      end in
    Some (<[grower_name d :=
             {| revenue := (revenue grower + amount d)%js;
                orders := S (orders grower);
                products := JSSet.add (products grower) (product d);
                firstPurchase :=
                  if lt (Date_valueOf (date d)) (Date_valueOf (firstPurchase grower))
                  then date d else firstPurchase grower;
                lastPurchase :=
                  if gt (Date_valueOf (date d)) (Date_valueOf (lastPurchase grower))
                  then date d else lastPurchase grower |}]> byGrower).

(** The object [byGrower] the handler answers with; [None] when the handler
    answers 500 instead. *)
Definition by_grower (data : list Transaction) : option (gmap string GrowerEntry) :=
  foldl (fun acc d => acc ≫= fun byGrower => by_grower_step byGrower d) (Some ∅) data.

End WithDate.

(** The sum over the growers of the per-grower revenue. *)
Definition sum_revenue (byGrower : gmap string GrowerEntry) : number :=
  sum (map (fun kv => revenue (snd kv)) (map_to_list byGrower)).

(** A transaction with a finite, non-negative amount. *)
Definition nonneg_amount (d : Transaction) : Prop :=
  exists a : Q, amount d = Num a /\ 0 <= a.

(** A transaction whose grower name is not an inherited property name. *)
Definition plain_name (d : Transaction) : Prop :=
  grower_name d ∉ Object_prototype_names.

(** The finite value of the revenue of an entry. *)
Definition revenue_value (g : GrowerEntry) : Q :=
  match revenue g with Num q => q | _ => 0 end.

(** The total of the finite revenues of the entries. *)
Definition total_value (byGrower : gmap string GrowerEntry) : Q :=
  Stats.Qsum (map (fun kv => revenue_value (snd kv)) (map_to_list byGrower)).

(** Every entry has a finite revenue. *)
Definition finite_entries (byGrower : gmap string GrowerEntry) : Prop :=
  map_Forall (fun (_ : string) g => exists q, revenue g = Num q) byGrower.

(** The finite value of the amount of a transaction. *)
Definition amount_value (d : Transaction) : Q :=
  match amount d with Num q => q | _ => 0 end.

(** A sale of 100 to a grower with the given name. *)
Definition sale_to (name : string) : Transaction :=
  {| date := "2024-03-01"; invoice_number := "INV-1"; grower_name := name;
     product := "Corn Seed"; quantity := Num 1; amount := Num 100 |}.

End Aggregation.

(** ** Strings *)

Module Str.

(** The code units of a string. *)
Definition la (s : string) : list ascii := list_ascii_of_string s.
Definition sa (l : list ascii) : string := string_of_list_ascii l.

Definition tab : ascii := "009"%char.
Definition newline : ascii := "010"%char.
Definition comma : ascii := ","%char.
Definition quote : ascii := "034"%char.
Definition dollar : ascii := "$"%char.

(** White space and line terminators, which [trim] and [parseFloat] strip:
    TAB, LF, VT, FF, CR, SP and NBSP. *)
Definition is_space (c : ascii) : bool :=
  let n := nat_of_ascii c in
  (n =? 9)%nat || (n =? 10)%nat || (n =? 11)%nat || (n =? 12)%nat
  || (n =? 13)%nat || (n =? 32)%nat || (n =? 160)%nat.

Fixpoint trimStart (s : list ascii) : list ascii :=
  match s with
  | c :: rest => if is_space c then trimStart rest else s
  | [] => []
  end.

Definition trimEnd (s : list ascii) : list ascii := rev (trimStart (rev s)).

(** [s.trim()] *)
Definition trim (s : list ascii) : list ascii := trimEnd (trimStart s).

(** [s.split(sep)] for a separator of one code unit. *)
Fixpoint split_on (sep : ascii) (s : list ascii) : list (list ascii) :=
  match s with
  | [] => [[]]
  | c :: rest =>
      if Ascii.eqb c sep then [] :: split_on sep rest
      else match split_on sep rest with
           | cur :: parts => (c :: cur) :: parts
           | [] => [[c]]
           end
  end.

(** [parts.join(sep)] *)
Fixpoint join (sep : list ascii) (parts : list (list ascii)) : list ascii :=
  match parts with
  | [] => []
  | [part] => part
  | part :: rest => part ++ sep ++ join sep rest
  end.

(** [c.toLowerCase()] on the Latin-1 range. *)
Definition lower (c : ascii) : ascii :=
  let n := nat_of_ascii c in
  if ((65 <=? n) && (n <=? 90))%nat
     || ((192 <=? n) && (n <=? 222) && negb (n =? 215))%nat
  then ascii_of_nat (n + 32) else c.

Definition toLowerCase (s : list ascii) : list ascii := map lower s.

Fixpoint startsWith (prefix s : list ascii) : bool :=
  match prefix, s with
  | [], _ => true
  | p :: prefix', c :: s' => Ascii.eqb p c && startsWith prefix' s'
  | _ :: _, [] => false
  end.

(** [s.includes(sub)] *)
Fixpoint includes (sub s : list ascii) : bool :=
  startsWith sub s
  || match s with
     | [] => false
     | _ :: rest => includes sub rest
     end.

(** [s.includes(c)] for one code unit. *)
Definition includes_char (c : ascii) (s : list ascii) : bool := existsb (Ascii.eqb c) s.

(** [s.replace(/[$,]/g, '')] *)
Definition remove_dollar_comma (s : list ascii) : list ascii :=
  List.filter (fun c => negb (Ascii.eqb c dollar || Ascii.eqb c comma)) s.

(** Truthiness of a string. *)
Definition nonempty (s : string) : bool :=
  match s with EmptyString => false | _ => true end.

End Str.

(** ** Numbers and text *)

Module NumText.
Import JS Str.

Definition is_digit (c : ascii) : bool :=
  let n := nat_of_ascii c in ((48 <=? n) && (n <=? 57))%nat.

Definition digit_value (c : ascii) : Z := Z.of_nat (nat_of_ascii c - 48).

(** The run of decimal digits at the head of [s]: its value after [acc], the
    number of digits, and the rest of [s]. *)
Fixpoint digits (s : list ascii) (acc : Z) (count : nat) : Z * nat * list ascii :=
  match s with
  | c :: rest =>
      if is_digit c then digits rest (acc * 10 + digit_value c) (S count)
      else (acc, count, s)
  | [] => (acc, count, [])
  end.

(** The exponent part at the head of [s], [0] when there is none. *)
Definition exponent (s : list ascii) : Z :=
  match s with
  | c :: rest =>
      if Ascii.eqb c "e" || Ascii.eqb c "E" then
        let '(negative, rest') :=
          match rest with
          | sign :: r =>
              if Ascii.eqb sign "-" then (true, r)
              else if Ascii.eqb sign "+" then (false, r)
              else (false, rest)
          | [] => (false, rest)
          end in
        let '(e, n, _) := digits rest' 0 0 in
        if (n =? 0)%nat then 0%Z else if negative then (- e)%Z else e
      else 0%Z
  | [] => 0%Z
  end.

(** [parseFloat(s)]: the value of the longest prefix of [s], after leading
    white space, that is a decimal literal; [NaN] when there is none. *)
Definition parseFloat (s : list ascii) : number :=
  let s0 := trimStart s in
  let '(negative, s1) :=
    match s0 with
    | c :: rest =>
        if Ascii.eqb c "-" then (true, rest)
        else if Ascii.eqb c "+" then (false, rest)
        else (false, s0)
    | [] => (false, s0)
    end in
  if startsWith (la "Infinity") s1 then (if negative then NInf else PInf)
  else
    let '(int_part, n_int, s2) := digits s1 0 0 in
    let '(mantissa, n_frac, s3) :=
      match s2 with
      | c :: rest =>
          if Ascii.eqb c "." then
            let '(m, n, r) := digits rest int_part 0 in (m, n, r)
          else (int_part, 0%nat, s2)
      | [] => (int_part, 0%nat, s2)
      end in
    if (n_int + n_frac =? 0)%nat then NaN
    else
      let e := (exponent s3 - Z.of_nat n_frac)%Z in
      let magnitude := inject_Z mantissa * Qpower 10 e in
      Num (if negative then - magnitude else magnitude).

(** The decimal digits of a natural number. *)
Definition digits_of (n : N) : list ascii := la (NilZero.string_of_uint (N.to_uint n)).

(** At most [fuel] digits of the fraction [r / d], stopping when nothing
    remains. *)
Fixpoint fraction_digits (fuel : nat) (r d : N) : list ascii :=
  match fuel with
  | O => []
  | S fuel' =>
      if (r =? 0)%N then []
      else ascii_of_N (48 + (r * 10) / d) :: fraction_digits fuel' ((r * 10) mod d) d
  end.

(** [String(x)] for a number.  The language prints the shortest decimal text
    that reads back as the same double; the model prints the decimal
    expansion of the rational, cut after 20 fraction digits. *)
Definition Number_toString (x : number) : string :=
  match x with
  | NaN => "NaN"
  | PInf => "Infinity"
  | NInf => "-Infinity"
  | Num q =>
      let r := Qred q in
      let a := Z.abs_N (Qnum r) in
      let d := Npos (Qden r) in
      let frac := fraction_digits 20 (a mod d) d in
      sa ((if (Qnum r <? 0)%Z then ["-"%char] else [])
          ++ digits_of (a / d)
          ++ (match frac with [] => [] | _ => "."%char :: frac end))
  end.

End NumText.

(** ** CSV import and export ([app.js], [server.js]) *)

Module Csv.
Import JS Data Str NumText.

(** [parseCSVLine]: the state after the characters read so far is the
    fields completed, the field being read, and whether a quote is open. *)
Fixpoint parseCSVLine_from (line : list ascii) (result : list (list ascii))
    (current : list ascii) (inQuotes : bool) : list (list ascii) :=
  match line with
  | [] => result ++ [current]
  | char :: rest =>
      if Ascii.eqb char quote then parseCSVLine_from rest result current (negb inQuotes)
      else if Ascii.eqb char comma && negb inQuotes
      then parseCSVLine_from rest (result ++ [current]) [] inQuotes
      else parseCSVLine_from rest result (current ++ [char]) inQuotes
  end.

Definition parseCSVLine (line : list ascii) : list (list ascii) :=
  parseCSVLine_from line [] [] false.

(** [values[i]] where the code has checked [values.length >= 6]. *)
Definition value (values : list (list ascii)) (i : nat) : list ascii := nth i values [].

(** The fields of a line. *)
Definition fields (line : list ascii) : list (list ascii) :=
  if includes_char tab line then split_on tab line else parseCSVLine line.

(** The record built from six or more values. *)
Definition entry_of (values : list (list ascii)) : Transaction :=
  {| date := sa (trim (value values 0));
     invoice_number := sa (trim (value values 1));
     grower_name := sa (trim (value values 2));
     product := sa (trim (value values 3));
     quantity := (parseFloat (value values 4) || Num 0)%js;
     amount := (parseFloat (remove_dollar_comma (value values 5)) || Num 0)%js |}.

(** One iteration of the loop of [parseCSV] in [app.js]: the entry pushed,
    if any. *)
Definition parse_line (raw : list ascii) : option Transaction :=
  let line := trim raw in
  match line with
  | [] => None
  | _ :: _ =>
      let values := fields line in
      if (6 <=? length values)%nat then
        let entry := entry_of values in
        if nonempty (date entry) && nonempty (grower_name entry) && nonempty (product entry)
        then Some entry else None
      else None
  end.

(** One iteration of the loop of [parseCSV] in [server.js], which pushes
    every record of six or more values ([created_at] is left out). *)
Definition server_parse_line (raw : list ascii) : option Transaction :=
  let line := trim raw in
  match line with
  | [] => None
  | _ :: _ =>
      let values := fields line in
      if (6 <=? length values)%nat then Some (entry_of values) else None
  end.

(** The lines after the header, if the first line is one. *)
Definition data_lines (lines : list (list ascii)) (firstLine : list ascii)
    : list (list ascii) :=
  let first := toLowerCase firstLine in
  let startIndex :=
    if includes (la "date") first || includes (la "invoice") first then 1%nat else 0%nat in
  drop startIndex lines.

(** [parseCSV] of [app.js]; [None] would be the [TypeError] of
    [lines[0].toLowerCase()] on an empty array. *)
Definition parseCSV (text : string) : option (list Transaction) :=
  let lines := split_on newline (trim (la text)) in
  match lines with
  | [] => None
  | firstLine :: _ => Some (omap parse_line (data_lines lines firstLine))
  end.

(** [parseCSV] of [server.js]. *)
Definition server_parseCSV (text : string) : option (list Transaction) :=
  let lines := split_on newline (trim (la text)) in
  match lines with
  | [] => None
  | firstLine :: _ => Some (omap server_parse_line (data_lines lines firstLine))
  end.

Definition headers : list string :=
  ["date"; "invoice_number"; "grower_name"; "product"; "quantity"; "amount"]%string.

(** [headers.map(h => d[h])], each cell as [join] prints it. *)
Definition row (d : Transaction) : list (list ascii) :=
  [la (date d); la (invoice_number d); la (grower_name d); la (product d);
   la (Number_toString (quantity d)); la (Number_toString (amount d))].

(** [x || ''] as [join] prints it, for a string and for a number. *)
Definition text_or_empty (s : string) : list ascii := la s.
Definition number_or_empty (x : number) : list ascii :=
  if truthy x then la (Number_toString x) else [].

(** [headers.map(h => d[h] || '')] *)
Definition server_row (d : Transaction) : list (list ascii) :=
  [text_or_empty (date d); text_or_empty (invoice_number d);
   text_or_empty (grower_name d); text_or_empty (product d);
   number_or_empty (quantity d); number_or_empty (amount d)].

(** The text [exportToCSV] puts into the file, for the records selected for
    export; [None] when there is nothing to export. *)
Definition exportToCSV (dataToExport : list Transaction) : option string :=
  if (length dataToExport =? 0)%nat then None
  else
    let rows := map row dataToExport in
    Some (sa (join [newline]
                (join [comma] (map la headers) :: map (join [comma]) rows))).

(** [generateCSV] of [server.js]. *)
Definition generateCSV (data : list Transaction) : string :=
  let rows := map (fun d => join [comma] (server_row d)) data in
  sa (join [newline] (join [comma] (map la headers) :: rows)).

(** *** Records that survive the export *)

(** No comma, quote, tab or line feed. *)
Definition plain (s : list ascii) : bool :=
  forallb (fun c => negb (Ascii.eqb c comma || Ascii.eqb c quote
                          || Ascii.eqb c tab || Ascii.eqb c newline)) s.

(** The first code unit is not white space. *)
Definition first_ok (s : list ascii) : bool :=
  match s with
  | [] => false
  | c :: _ => negb (is_space c)
  end.

(** Not empty, and no white space at either end. *)
Definition tight (s : list ascii) : bool := first_ok s && first_ok (rev s).

(** No white space at either end. *)
Definition trimmed (s : list ascii) : bool :=
  match s with [] => true | _ => tight s end.

(** Same value, as a test. *)
Definition sameb (a b : number) : bool :=
  match a, b with
  | Num x, Num y => Qeq_bool x y
  | PInf, PInf | NInf, NInf | NaN, NaN => true
  | _, _ => false
  end.

(** The text of the number is plain, tight, free of [$], and reads back as
    the number. *)
Definition number_ok (x : number) : bool :=
  let text := la (Number_toString x) in
  plain text && tight text && negb (includes_char dollar text)
  && sameb (parseFloat text || Num 0)%js x.

(** A record whose text fields are plain and trimmed, with a date, a grower
    and a product, and whose numbers are printed faithfully. *)
Definition csv_safe (d : Transaction) : bool :=
  plain (la (date d)) && tight (la (date d))
  && plain (la (invoice_number d)) && trimmed (la (invoice_number d))
  && plain (la (grower_name d)) && tight (la (grower_name d))
  && plain (la (product d)) && tight (la (product d))
  && number_ok (quantity d) && number_ok (amount d).

(** The same record, up to the representation of the numbers. *)
Definition same_record (a b : Transaction) : Prop :=
  date a = date b /\ invoice_number a = invoice_number b /\
  grower_name a = grower_name b /\ product a = product b /\
  quantity a ≈ quantity b /\ amount a ≈ amount b.

(** A grower whose name holds a comma. *)
Definition smith : Transaction :=
  {| date := "2024-03-01"; invoice_number := "INV-7"; grower_name := "Smith, John";
     product := "Corn Seed"; quantity := Num 10; amount := Num 2500 |}.

(** What the import makes of its exported line. *)
Definition smith_reimported : Transaction :=
  {| date := "2024-03-01"; invoice_number := "INV-7"; grower_name := "Smith";
     product := "John"; quantity := Num 0; amount := Num 10 |}.

(** A plain record. *)
Definition jones : Transaction :=
  {| date := "2024-03-01"; invoice_number := "INV-8"; grower_name := "Jones Farm";
     product := "Corn Seed"; quantity := Num 10; amount := Num 2500.5 |}.

End Csv.

(** ** Cases of the forecast methods, for the statements *)

Module ForecastCases.
Import Stats.

(** The points are on the line [y = a * x + b]. *)
Definition on_line (a b : Q) (pts : list (Q * Q)) : Prop :=
  Forall (fun p => snd p == a * fst p + b) pts.

(** The points all have the x-value [x0]. *)
Definition same_x (x0 : Q) (pts : list (Q * Q)) : Prop :=
  Forall (fun p => fst p == x0) pts.

(** Every value is [r] times the value before it. *)
Fixpoint ratio_chain (r : Q) (v : list Q) : Prop :=
  match v with
  | a :: (b :: _) as rest => b == r * a /\ ratio_chain r rest
  | _ => True
  end.

(** The values between two bounds. *)
Definition between (lo hi : Q) (v : list Q) : Prop :=
  Forall (fun x => lo <= x /\ x <= hi) v.

(** The series with [c] added to every value. *)
Definition shifted (c : Q) (v : list Q) : list Q := map (fun x => x + c) v.

(** The value is an integer. *)
Definition integral (x : JS.number) : Prop := exists z : Z, x = JS.Num (inject_Z z).

(** The value is a finite number: neither [NaN] nor an infinity. *)
Definition finite (x : JS.number) : Prop := exists q : Q, x = JS.Num q.

(** Yearly data with the given numbers of growers and no revenue. *)
Definition yearly_growers (pts : list (Q * Q)) : list Forecast.YearPoint :=
  map (fun p => {| Forecast.year := JS.Num (fst p);
                   Forecast.revenue := JS.Num 0;
                   Forecast.growers := JS.Num (snd p) |}) pts.

(** Three points on the line [y = 2 * x + 1], three points at the same x,
    and a series that doubles every year. *)
Definition line_2_1 : list (Q * Q) := [(1, 3); (2, 5); (4, 9)].
Definition at_2026 : list (Q * Q) := [(2026, 100); (2026, 300); (2026, 200)].
Definition doubling : list Q := [100; 200; 400; 800].

End ForecastCases.

(** ** Cases of the CSV functions, for the statements *)

Module CsvCases.
Import JS Data Str Csv.

(** A cell between double quotes. *)
Definition quoted (cell : list ascii) : list ascii := quote :: cell ++ [quote].

(** The record has a date, a grower and a product: the test of [parseCSV] in
    [app.js]. *)
Definition has_required (e : Transaction) : bool :=
  nonempty (date e) && nonempty (grower_name e) && nonempty (product e).

(** The quantity and the amount are truthy: neither [0] nor [NaN]. *)
Definition truthy_numbers (d : Transaction) : bool :=
  truthy (quantity d) && truthy (amount d).

(** Two cells, the first with a comma in it. *)
Definition smith_cells : list (list ascii) := [la "Smith, John"; la "Corn Seed"].

End CsvCases.

(** ** The configuration of the dashboard ([app.js], [CONFIG]) *)

Module Config.

Definition PRODUCTS : list string :=
  ["Corn Seed"; "Soybean Seed"; "Sorghum"; "Alfalfa"; "Herbicide"; "Fungicide";
   "Insecticide"; "Fertilizer"; "Equipment"; "Other"]%string.

Definition YEARS : list Z := [2022; 2023; 2024; 2025; 2026]%Z.

End Config.

(** ** The overview, historical, forecasting and grower tabs ([app.js])

    The functions below are the computations of the functions of the same
    name, without the page and the charts they write to: each returns the
    values it displays.  [data] is [state.data]. *)

Module Charts.
Import JS Data Forecast.

(** [data.reduce((sum, d) => sum + d.amount, 0)] *)
Definition sum_amount (data : list Transaction) : number :=
  fold_left (fun sum d => (sum + amount d)%js) data (Num 0).

(** [new Set(data.map(d => d.grower_name)).size] *)
Definition count_growers (data : list Transaction) : nat :=
  JSSet.size (JSSet.of_list (map grower_name data)).

(** [if (product !== 'all') data = data.filter(d => d.product === product)] *)
Definition filter_product (product : string) (data : list Transaction) : list Transaction :=
  if String.eqb product "all" then data
  else List.filter (fun d => String.eqb (Data.product d) product) data.

(** [growthRates] of [createGrowthRateChart]. *)
Definition growthRates (yearlyData : list number) : list number :=
  imap (fun index value =>
          if (index =? 0)%nat then Num 0
          else
            let prevValue := at_index yearlyData (index - 1) in
            if truthy prevValue then ((value - prevValue) / prevValue * Num 100)%js
            else Num 0)
       yearlyData.

(** A row of the historical summary table. *)
Record HistoricalRow : Type := {
  row_year : Z;
  row_revenue : number;
  row_orders : nat;
  row_growers : nat;
  row_avgOrderValue : number;
  row_growth : number
}.

(** What [updateOverviewStats] writes into the page. *)
Record OverviewStats : Type := {
  ov_totalRevenue : number;
  ov_revenueChange : number;
  ov_growers : nat;
  ov_growersChange : Z;
  ov_orders : nat;
  ov_ordersChange : number;
  ov_retentionRate : number
}.

Section WithDate.

(** The year and the month (0 to 11) of [new Date(s)], in local time;
    [None] for an invalid date, whose fields are all [NaN]. *)
Variable Date_fields : string -> option (Z * nat).

Definition Date_getFullYear (s : string) : option Z := fst <$> Date_fields s.
Definition Date_getMonth (s : string) : option nat := snd <$> Date_fields s.

(** [filterDataByYear(year)] *)
Definition filterDataByYear (data : list Transaction) (year : Z) : list Transaction :=
  Retention.filterDataByYear Date_getFullYear data year.

(** [new Date(d.date).getFullYear() === year] and
    [new Date(d.date).getMonth() === index] *)
Definition year_is (year : Z) (d : Transaction) : bool :=
  match Date_getFullYear (date d) with Some y => (y =? year)%Z | None => false end.

Definition month_is (index : nat) (d : Transaction) : bool :=
  match Date_getMonth (date d) with Some m => (m =? index)%nat | None => false end.

(** [yearlyData] of [createHistoricalRevenueChart] and of
    [createGrowthRateChart]. *)
Definition yearlyRevenue (data : list Transaction) (years : list Z) (product : string)
    : list number :=
  map (fun year => sum_amount (filter_product product (filterDataByYear data year))) years.

Definition createGrowthRateChart (data : list Transaction) (years : list Z)
    (product : string) : list number :=
  growthRates (yearlyRevenue data years product).

(** One iteration of [years.forEach] in [updateHistoricalTable]: the row
    added, given [prevRevenue]. *)
Definition historicalRow (data : list Transaction) (product : string)
    (prevRevenue : number) (year : Z) : HistoricalRow :=
  let data' := filter_product product (filterDataByYear data year) in
  let revenue := sum_amount data' in
  let orders := length data' in
  let growers := count_growers data' in
  {| row_year := year;
     row_revenue := revenue;
     row_orders := orders;
     row_growers := growers;
     row_avgOrderValue :=
       if (orders =? 0)%nat then Num 0 else (revenue / of_nat orders)%js;
     row_growth :=
       if truthy prevRevenue
       then ((revenue - prevRevenue) / prevRevenue * Num 100)%js else Num 0 |}.

(** The rows of [updateHistoricalTable], in the order they are written. *)
Definition updateHistoricalTable (data : list Transaction) (years : list Z)
    (product : string) : list HistoricalRow :=
  fst (fold_left
         (fun '(rows, prevRevenue) year =>
            let row := historicalRow data product prevRevenue year in
            (rows ++ [row], row_revenue row))
         years ([], Num 0)).

(** [monthlyData] of [createOverviewMonthlyChart]. *)
Definition monthlyData (data : list Transaction) (currentYear : Z) : list number :=
  map (fun index =>
         sum_amount (List.filter (fun d => year_is currentYear d && month_is index d) data))
      (seq 0 12).

(** [updateOverviewStats], for the year [currentYear] of the clock. *)
Definition updateOverviewStats (data : list Transaction) (currentYear : Z) : OverviewStats :=
  let lastYear := (currentYear - 1)%Z in
  let currentYearData := filterDataByYear data currentYear in
  let lastYearData := filterDataByYear data lastYear in
  let totalRevenue := sum_amount currentYearData in
  let lastYearRevenue := sum_amount lastYearData in
  let revenueChange :=
    if truthy lastYearRevenue
    then ((totalRevenue - lastYearRevenue) / lastYearRevenue * Num 100)%js else Num 0 in
  let growers := count_growers currentYearData in
  let lastYearGrowers := count_growers lastYearData in
  let growersChange := (Z.of_nat growers - Z.of_nat lastYearGrowers)%Z in
  let orders := length currentYearData in
  let lastYearOrders := length lastYearData in
  let ordersChange :=
    if (lastYearOrders =? 0)%nat then Num 0
    else ((of_nat orders - of_nat lastYearOrders) / of_nat lastYearOrders * Num 100)%js in
  let currentGrowers := JSSet.of_list (map grower_name currentYearData) in
  let previousGrowers := JSSet.of_list (map grower_name lastYearData) in
  let returningGrowers :=
    length (filter (fun g => JSSet.has previousGrowers g = true) currentGrowers) in
  let retentionRate :=
    if (JSSet.size previousGrowers =? 0)%nat then Num 0
    else (of_nat returningGrowers / of_nat (JSSet.size previousGrowers) * Num 100)%js in
  {| ov_totalRevenue := totalRevenue;
     ov_revenueChange := revenueChange;
     ov_growers := growers;
     ov_growersChange := growersChange;
     ov_orders := orders;
     ov_ordersChange := ordersChange;
     ov_retentionRate := retentionRate |}.

(** [retentionData] of [createRetentionTrendChart]. *)
Definition retentionData (data : list Transaction) : list number :=
  imap (fun index yr =>
          if (index =? 0)%nat then Num 0
          else
            let currentGrowers :=
              JSSet.of_list (map grower_name (filterDataByYear data yr)) in
            let previousGrowers :=
              JSSet.of_list (map grower_name (filterDataByYear data (yr - 1))) in
            let returning :=
              length (filter (fun g => JSSet.has previousGrowers g = true) currentGrowers) in
            if (JSSet.size previousGrowers =? 0)%nat then Num 0
            else (of_nat returning / of_nat (JSSet.size previousGrowers) * Num 100)%js)
       Config.YEARS.

(** [CONFIG.YEARS] as the numbers the regression reads. *)
Definition YEARS_numbers : list number := map (fun yr => Num (inject_Z yr)) Config.YEARS.

(** [yearlyData] of [runForecast]. *)
Definition yearlyData (data : list Transaction) : list YearPoint :=
  map (fun yr =>
         {| Forecast.year := Num (inject_Z yr);
            Forecast.revenue := sum_amount (filterDataByYear data yr);
            Forecast.growers := of_nat (count_growers (filterDataByYear data yr)) |})
      Config.YEARS.

(** The forecast [runForecast] displays, for the method and the confidence
    level selected in the page. *)
Definition runForecast (sqrtQ : Q -> Q) (data : list Transaction) (method : string)
    (confidence : number) : ForecastResult :=
  calculateForecast sqrtQ (yearlyData data) method confidence.

(** [monthlyDistribution] of [createMonthlyForecastChart].  The test on
    [totalYearRevenue] is decided on the exact sum: the sum the language
    computes is zero for the same data when no amount is negative, and may
    differ from zero by a rounding error when amounts of both signs cancel. *)
Definition monthlyDistribution (data : list Transaction) : list number :=
  map (fun index =>
         let '(totalMonthRevenue, totalYearRevenue) :=
           fold_left
             (fun '(totalMonthRevenue, totalYearRevenue) yr =>
                let yearData := filterDataByYear data yr in
                let monthData := List.filter (month_is index) yearData in
                ((totalMonthRevenue + sum_amount monthData)%js,
                 (totalYearRevenue + sum_amount yearData)%js))
             Config.YEARS (Num 0, Num 0) in
         if truthy totalYearRevenue then (totalMonthRevenue / totalYearRevenue)%js
         else (Num 1 / Num 12)%js)
      (seq 0 12).

(** [forecast2027] and [monthlyForecast] of [createMonthlyForecastChart]. *)
Definition forecast2027 (data : list Transaction) : number :=
  linearRegression YEARS_numbers
    (map (fun yr => sum_amount (filterDataByYear data yr)) Config.YEARS) (Num 2027).

Definition monthlyForecast (data : list Transaction) : list number :=
  map (fun dist => (forecast2027 data * dist)%js) (monthlyDistribution data).

End WithDate.

(** The months of a calendar are within the year. *)
Definition valid_months (Date_fields : string -> option (Z * nat)) : Prop :=
  forall s y m, Date_fields s = Some (y, m) -> (m < 12)%nat.

(** Every amount is a finite number. *)
Definition finite_amounts (data : list Transaction) : Prop :=
  Forall (fun d => exists a : Q, amount d = Num a) data.

(** A calendar for the examples: the year and the month of a text that
    starts with [YYYY-MM]. *)
Definition iso_fields (s : string) : option (Z * nat) :=
  match Str.la s with
  | y1 :: y2 :: y3 :: y4 :: dash :: m1 :: m2 :: _ =>
      if forallb NumText.is_digit [y1; y2; y3; y4; m1; m2] && Ascii.eqb dash "-" then
        let '(yr, _, _) := NumText.digits [y1; y2; y3; y4] 0 0 in
        let '(mo, _, _) := NumText.digits [m1; m2] 0 0 in
        if ((1 <=? mo) && (mo <=? 12))%Z then Some (yr, Z.to_nat (mo - 1)) else None
      else None
  | _ => None
  end.

(** Sales of one grower in two months of 2024 and one month of 2023. *)
Definition sale_on (day : string) (name : string) (value : Q) : Transaction :=
  {| date := day; invoice_number := "INV-1"; grower_name := name;
     product := "Corn Seed"; quantity := Num 1; amount := Num value |}.

Definition three_sales : list Transaction :=
  [sale_on "2024-01-15" "A" 100; sale_on "2024-03-02" "B" 50;
   sale_on "2023-03-09" "A" 70].

End Charts.

(** ** The product table ([app.js], "PRODUCT ANALYSIS TAB") *)

Module Products.
Import JS Data.

(** An object whose keys are not array indices, as the list of its own
    properties in the order [Object.entries] lists them: the order in which
    they were added. *)
Definition Obj (V : Type) : Type := list (string * V).

(** [obj.hasOwnProperty(k)] *)
Definition hasOwnProperty {V} (obj : Obj V) (k : string) : bool :=
  existsb (fun kv => String.eqb (fst kv) k) obj.

(** [obj[k] = f(obj[k])] for an own property [k]. *)
Definition update {V} (obj : Obj V) (k : string) (f : V -> V) : Obj V :=
  map (fun kv => if String.eqb (fst kv) k then (fst kv, f (snd kv)) else kv) obj.

(** [obj[k]] read as a number; [undefined] converts to [NaN]. *)
Definition get (obj : Obj number) (k : string) : number :=
  match List.find (fun kv => String.eqb (fst kv) k) obj with
  | Some kv => snd kv
  | None => NaN
  end.

(** [arr.sort(compare)].  The sort of the language is stable, and its result
    is fixed by the comparison when the comparison is consistent; the model
    is the stable insertion sort, in which [x] goes after [y] when
    [compare(x, y) > 0]. *)
Fixpoint insert_sorted {A} (compare : A -> A -> number) (x : A) (sorted : list A) : list A :=
  match sorted with
  | [] => [x]
  | y :: rest =>
      if gt (compare x y) (Num 0) then y :: insert_sorted compare x rest
      else x :: sorted
  end.

Definition sort {A} (compare : A -> A -> number) (arr : list A) : list A :=
  fold_right (insert_sorted compare) [] arr.

(** A value of [productStats]. *)
Record ProductStats : Type := { ps_revenue : number; ps_units : number }.

(** A row of the product table. *)
Record ProductRow : Type := {
  pr_product : string;
  pr_revenue : number;
  pr_units : number;
  pr_avgPrice : number;
  pr_percentOfTotal : number;
  pr_yoyChange : number
}.

(** [productStats] after the loop over [data]. *)
Definition productStats (data : list Transaction) : Obj ProductStats :=
  fold_left
    (fun stats d =>
       if hasOwnProperty stats (product d)
       then update stats (product d)
              (fun s => {| ps_revenue := (ps_revenue s + amount d)%js;
                           ps_units := (ps_units s + quantity d)%js |})
       else stats)
    data
    (map (fun p => (p, {| ps_revenue := Num 0; ps_units := Num 0 |})) Config.PRODUCTS).

(** [previousProductRevenue] after the loop over [previousYearData]. *)
Definition previousProductRevenue (previousYearData : list Transaction) : Obj number :=
  fold_left
    (fun previous d =>
       if hasOwnProperty previous (product d)
       then update previous (product d) (fun v => (v + amount d)%js)
       else previous)
    previousYearData
    (map (fun p => (p, Num 0)) Config.PRODUCTS).

(** The row written for an entry of [products]. *)
Definition productRow (previous : Obj number) (totalRevenue : number)
    (entry : string * ProductStats) : ProductRow :=
  let '(product, stats) := entry in
  let avgPrice :=
    if truthy (ps_units stats) then (ps_revenue stats / ps_units stats)%js else Num 0 in
  let percentOfTotal :=
    if truthy totalRevenue then (ps_revenue stats / totalRevenue * Num 100)%js
    else Num 0 in
  let prevRevenue := get previous product in
  let yoyChange :=
    if truthy prevRevenue
    then ((ps_revenue stats - prevRevenue) / prevRevenue * Num 100)%js else Num 0 in
  {| pr_product := product;
     pr_revenue := ps_revenue stats;
     pr_units := ps_units stats;
     pr_avgPrice := avgPrice;
     pr_percentOfTotal := percentOfTotal;
     pr_yoyChange := yoyChange |}.

(** The rows of [updateProductTable], for the data of the year selected and
    of the year before. *)
Definition productRows (data previousYearData : list Transaction) : list ProductRow :=
  let stats := productStats data in
  let previous := previousProductRevenue previousYearData in
  let totalRevenue := fold_left (fun sum p => (sum + ps_revenue (snd p))%js) stats (Num 0) in
  let products :=
    sort (fun a b => (ps_revenue (snd b) - ps_revenue (snd a))%js)
         (List.filter (fun entry => gt (ps_revenue (snd entry)) (Num 0)) stats) in
  map (productRow previous totalRevenue) products.

(** [productRevenue] of [createProductRevenueChart] after the loop over
    [data]. *)
Definition productRevenue (data : list Transaction) : Obj number :=
  fold_left
    (fun productRevenue d =>
       if hasOwnProperty productRevenue (product d)
       then update productRevenue (product d) (fun v => (v + amount d)%js)
       else productRevenue)
    data
    (map (fun p => (p, Num 0)) Config.PRODUCTS).

(** The pie of [createProductRevenueChart]: its labels and its values. *)
Definition createProductRevenueChart (data : list Transaction)
    : list string * list number :=
  let productRevenue := productRevenue data in
  let labels :=
    List.filter (fun k => gt (get productRevenue k) (Num 0)) (map fst productRevenue) in
  let values := map (fun l => get productRevenue l) labels in
  (labels, values).

Section WithDate.

Variable Date_fields : string -> option (Z * nat).

(** [updateProductTable(year)]; [None] is the year ['all']. *)
Definition updateProductTable (data : list Transaction) (year : option Z)
    : list ProductRow :=
  match year with
  | None => productRows data []
  | Some y =>
      productRows (Charts.filterDataByYear Date_fields data y)
                  (Charts.filterDataByYear Date_fields data (y - 1))
  end.

End WithDate.

(** The product of the record is one of the configuration. *)
Definition known_product (d : Transaction) : bool :=
  bool_decide (product d ∈ Config.PRODUCTS).

(** The finite value of the revenue of an entry of [productStats]. *)
Definition entry_revenue (entry : string * ProductStats) : Q :=
  match ps_revenue (snd entry) with Num q => q | _ => 0 end.

(** Sales of two known products and of one the configuration does not
    list. *)
Definition sale_of (name : string) (value : Q) : Transaction :=
  {| date := "2024-03-01"; invoice_number := "INV-1"; grower_name := "A";
     product := name; quantity := Num 1; amount := Num value |}.

Definition mixed_sales : list Transaction :=
  [sale_of "Sorghum" 30; sale_of "Corn Seed" 50; sale_of "Seeds" 999;
   sale_of "Sorghum" 20; sale_of "Other" 100].

End Products.

(** ** Revenue by product ([server.js], [GET /api/analytics/by-product]) *)

Module ProductAggregation.
Import JS Data Aggregation.

(** A value of the object [byProduct]. *)
Record ProductEntry : Type := {
  pe_revenue : number;
  pe_quantity : number;
  pe_orders : nat
}.

(** One call of the [forEach] callback.  For a product named as an inherited
    property, [byProduct[d.product]] is that inherited function or object:
    the test [!byProduct[d.product]] fails, no entry is made, and the three
    assignments land on the inherited value, which is no property of
    [byProduct] itself and is not part of the answer. *)
Definition by_product_step (byProduct : gmap string ProductEntry) (d : Transaction)
    : gmap string ProductEntry :=
  if bool_decide (product d ∈ Object_prototype_names) then byProduct
  else
    let entry :=
      match byProduct !! product d with
      | Some e => e
      | None => {| pe_revenue := Num 0; pe_quantity := Num 0; pe_orders := 0 |}
      end in
    <[product d :=
        {| pe_revenue := (pe_revenue entry + amount d)%js;
           pe_quantity := (pe_quantity entry + quantity d)%js;
           pe_orders := S (pe_orders entry) |}]> byProduct.

(** The object [products] of the answer. *)
Definition by_product (data : list Transaction) : gmap string ProductEntry :=
  foldl by_product_step ∅ data.

(** [records.reduce((sum, d) => sum + d.quantity, 0)] *)
Definition sum_quantity (records : list Transaction) : number :=
  fold_left (fun sum d => (sum + quantity d)%js) records (Num 0).

(** The records of a product. *)
Definition of_product (p : string) (data : list Transaction) : list Transaction :=
  List.filter (fun d => String.eqb (product d) p) data.

End ProductAggregation.

(** * Properties *)

(** ** Reasoning about rational lists and finite numbers *)

Module QFacts.
Import JS Stats.

Lemma Qltb_lt a b : Qltb a b = true <-> a < b.
Proof.
  unfold Qltb. rewrite negb_true_iff, <- not_true_iff_false, Qle_bool_iff.
  split; [apply Qnot_le_lt | apply Qlt_not_le].
Qed.

Lemma Qltb_ge a b : Qltb a b = false <-> b <= a.
Proof.
  unfold Qltb. rewrite negb_false_iff. apply Qle_bool_iff.
Qed.

Lemma Qeq_bool_false a b : Qeq_bool a b = false <-> ~ a == b.
Proof.
  rewrite <- not_true_iff_false, Qeq_bool_iff. reflexivity.
Qed.

Lemma Qle_bool_false a b : Qle_bool a b = false <-> b < a.
Proof.
  rewrite <- not_true_iff_false, Qle_bool_iff.
  split; [apply Qnot_le_lt | apply Qlt_not_le].
Qed.

Lemma Qlen_nonneg {A} (l : list A) : 0 <= Qlen l.
Proof.
  unfold Qlen. change 0 with (inject_Z 0). rewrite <- Zle_Qle. lia.
Qed.

Lemma Qlen_pos {A} (l : list A) : l <> [] -> 0 < Qlen l.
Proof.
  intros Hl. unfold Qlen. change 0 with (inject_Z 0). rewrite <- Zlt_Qlt.
  destruct l; [congruence | simpl length; lia].
Qed.

Lemma Qlen_nil {A} : Qlen (@nil A) == 0.
Proof. reflexivity. Qed.

Lemma Qlen_cons {A} (a : A) (l : list A) : Qlen (a :: l) == 1 + Qlen l.
Proof.
  unfold Qlen. simpl length. rewrite Nat2Z.inj_succ, <- Z.add_1_l.
  rewrite inject_Z_plus. reflexivity.
Qed.

Lemma Qlen_map {A B} (f : A -> B) (l : list A) : Qlen (map f l) = Qlen l.
Proof. unfold Qlen. now rewrite length_map. Qed.

Lemma Qsum_cons (x : Q) (l : list Q) : Qsum (x :: l) = x + Qsum l.
Proof. reflexivity. Qed.

Lemma fold_left_Qplus (l : list Q) (a : Q) : fold_left Qplus l a == a + Qsum l.
Proof.
  revert a. induction l as [|x l IH]; intros a; simpl.
  - lra.
  - rewrite IH. lra.
Qed.

Lemma Qsum_nonneg (l : list Q) : Forall (fun x => 0 <= x) l -> 0 <= Qsum l.
Proof.
  induction 1 as [|x l Hx _ IH]; simpl; lra.
Qed.


Lemma Qsum_map_ext {A} (f g : A -> Q) (l : list A) :
  (forall a, f a == g a) -> Qsum (map f l) == Qsum (map g l).
Proof.
  intros Hfg. induction l as [|a l IH]; simpl; [reflexivity|].
  rewrite IH, Hfg. reflexivity.
Qed.

Lemma Qsquare_nonneg (a : Q) : 0 <= a * a.
Proof. nra. Qed.

Lemma mean_nil : mean [] == 0.
Proof. reflexivity. Qed.


(** *** Finite numbers: the operators on [Num] values *)

Lemma sum_from_Num (l : list Q) (a : Q) :
  fold_left add (map Num l) (Num a) = Num (fold_left Qplus l a).
Proof.
  revert a. induction l as [|x l IH]; intros a; simpl; [reflexivity | apply IH].
Qed.

Lemma sum_Num (l : list Q) : sum (map Num l) = Num (fold_left Qplus l 0).
Proof. apply sum_from_Num. Qed.

Lemma div_Num (a b : Q) : ~ b == 0 -> (Num a / Num b)%js = Num (a / b).
Proof.
  intros Hb. simpl. apply Qeq_bool_false in Hb. now rewrite Hb.
Qed.

Lemma div_Num_len {A} (a : Q) (l : list A) :
  l <> [] -> (Num a / of_nat (length l))%js = Num (a / Qlen l).
Proof.
  intros Hl. apply div_Num. pose proof (Qlen_pos l Hl). unfold Qlen in *. lra.
Qed.

Lemma at_index_Num (l : list Q) (i : nat) :
  (i < length l)%nat -> at_index (map Num l) i = Num (nth i l 0).
Proof.
  intros Hi. unfold at_index.
  rewrite (nth_indep _ NaN (Num 0)) by now rewrite length_map.
  apply (map_nth Num).
Qed.

Lemma same_refl a : a ≈ a.
Proof. destruct a; simpl; auto; reflexivity. Qed.

Lemma same_sym a b : a ≈ b -> b ≈ a.
Proof. destruct a, b; simpl; auto. intros H; now symmetry. Qed.

Lemma same_trans a b c : a ≈ b -> b ≈ c -> a ≈ c.
Proof.
  destruct a, b, c; simpl; auto; try tauto. intros H1 H2. now rewrite H1.
Qed.

Lemma same_Num (x y : Q) : Num x ≈ Num y <-> x == y.
Proof. reflexivity. Qed.

End QFacts.

(** ** The growth-rate and weighted-average methods *)

Module GrowthFacts.
Import JS Stats Forecast ForecastSpec QFacts.

Lemma rates_Num (v : list Q) : rates (map Num v) = map Num (yoy_changes v).
Proof.
  unfold yoy_changes, transitions.
  induction v as [|prev [|cur rest] IH]; [reflexivity | reflexivity |].
  change (rates (map Num (prev :: cur :: rest)))
    with (if gt (Num prev) (Num 0)
          then ((Num cur - Num prev) / Num prev)%js :: rates (map Num (cur :: rest))
          else rates (map Num (cur :: rest))).
  rewrite IH. cbn [tl combine List.filter fst snd gt lt].
  destruct (Qltb 0 prev) eqn:Hp; [|reflexivity].
  apply Qltb_lt in Hp. cbn [map fst snd]. f_equal.
  unfold sub, neg, add. apply div_Num. lra.
Qed.

Lemma nth_pred_length {A} (l : list A) (d : A) :
  nth (length l - 1) l d = List.last l d.
Proof.
  induction l as [|a [|b l] IH]; [reflexivity | reflexivity |].
  change (List.last (a :: b :: l) d) with (List.last (b :: l) d).
  rewrite <- IH. cbn [length Nat.sub nth]. now rewrite ?Nat.sub_0_r.
Qed.

Lemma last_elem_Num (v : list Q) :
  v <> [] -> last_elem (map Num v) = Num (List.last v 0).
Proof.
  intros Hv. unfold last_elem. rewrite length_map, at_index_Num.
  - now rewrite nth_pred_length.
  - destruct v; [congruence | simpl; lia].
Qed.

(** The average growth the code computes is the mean of the changes. *)
Lemma avgGrowth_Num (ys : list Q) :
  (if (length (map Num ys) =? 0)%nat then Num 0
   else (sum (map Num ys) / of_nat (length (map Num ys)))%js) ≈ Num (mean ys).
Proof.
  destruct ys as [|y ys]; [simpl; reflexivity|].
  change (length (map Num (y :: ys)) =? 0)%nat with false. cbv iota.
  rewrite sum_Num, length_map, div_Num_len by discriminate.
  apply same_Num. unfold mean. now rewrite fold_left_Qplus, Qplus_0_l.
Qed.

Lemma growthRateForecast_short (v : list Q) :
  (length v < 2)%nat -> growthRateForecast (map Num v) ≈ Num (List.last v 0).
Proof.
  destruct v as [|a [|b v]]; simpl length; try lia; intros _.
  - apply same_refl.
  - unfold growthRateForecast, last_elem, at_index, or, truthy.
    cbn [map length Nat.sub nth Nat.ltb Nat.leb List.last].
    destruct (Qeq_bool a 0) eqn:Ha; cbn [negb].
    + apply Qeq_bool_iff in Ha. apply same_Num. now symmetry.
    + apply same_refl.
Qed.

Lemma growthRateForecast_long (v : list Q) :
  (2 <= length v)%nat ->
  growthRateForecast (map Num v) ≈ Num (growth_projection v).
Proof.
  intros Hlen. unfold growthRateForecast.
  assert (Hv : v <> []) by (intros ->; simpl in Hlen; lia).
  rewrite length_map. apply Nat.ltb_ge in Hlen as ->.
  rewrite rates_Num, last_elem_Num by assumption.
  pose proof (avgGrowth_Num (yoy_changes v)) as Havg.
  destruct (if (length (map Num (yoy_changes v)) =? 0)%nat then _ else _) as [g| | |];
    simpl in Havg; try contradiction.
  simpl. unfold growth_projection. now rewrite Havg.
Qed.

Lemma growthRateForecast_projection (v : list Q) :
  growthRateForecast (map Num v) ≈ Num (growth_projection v).
Proof.
  destruct (le_lt_dec 2 (length v)) as [Hlong | Hshort].
  - now apply growthRateForecast_long.
  - eapply same_trans; [now apply growthRateForecast_short|].
    apply same_Num. unfold growth_projection.
    destruct v as [|a [|b v]]; [| |simpl in Hshort; lia].
    + simpl. ring.
    + unfold yoy_changes, transitions. cbn [tl combine List.filter map List.last].
      rewrite mean_nil. ring.
Qed.

(** C5: the growth-rate forecast is the last value times one plus the mean
    relative change over the transitions with a strictly positive prior
    value; a series of fewer than two points yields its last value ([0] when
    it is empty). *)
Theorem growthRateForecast_spec (v : list Q) :
  growthRateForecast (map Num v) ≈ Num (growth_projection v) /\
  ((length v < 2)%nat -> growthRateForecast (map Num v) ≈ Num (List.last v 0)).
Proof.
  split; [apply growthRateForecast_projection | apply growthRateForecast_short].
Qed.

Lemma growthRateForecast_spec_witness :
  (length [5 : Q] < 2)%nat /\ growthRateForecast (map Num [5]) ≈ Num (List.last [5] 0).
Proof.
  split; [simpl; lia|].
  apply (proj2 (growthRateForecast_spec [5])). simpl. lia.
Defined.

End GrowthFacts.

Module WeightedFacts.
Import JS Stats Forecast QFacts.

Lemma weightedAverageForecast_single (v : Q) :
  weightedAverageForecast [Num v] ≈ Num (0.95 * v).
Proof.
  unfold weightedAverageForecast, last_elem, reduce_i, sum, at_index, gt, of_nat.
  cbn [length Nat.eqb imap reduce_from fold_left nth Nat.sub Nat.add Z.of_nat
       add mul lt Pos.of_succ_nat].
  rewrite !div_Num by (intros H; discriminate H).
  cbn [lt]. change (inject_Z (Z.of_nat 1)) with 1.
  assert (Hlt : Qltb ((0 + v) / 1) v = false).
  { apply Qltb_ge. apply Qle_lteq. right. field. }
  rewrite Hlt. cbn [mul]. apply same_Num. field.
Qed.

(** C10: on a one-element series the weighted-average forecast is
    [0.95 * v], which is not [v] unless [v] is [0]: the last value is not
    strictly above the mean, so the lower multiplier applies. *)
Theorem weightedAverageForecast_one_point (v : Q) :
  weightedAverageForecast [Num v] ≈ Num (0.95 * v) /\
  (~ v == 0 -> ~ weightedAverageForecast [Num v] ≈ Num v).
Proof.
  pose proof (weightedAverageForecast_single v) as H. split; [exact H|].
  intros Hv Habs. apply same_sym in H. pose proof (same_trans _ _ _ H Habs) as H'.
  unfold same in H'. apply Hv. lra.
Qed.

Lemma weightedAverageForecast_one_point_witness :
  ~ 100 == 0 /\ ~ weightedAverageForecast [Num 100] ≈ Num 100.
Proof.
  split; [discriminate|].
  apply (proj2 (weightedAverageForecast_one_point 100)). discriminate.
Defined.

End WeightedFacts.

(** ** Linear regression *)

Module RegressionFacts.
Import JS Stats Forecast ForecastSpec QFacts.

Lemma Qsum_pos_term {A} (f : A -> Q) (l : list A) (a : A) :
  (forall b, 0 <= f b) -> In a l -> 0 < f a -> 0 < Qsum (map f l).
Proof.
  intros Hf Ha Hpos.
  assert (Hall : forall l', 0 <= Qsum (map f l')).
  { intros l'. apply Qsum_nonneg, List.Forall_forall. intros x Hx.
    apply in_map_iff in Hx as (b & <- & _). apply Hf. }
  induction l as [|b l IH]; [destruct Ha|].
  simpl. destruct Ha as [-> | Ha].
  - specialize (Hall l). lra.
  - specialize (IH Ha). specialize (Hf b). lra.
Qed.

(** Expansion of a sum of squares of affine forms of the points. *)
Lemma sse_expand (pts : list (Q * Q)) (a b : Q) :
  sse pts a b ==
  Qsum (map (fun p => snd p * snd p) pts) - 2 * a * Sxy pts - 2 * b * Sy pts
  + a * a * Sxx pts + 2 * a * b * Sx pts + Qlen pts * (b * b).
Proof.
  unfold sse, Sxy, Sy, Sxx, Sx.
  induction pts as [|[x y] pts IH].
  - rewrite Qlen_nil. simpl. ring.
  - rewrite Qlen_cons, !map_cons, !Qsum_cons. cbn [fst snd]. rewrite IH. ring.
Qed.

Lemma affine_squares (pts : list (Q * Q)) (u w : Q) :
  Qsum (map (fun p => (u * fst p + w) * (u * fst p + w)) pts) ==
  u * u * Sxx pts + 2 * u * w * Sx pts + Qlen pts * (w * w).
Proof.
  unfold Sxx, Sx.
  induction pts as [|[x y] pts IH].
  - rewrite Qlen_nil. simpl. ring.
  - rewrite Qlen_cons, !map_cons, !Qsum_cons. cbn [fst snd]. rewrite IH. ring.
Qed.

Lemma affine_squares_nonneg (pts : list (Q * Q)) (u w : Q) :
  0 <= u * u * Sxx pts + 2 * u * w * Sx pts + Qlen pts * (w * w).
Proof.
  rewrite <- affine_squares. apply Qsum_nonneg, List.Forall_forall.
  intros q Hq. apply in_map_iff in Hq as (p & <- & _). apply Qsquare_nonneg.
Qed.

Lemma two_distinct_nonempty (pts : list (Q * Q)) : two_distinct_x pts -> pts <> [].
Proof. intros (p & q & Hp & _) ->. destruct Hp. Qed.

(** The denominator of the slope is positive as soon as two x-values
    differ. *)
Lemma denominator_pos (pts : list (Q * Q)) :
  two_distinct_x pts -> 0 < Qlen pts * Sxx pts - Sx pts * Sx pts.
Proof.
  intros Hd. pose proof (Qlen_pos pts (two_distinct_nonempty pts Hd)) as Hn.
  destruct Hd as (p & q & Hp & Hq & Hpq).
  set (m := Sx pts / Qlen pts).
  assert (Hm : m * Qlen pts == Sx pts) by (unfold m; field; lra).
  assert (Hsq : 0 < Qsum (map (fun r => (1 * fst r + - m) * (1 * fst r + - m)) pts)).
  { destruct (Qeq_dec (fst p) m) as [Hpm | Hpm].
    - apply (Qsum_pos_term _ pts q); [intros; apply Qsquare_nonneg | assumption |].
      assert (~ fst q == m) by (intros Hqm; apply Hpq; now rewrite Hpm, Hqm).
      assert (0 <= (1 * fst q + - m) * (1 * fst q + - m)) by apply Qsquare_nonneg.
      destruct (Qeq_dec ((1 * fst q + - m) * (1 * fst q + - m)) 0) as [Hz | Hz]; [|lra].
      apply Qmult_integral in Hz. exfalso. destruct Hz; apply H; lra.
    - apply (Qsum_pos_term _ pts p); [intros; apply Qsquare_nonneg | assumption |].
      assert (0 <= (1 * fst p + - m) * (1 * fst p + - m)) by apply Qsquare_nonneg.
      destruct (Qeq_dec ((1 * fst p + - m) * (1 * fst p + - m)) 0) as [Hz | Hz]; [|lra].
      apply Qmult_integral in Hz. exfalso. destruct Hz; apply Hpm; lra. }
  rewrite affine_squares in Hsq.
  assert (Heq : Qlen pts * (1 * 1 * Sxx pts + 2 * 1 * - m * Sx pts + Qlen pts * (- m * - m))
                == Qlen pts * Sxx pts - Sx pts * Sx pts).
  { rewrite <- Hm. ring. }
  rewrite <- Heq. apply Qmult_lt_0_compat; assumption.
Qed.

(** The normal equations of the fit. *)
Lemma normal_equations (pts : list (Q * Q)) :
  two_distinct_x pts ->
  ols_slope pts * Sxx pts + ols_intercept pts * Sx pts == Sxy pts /\
  ols_slope pts * Sx pts + Qlen pts * ols_intercept pts == Sy pts.
Proof.
  intros Hd. pose proof (denominator_pos pts Hd) as HD.
  pose proof (Qlen_pos pts (two_distinct_nonempty pts Hd)) as Hn.
  unfold ols_intercept, ols_slope. split; field; lra.
Qed.

(** The closed form minimises the sum of squared residuals. *)
Lemma ols_least_squares (pts : list (Q * Q)) (a b : Q) :
  two_distinct_x pts ->
  sse pts (ols_slope pts) (ols_intercept pts) <= sse pts a b.
Proof.
  intros Hd. destruct (normal_equations pts Hd) as [H1 H2].
  pose proof (affine_squares_nonneg pts (a - ols_slope pts) (b - ols_intercept pts)) as Hsq.
  rewrite !sse_expand.
  set (s := ols_slope pts) in *. set (c := ols_intercept pts) in *.
  assert (Hdiff :
    (a - s) * (a - s) * Sxx pts + 2 * (a - s) * (b - c) * Sx pts
      + Qlen pts * ((b - c) * (b - c))
    == (a * a * Sxx pts + 2 * a * b * Sx pts + Qlen pts * (b * b)
        - 2 * a * Sxy pts - 2 * b * Sy pts)
       - (s * s * Sxx pts + 2 * s * c * Sx pts + Qlen pts * (c * c)
          - 2 * s * Sxy pts - 2 * c * Sy pts)).
  { rewrite <- H1, <- H2. ring. }
  rewrite Hdiff in Hsq. lra.
Qed.

(** *** The code computes the closed form *)

Lemma sumX2_Num (xs : list Q) (i : nat) (acc : Q) :
  exists q,
    reduce_from (fun total xi (_ : nat) => (total + xi * xi)%js) (map Num xs) i (Num acc)
      = Num q /\
    q == acc + Qsum (map (fun x => x * x) xs).
Proof.
  revert i acc. induction xs as [|x xs IH]; intros i acc.
  - exists acc. split; [reflexivity | simpl; ring].
  - destruct (IH (S i) (acc + x * x)) as (q & Hq & Hv).
    exists q. split; [exact Hq|]. rewrite Hv, map_cons, Qsum_cons. ring.
Qed.

Lemma at_index_middle (pre : list Q) (y : number) (rest : list number) :
  at_index (map Num pre ++ y :: rest) (length pre) = y.
Proof.
  unfold at_index. rewrite app_nth2 by (rewrite length_map; lia).
  now rewrite length_map, Nat.sub_diag.
Qed.

Lemma sumXY_Num (pre : list Q) (pts : list (Q * Q)) (acc : Q) :
  exists q,
    reduce_from
      (fun total xi i => (total + xi * at_index (map Num pre ++ ys_of pts) i)%js)
      (xs_of pts) (length pre) (Num acc) = Num q /\
    q == acc + Sxy pts.
Proof.
  revert pre acc. induction pts as [|[x y] pts IH]; intros pre acc.
  - exists acc. split; [reflexivity | unfold Sxy; simpl; ring].
  - destruct (IH (pre ++ [y]) (acc + x * y)) as (q & Hq & Hv).
    exists q. split.
    + rewrite <- Hq, length_app, Nat.add_1_r, map_app, <- app_assoc.
      cbn [map app].
      change (xs_of ((x, y) :: pts)) with (Num x :: xs_of pts).
      change (ys_of ((x, y) :: pts)) with (Num y :: ys_of pts).
      cbn [reduce_from]. now rewrite at_index_middle.
    + rewrite Hv. unfold Sxy. rewrite map_cons, Qsum_cons. cbn [fst snd]. ring.
Qed.

Lemma sum_xs_of (pts : list (Q * Q)) :
  exists q, sum (xs_of pts) = Num q /\ q == Sx pts.
Proof.
  exists (fold_left Qplus (map fst pts) 0). split.
  - unfold xs_of. rewrite <- (map_map fst Num). apply sum_Num.
  - rewrite fold_left_Qplus. unfold Sx. ring.
Qed.

Lemma sum_ys_of (pts : list (Q * Q)) :
  exists q, sum (ys_of pts) = Num q /\ q == Sy pts.
Proof.
  exists (fold_left Qplus (map snd pts) 0). split.
  - unfold ys_of. rewrite <- (map_map snd Num). apply sum_Num.
  - rewrite fold_left_Qplus. unfold Sy. ring.
Qed.

Lemma linearRegression_empty (y : list number) (t : number) :
  linearRegression [] y t = Num 0.
Proof. reflexivity. Qed.

Lemma linearRegression_fit (pts : list (Q * Q)) (t : Q) :
  two_distinct_x pts ->
  linearRegression (xs_of pts) (ys_of pts) (Num t)
    ≈ Num (ols_slope pts * t + ols_intercept pts).
Proof.
  intros Hd. pose proof (denominator_pos pts Hd) as HD.
  pose proof (two_distinct_nonempty pts Hd) as Hne.
  pose proof (Qlen_pos pts Hne) as Hn.
  unfold linearRegression, reduce_i.
  assert (Hlen : length (xs_of pts) = length pts) by apply length_map.
  rewrite Hlen. destruct pts as [|p0 pts0] eqn:Hpts; [congruence|].
  change (length (p0 :: pts0) =? 0)%nat with false. cbv iota. rewrite <- Hpts in *.
  clear Hpts p0 pts0.
  destruct (sum_xs_of pts) as (sx & -> & Hsx).
  destruct (sum_ys_of pts) as (sy & -> & Hsy).
  destruct (sumXY_Num [] pts 0) as (sxy & Hxy & Hsxy). cbn [map app length] in Hxy.
  rewrite Hxy.
  assert (Hxs : xs_of pts = map Num (map fst pts)) by (unfold xs_of; now rewrite map_map).
  rewrite Hxs.
  destruct (sumX2_Num (map fst pts) 0 0) as (sxx & -> & Hsxx).
  assert (Hsxx' : sxx == Sxx pts).
  { rewrite Hsxx. unfold Sxx. rewrite map_map. ring. }
  rewrite Qplus_0_l in Hsxy.
  fold (@Qlen (Q * Q) pts). unfold of_nat. fold (@Qlen (Q * Q) pts).
  cbn [mul sub add neg].
  rewrite div_Num by (rewrite Hsx, Hsxx'; unfold Qminus in HD; lra).
  cbn [mul sub add neg].
  rewrite div_Num by lra.
  cbn [mul add]. apply same_Num.
  unfold ols_intercept, ols_slope. rewrite Hsx, Hsy, Hsxy, Hsxx'. reflexivity.
Qed.

(** The specification's scenario: the slope is 25000 per year, and the
    value projected at 2027 is 223000. *)
Lemma scenario_distinct : two_distinct_x scenario.
Proof.
  exists (2022, 100000), (2023, 120000). unfold scenario.
  repeat split; [now left | right; now left |]. discriminate.
Qed.

Lemma scenario_slope : ols_slope scenario == 25000.
Proof. vm_compute. reflexivity. Qed.

Lemma scenario_projection :
  linearRegression (xs_of scenario) (ys_of scenario) (Num 2027) ≈ Num 223000.
Proof. vm_compute. reflexivity. Qed.

(** C6 (as amended): the regression is the least-squares line evaluated at
    the target, [0] on the empty series; on the scenario series the slope is
    25000 and the projection at 2027 is 223000. *)
Theorem linearRegression_ols :
  (forall (y : list number) (t : number), linearRegression [] y t = Num 0) /\
  (forall (pts : list (Q * Q)) (t : Q),
      two_distinct_x pts ->
      linearRegression (xs_of pts) (ys_of pts) (Num t)
        ≈ Num (ols_slope pts * t + ols_intercept pts) /\
      forall a b : Q, sse pts (ols_slope pts) (ols_intercept pts) <= sse pts a b) /\
  (ols_slope scenario == 25000 /\
   linearRegression (xs_of scenario) (ys_of scenario) (Num 2027) ≈ Num 223000).
Proof.
  split; [exact linearRegression_empty|]. split.
  - intros pts t Hd. split.
    + now apply linearRegression_fit.
    + intros a b. now apply ols_least_squares.
  - split; [exact scenario_slope | exact scenario_projection].
Qed.

Lemma linearRegression_ols_witness :
  two_distinct_x scenario /\
  linearRegression (xs_of scenario) (ys_of scenario) (Num 2027)
    ≈ Num (ols_slope scenario * 2027 + ols_intercept scenario).
Proof.
  split; [exact scenario_distinct|].
  apply (proj1 (proj2 linearRegression_ols) scenario 2027 scenario_distinct).
Defined.

(** C6 (as stated) fails on the scenario: the value projected at 2027 is
    223000, which is 2000 away from 225000.  It also fails when all the years
    are the same, for instance for a single point: the slope is 0/0 and the
    result is [NaN], the value of no line. *)
Lemma scenario_not_225000 :
  (exists q : Q,
      linearRegression (xs_of scenario) (ys_of scenario) (Num 2027) = Num q /\
      q == 223000 /\ Qabs (q - 225000) == 2000) /\
  linearRegression [Num 2026] [Num 100] (Num 2027) = NaN.
Proof.
  split; [|reflexivity].
  eexists. split; [vm_compute; reflexivity|]. split; vm_compute; reflexivity.
Qed.

End RegressionFacts.

(** ** Standard deviation, z-score and the confidence band *)

Module BandFacts.
Import JS Stats Forecast ForecastSpec QFacts.

Lemma same_Num_inv (a : number) (y : Q) : a ≈ Num y -> exists x, a = Num x /\ x == y.
Proof.
  destruct a as [x| | |]; simpl; try contradiction. intros H. now exists x.
Qed.

Lemma Qle_bool_comp (a a' b b' : Q) :
  a == a' -> b == b' -> Qle_bool a b = Qle_bool a' b'.
Proof.
  intros Ha Hb. apply eq_true_iff_eq. rewrite !Qle_bool_iff, Ha, Hb. reflexivity.
Qed.

Lemma add_same (a a' b b' : number) : a ≈ a' -> b ≈ b' -> (a + b)%js ≈ (a' + b')%js.
Proof.
  destruct a, a', b, b'; simpl; try tauto. intros -> ->. reflexivity.
Qed.

Lemma neg_same (a a' : number) : a ≈ a' -> neg a ≈ neg a'.
Proof.
  destruct a, a'; simpl; try tauto. intros ->. reflexivity.
Qed.

Lemma sub_same (a a' b b' : number) : a ≈ a' -> b ≈ b' -> (a - b)%js ≈ (a' - b')%js.
Proof.
  intros Ha Hb. apply add_same; [assumption | now apply neg_same].
Qed.

Lemma le_same (a a' b b' : number) : a ≈ a' -> b ≈ b' -> le a b = le a' b'.
Proof.
  destruct a, a', b, b'; simpl; try tauto. apply Qle_bool_comp.
Qed.

Lemma Math_max_same (a a' b b' : number) :
  a ≈ a' -> b ≈ b' -> Math_max a b ≈ Math_max a' b'.
Proof.
  intros Ha Hb. pose proof (le_same _ _ _ _ Ha Hb) as Hle.
  destruct a, a', b, b'; simpl in Ha, Hb, Hle |- *; try contradiction;
    try exact I; try assumption.
  rewrite Hle. clear Hle. destruct (Qle_bool _ _); simpl; assumption.
Qed.

(** *** The z-score table *)

Lemma getZScore_Num (c : Q) :
  getZScore (Num c) =
  Num (if Qeq_bool 0.80 c then 1.28 else if Qeq_bool 0.90 c then 1.645
       else if Qeq_bool 0.95 c then 1.96 else 1.645).
Proof.
  unfold getZScore, zScores_get, zScores. cbn [List.find fst snd].
  destruct (Qeq_bool 0.80 c); [reflexivity|].
  destruct (Qeq_bool 0.90 c); [reflexivity|].
  destruct (Qeq_bool 0.95 c); reflexivity.
Qed.

Lemma getZScore_table (confidence : number) :
  (confidence ≈ Num 0.80 -> getZScore confidence = Num 1.28) /\
  (confidence ≈ Num 0.90 -> getZScore confidence = Num 1.645) /\
  (confidence ≈ Num 0.95 -> getZScore confidence = Num 1.96) /\
  (~ confidence ≈ Num 0.80 -> ~ confidence ≈ Num 0.90 -> ~ confidence ≈ Num 0.95 ->
   getZScore confidence = Num 1.645).
Proof.
  destruct confidence as [c| | |]; unfold same;
    try (repeat split; try contradiction; reflexivity).
  rewrite getZScore_Num.
  destruct (Qeq_bool 0.80 c) eqn:H80; [apply Qeq_bool_iff in H80 | apply Qeq_bool_false in H80];
    [|destruct (Qeq_bool 0.90 c) eqn:H90;
        [apply Qeq_bool_iff in H90 | apply Qeq_bool_false in H90];
      [|destruct (Qeq_bool 0.95 c) eqn:H95;
          [apply Qeq_bool_iff in H95 | apply Qeq_bool_false in H95]]];
    repeat split; intros; try reflexivity; exfalso;
    solve [lra | match goal with H : ~ _ |- _ => solve [apply H; lra] end].
Qed.

Lemma getZScore_pos (confidence : number) :
  exists z, getZScore confidence = Num z /\ 0 < z.
Proof.
  destruct confidence as [c| | |]; try (exists 1.645; split; reflexivity).
  rewrite getZScore_Num.
  destruct (Qeq_bool 0.80 c); [exists 1.28; split; reflexivity|].
  destruct (Qeq_bool 0.90 c); [exists 1.645; split; reflexivity|].
  destruct (Qeq_bool 0.95 c); [exists 1.96; split; reflexivity|].
  exists 1.645; split; reflexivity.
Qed.

(** *** The standard deviation *)

Lemma population_variance_nonneg (v : list Q) : 0 <= population_variance v.
Proof.
  unfold population_variance, mean.
  set (sq := map _ v).
  assert (Hs : 0 <= Qsum sq).
  { apply Qsum_nonneg, List.Forall_forall. intros q Hq.
    apply in_map_iff in Hq as (x & <- & _). apply Qsquare_nonneg. }
  pose proof (Qlen_nonneg sq) as Hn.
  destruct (Qeq_dec (Qlen sq) 0) as [Hz | Hz].
  - rewrite Hz. unfold Qdiv. rewrite Qmult_0_r. lra.
  - apply Qle_shift_div_l; lra.
Qed.

Section WithSqrt.

Context (sqrtQ : Q -> Q) `{!SqrtSpec sqrtQ}.

Lemma population_sd_nonneg (v : list Q) : 0 <= population_sd sqrtQ v.
Proof using All. unfold population_sd. apply sqrt_nonneg, population_variance_nonneg. Qed.

Lemma standardDeviation_Num (v : list Q) :
  standardDeviation sqrtQ (map Num v) ≈ Num (population_sd sqrtQ v).
Proof using All.
  unfold standardDeviation, population_sd.
  destruct v as [|x0 v0] eqn:Hv.
  - apply same_Num. symmetry. rewrite <- sqrt_zero. apply sqrt_proper. reflexivity.
  - rewrite <- Hv. assert (Hne : v <> []) by (rewrite Hv; discriminate).
    clear Hv x0 v0. rewrite length_map.
    destruct v as [|x0 v0] eqn:Hv; [congruence|].
    change (length (x0 :: v0) =? 0)%nat with false. cbv iota. rewrite <- Hv in *.
    clear Hv x0 v0.
    rewrite sum_Num, div_Num_len by assumption.
    set (m' := fold_left Qplus v 0 / Qlen v).
    assert (Hm : m' == mean v).
    { unfold m', mean. now rewrite fold_left_Qplus, Qplus_0_l. }
    rewrite map_map.
    rewrite (map_ext (fun x => Math_pow2 (Num x - Num m')%js)
                     (fun x => Num ((x - m') * (x - m')))) by reflexivity.
    rewrite <- (map_map (fun x => (x - m') * (x - m')) Num).
    rewrite sum_Num, div_Num_len by assumption.
    set (var' := fold_left Qplus _ 0 / Qlen v).
    assert (Hvar : var' == population_variance v).
    { unfold var', population_variance, mean. rewrite fold_left_Qplus, Qplus_0_l, Qlen_map.
      rewrite (Qsum_map_ext (fun x => (x - m') * (x - m'))
                            (fun x => (x - mean v) * (x - mean v))).
      - reflexivity.
      - intros a. unfold mean. fold m'. rewrite <- Hm. reflexivity. }
    unfold Math_sqrt.
    assert (Hge : Qltb var' 0 = false).
    { apply Qltb_ge. rewrite Hvar. apply population_variance_nonneg. }
    rewrite Hge. apply same_Num. now apply sqrt_proper.
Qed.

(** *** The fields of the forecast *)

Lemma calculateForecast_projection (data : list YearPoint) (method : string)
    (confidence : number) :
  let r := calculateForecast sqrtQ data method confidence in
  let p := projection method (map year data) (map revenue data) in
  let margin := (standardDeviation sqrtQ (map revenue data) * getZScore confidence)%js in
  fc_revenue r = Math_max (Num 0) p /\
  fc_revenueLow r = Math_max (Num 0) (p - margin)%js /\
  fc_revenueHigh r = (p + margin)%js.
Proof using Type.
  unfold calculateForecast, projection.
  destruct (String.eqb method "linear") eqn:Hl.
  - apply String.eqb_eq in Hl. subst method. repeat split.
  - destruct (String.eqb method "growth"); [repeat split|].
    destruct (String.eqb method "weighted"); repeat split.
Qed.

(** C9 (as amended): the margin of the band is the population standard
    deviation of the revenues times the z-score of the table (1.28, 1.645,
    1.96; 1.645 for any other level); the upper bound is the projection plus
    the margin, the lower bound is the projection minus the margin floored
    at zero. *)
Theorem confidence_band (data : list YearPoint) (method : string)
    (confidence : number) (v : list Q) :
  map revenue data = map Num v ->
  let r := calculateForecast sqrtQ data method confidence in
  let projected := projection method (map year data) (map revenue data) in
  exists z : Q,
    getZScore confidence = Num z /\
    (confidence ≈ Num 0.80 -> z = 1.28) /\
    (confidence ≈ Num 0.90 -> z = 1.645) /\
    (confidence ≈ Num 0.95 -> z = 1.96) /\
    (~ confidence ≈ Num 0.80 -> ~ confidence ≈ Num 0.90 -> ~ confidence ≈ Num 0.95 ->
     z = 1.645) /\
    fc_revenueHigh r ≈ (projected + Num (population_sd sqrtQ v * z))%js /\
    fc_revenueLow r
      ≈ Math_max (Num 0) (projected - Num (population_sd sqrtQ v * z))%js.
Proof using All.
  intros Hrev r projected.
  destruct (calculateForecast_projection data method confidence) as (_ & Hlow & Hhigh).
  fold r projected in Hlow, Hhigh.
  destruct (getZScore_pos confidence) as (z & Hz & _).
  destruct (getZScore_table confidence) as (T80 & T90 & T95 & Tother).
  exists z. split; [exact Hz|].
  assert (Hinj : forall a b, Num a = Num b -> a = b) by (intros a b [= ->]; reflexivity).
  repeat split.
  - intros H. apply Hinj. rewrite <- Hz. now apply T80.
  - intros H. apply Hinj. rewrite <- Hz. now apply T90.
  - intros H. apply Hinj. rewrite <- Hz. now apply T95.
  - intros H1 H2 H3. apply Hinj. rewrite <- Hz. now apply Tother.
  - rewrite Hhigh, Hz, Hrev. apply add_same; [apply same_refl|].
    destruct (same_Num_inv _ _ (standardDeviation_Num v)) as (sd & -> & Hsd).
    cbn [mul]. apply same_Num. now rewrite Hsd.
  - rewrite Hlow, Hz, Hrev. apply Math_max_same; [apply same_refl|].
    apply sub_same; [apply same_refl|].
    destruct (same_Num_inv _ _ (standardDeviation_Num v)) as (sd & -> & Hsd).
    cbn [mul]. apply same_Num. now rewrite Hsd.
Qed.

End WithSqrt.

Lemma sqrt_floor_spec : SqrtSpec sqrt_floor.
Proof.
  split.
  - intros x y Hxy. unfold sqrt_floor. now rewrite Hxy.
  - intros x _. unfold sqrt_floor. change 0 with (inject_Z 0).
    rewrite <- Zle_Qle. apply Z.sqrt_nonneg.
  - reflexivity.
Qed.

Lemma confidence_band_witness :
  SqrtSpec sqrt_floor /\
  map revenue (yearly falling) = map Num [100; 0] /\
  exists z : Q,
    getZScore (Num 0.95) = Num z /\
    (Num 0.95 ≈ Num 0.80 -> z = 1.28) /\
    (Num 0.95 ≈ Num 0.90 -> z = 1.645) /\
    (Num 0.95 ≈ Num 0.95 -> z = 1.96) /\
    (~ Num 0.95 ≈ Num 0.80 -> ~ Num 0.95 ≈ Num 0.90 -> ~ Num 0.95 ≈ Num 0.95 ->
     z = 1.645) /\
    fc_revenueHigh (calculateForecast sqrt_floor (yearly falling) "growth" (Num 0.95))
      ≈ (projection "growth" (map year (yearly falling)) (map revenue (yearly falling))
         + Num (population_sd sqrt_floor [100; 0] * z))%js /\
    fc_revenueLow (calculateForecast sqrt_floor (yearly falling) "growth" (Num 0.95))
      ≈ Math_max (Num 0)
          (projection "growth" (map year (yearly falling)) (map revenue (yearly falling))
           - Num (population_sd sqrt_floor [100; 0] * z))%js.
Proof.
  split; [exact sqrt_floor_spec|]. split; [reflexivity|].
  exact (confidence_band sqrt_floor (SqrtSpec0 := sqrt_floor_spec)
           (yearly falling) "growth" (Num 0.95) [100; 0] eq_refl).
Defined.

(** C9 (as stated) fails where the projection minus the margin is negative:
    for revenues 100 then 0, growth method, level 0.95, the projection is 0,
    the standard deviation is 50 (the exact root of 2500) and the margin 98;
    the lower bound is 0, not -98. *)
Lemma band_low_is_floored :
  let r := calculateForecast sqrt_floor (yearly falling) "growth" (Num 0.95) in
  let projected :=
    projection "growth" (map year (yearly falling)) (map revenue (yearly falling)) in
  let margin := Num (population_sd sqrt_floor [100; 0] * 1.96) in
  projected ≈ Num 0 /\ margin ≈ Num 98 /\
  fc_revenueLow r ≈ Num 0 /\ (projected - margin)%js ≈ Num (-98) /\
  ~ fc_revenueLow r ≈ (projected - margin)%js.
Proof.
  vm_compute. repeat split; try reflexivity. discriminate.
Qed.

End BandFacts.

(** ** Ordering of the confidence band *)

Module OrderingFacts.
Import JS Stats Forecast ForecastSpec QFacts BandFacts.

(** *** The growth-rate projection of non-negative values *)




(** *** The weighted-average projection of non-negative values *)

Lemma weights_at (data : list number) (i : nat) :
  (i < length data)%nat ->
  at_index (imap (fun i _ => of_nat (i + 1)) data) i = of_nat (i + 1).
Proof.
  intros Hi. unfold at_index. rewrite nth_lookup, list_lookup_imap.
  destruct (lookup_lt_is_Some_2 data i Hi) as [x ->]. reflexivity.
Qed.

Lemma totalWeight_Num (data : list number) (k : nat) (acc : Q) :
  exists q,
    fold_left add (imap (fun i _ => of_nat (i + k + 1)) data) (Num acc) = Num q /\
    acc + Qlen data <= q.
Proof.
  revert k acc. induction data as [|x data IH]; intros k acc.
  - exists acc. split; [reflexivity | rewrite Qlen_nil; lra].
  - rewrite imap_cons. cbn [fold_left add of_nat].
    rewrite (imap_ext _ (fun i _ => of_nat (i + S k + 1)))
      by (intros i y _; unfold compose; f_equal; lia).
    destruct (IH (S k) (acc + inject_Z (Z.of_nat (0 + k + 1)))) as (q & -> & Hq).
    exists q. split; [reflexivity|]. rewrite Qlen_cons.
    assert (1 <= inject_Z (Z.of_nat (0 + k + 1))).
    { change 1 with (inject_Z 1). rewrite <- Zle_Qle. lia. }
    lra.
Qed.

Lemma weighted_Num (weights : list number) (suf : list Q) (k : nat) (acc : Q) :
  (forall i, (k <= i < k + length suf)%nat -> at_index weights i = of_nat (i + 1)) ->
  Forall (fun x => 0 <= x) suf -> 0 <= acc ->
  exists q,
    reduce_from (fun a value i => (a + value * at_index weights i)%js)
      (map Num suf) k (Num acc) = Num q /\
    0 <= q.
Proof.
  revert k acc. induction suf as [|x suf IH]; intros k acc Hw Hsuf Hacc.
  - exists acc. split; [reflexivity | assumption].
  - cbn [map reduce_from]. rewrite Hw by (simpl; lia).
    inversion Hsuf as [|? ? Hx Hsuf']; subst.
    cbn [of_nat mul add].
    apply IH; [intros i Hi; apply Hw; simpl; lia | assumption |].
    assert (0 <= inject_Z (Z.of_nat (k + 1))).
    { change 0 with (inject_Z 0). rewrite <- Zle_Qle. lia. }
    assert (0 <= x * inject_Z (Z.of_nat (k + 1))) by (apply Qmult_le_0_compat; assumption).
    lra.
Qed.

Lemma weightedAverageForecast_nonneg (v : list Q) :
  Forall (fun x => 0 <= x) v ->
  exists w, weightedAverageForecast (map Num v) = Num w /\ 0 <= w.
Proof.
  intros Hv. unfold weightedAverageForecast. rewrite length_map.
  destruct v as [|x0 v0] eqn:Hv0; [exists 0; split; [reflexivity | lra]|].
  change (length (x0 :: v0) =? 0)%nat with false. cbv iota. rewrite <- Hv0 in *.
  assert (Hne : v <> []) by (rewrite Hv0; discriminate). clear Hv0 x0 v0.
  set (weights := imap (fun i _ => of_nat (i + 1)) (map Num v)).
  destruct (totalWeight_Num (map Num v) 0 0) as (tw & Htw & Htw_ge).
  rewrite (imap_ext _ (fun i _ => of_nat (i + 1))) in Htw
    by (intros i y _; f_equal; lia).
  fold weights in Htw. unfold sum at 1. rewrite Htw.
  rewrite Qlen_map in Htw_ge. pose proof (Qlen_pos v Hne) as Hn.
  destruct (weighted_Num weights v 0 0) as (q & Hq & Hq_ge);
    [intros i Hi; apply weights_at; rewrite length_map; lia | assumption | lra |].
  unfold reduce_i. rewrite Hq, div_Num by lra.
  assert (Hwa : 0 <= q / tw) by (apply Qle_shift_div_l; lra).
  destruct (gt _ _); cbn [mul]; eexists; (split; [reflexivity|]);
    apply Qmult_le_0_compat; lra.
Qed.

(** *** The floor at zero and the ordering *)

Lemma Math_max_Num (a b : Q) :
  Math_max (Num a) (Num b) = Num (if Qle_bool a b then b else a).
Proof. unfold Math_max, le. now destruct (Qle_bool a b). Qed.


Section WithSqrt.

Context (sqrtQ : Q -> Q) `{!SqrtSpec sqrtQ}.



End WithSqrt.



End OrderingFacts.

(** ** Doubles *)

Module DoubleFacts.
Import JS Double QFacts.











End DoubleFacts.

(** ** Retention *)

Module RetentionFacts.
Import JS Stats Data Retention QFacts.

(** *** Sets of names *)

Lemma has_true (s : JSSet.t) (x : string) : JSSet.has s x = true <-> x ∈ s.
Proof. unfold JSSet.has. apply bool_decide_eq_true. Qed.

Lemma has_false (s : JSSet.t) (x : string) : JSSet.has s x = false <-> x ∉ s.
Proof. unfold JSSet.has. apply bool_decide_eq_false. Qed.

Lemma fold_add_spec (arr : list string) (acc : JSSet.t) :
  NoDup acc ->
  NoDup (fold_left JSSet.add arr acc) /\
  forall x, x ∈ fold_left JSSet.add arr acc <-> x ∈ acc \/ x ∈ arr.
Proof.
  revert acc. induction arr as [|a arr IH]; intros acc Hnd; simpl.
  - split; [assumption|]. intros x. rewrite elem_of_nil. tauto.
  - assert (Hadd : NoDup (JSSet.add acc a) /\ forall x, x ∈ JSSet.add acc a <-> x ∈ acc \/ x = a).
    { unfold JSSet.add. destruct (JSSet.has acc a) eqn:Ha.
      - apply has_true in Ha. split; [assumption|]. intros x. split; [tauto|].
        intros [H | ->]; assumption.
      - apply has_false in Ha. split.
        + apply NoDup_app. split; [assumption|]. split; [|apply NoDup_singleton].
          intros x Hx Hx'. apply list_elem_of_singleton in Hx'. now subst.
        + intros x. rewrite elem_of_app, list_elem_of_singleton. tauto. }
    destruct Hadd as [Hnd' Hel]. destruct (IH _ Hnd') as [Hnd'' Hel'].
    split; [assumption|]. intros x. rewrite Hel', Hel, elem_of_cons. tauto.
Qed.

Lemma NoDup_of_list (arr : list string) : NoDup (JSSet.of_list arr).
Proof. apply fold_add_spec, NoDup_nil_2. Qed.

Lemma elem_of_of_list (arr : list string) (x : string) :
  x ∈ JSSet.of_list arr <-> x ∈ arr.
Proof.
  unfold JSSet.of_list. destruct (fold_add_spec arr [] (NoDup_nil_2)) as [_ H].
  rewrite H, elem_of_nil. tauto.
Qed.

Lemma length_as_size (l : list string) (X : gset string) :
  NoDup l -> (forall x, x ∈ l <-> x ∈ X) -> length l = size X.
Proof.
  intros Hnd Hel. rewrite <- (size_list_to_set (C := gset string) l Hnd).
  f_equal. apply set_eq. intros x. rewrite elem_of_list_to_set. apply Hel.
Qed.

Lemma size_of_list (arr : list string) :
  JSSet.size (JSSet.of_list arr) = size (list_to_set arr : gset string).
Proof.
  apply length_as_size; [apply NoDup_of_list|].
  intros x. rewrite elem_of_of_list, elem_of_list_to_set. reflexivity.
Qed.

(** Counting the members of a duplicate-free array that are, or are not, in
    another array. *)
Lemma count_inter (l other : list string) :
  NoDup l ->
  length (filter (fun g => JSSet.has (JSSet.of_list other) g = true) l)
  = size ((list_to_set l : gset string) ∩ list_to_set other).
Proof.
  intros Hnd. apply length_as_size; [now apply NoDup_filter|].
  intros x. rewrite list_elem_of_filter, has_true, elem_of_of_list,
    elem_of_intersection, !elem_of_list_to_set. tauto.
Qed.

Lemma count_diff (l other : list string) :
  NoDup l ->
  length (filter (fun g => JSSet.has (JSSet.of_list other) g = false) l)
  = size ((list_to_set l : gset string) ∖ list_to_set other).
Proof.
  intros Hnd. apply length_as_size; [now apply NoDup_filter|].
  intros x. rewrite list_elem_of_filter, has_false, elem_of_of_list,
    elem_of_difference, !elem_of_list_to_set. tauto.
Qed.

Lemma size_split (X Y : gset string) : (size (X ∖ Y) + size (X ∩ Y) = size X)%nat.
Proof.
  rewrite size_difference_alt.
  pose proof (subseteq_size (X ∩ Y) X (intersection_subseteq_l X Y)).
  lia.
Qed.

Lemma list_to_set_of_list (arr : list string) :
  (list_to_set (JSSet.of_list arr) : gset string) = list_to_set arr.
Proof.
  apply set_eq. intros x. rewrite !elem_of_list_to_set. apply elem_of_of_list.
Qed.

(** *** The counts of the dashboard *)

Lemma growerStats_counts (cur prev : list Transaction) :
  let st := growerStats cur prev in
  newGrowers st = size (growers_of cur ∖ growers_of prev) /\
  returningGrowers st = size (growers_of cur ∩ growers_of prev) /\
  lostGrowers st = size (growers_of prev ∖ growers_of cur).
Proof.
  unfold growerStats, growers_of. cbn [newGrowers returningGrowers lostGrowers].
  rewrite count_diff, count_inter, count_diff by apply NoDup_of_list.
  now rewrite !list_to_set_of_list.
Qed.

(** *** The counts of the server *)

Lemma retentionEntry_counts (toString : number -> string) (distinct : Z -> list string)
    (cy py : Z) :
  NoDup (distinct cy) -> NoDup (distinct py) ->
  let e := retentionEntry toString distinct cy py in
  let C : gset string := list_to_set (distinct cy) in
  let P : gset string := list_to_set (distinct py) in
  totalGrowers e = size C /\ length (distinct py) = size P /\
  entry_newGrowers e = size (C ∖ P) /\
  entry_returningGrowers e = size (C ∩ P) /\
  entry_lostGrowers e = size (P ∖ C).
Proof.
  intros Hc Hp. unfold retentionEntry.
  cbn [totalGrowers entry_newGrowers entry_returningGrowers entry_lostGrowers].
  rewrite count_diff, count_inter, count_diff by assumption.
  rewrite !(size_list_to_set (C := gset string)) by assumption. auto.
Qed.

(** C2: the three counts are the sizes of [current ∖ previous],
    [current ∩ previous] and [previous ∖ current]; new and returning growers
    add up to the growers of the current year, lost and returning growers to
    those of the previous year.  This holds for the dashboard on every pair of
    transaction sets, for [updateGrowerStats] on every stored data and year,
    and for an entry of the server whenever the two [distinct] queries return
    each name once. *)
Theorem retention_partition :
  (forall cur prev : list Transaction,
      let st := growerStats cur prev in
      let C := growers_of cur in
      let P := growers_of prev in
      newGrowers st = size (C ∖ P) /\
      returningGrowers st = size (C ∩ P) /\
      lostGrowers st = size (P ∖ C) /\
      (newGrowers st + returningGrowers st = size C)%nat /\
      (lostGrowers st + returningGrowers st = size P)%nat) /\
  (forall (getFullYear : string -> option Z) (data : list Transaction) (year : Z),
      let st := updateGrowerStats getFullYear data year in
      let C := growers_of (filterDataByYear getFullYear data year) in
      let P := growers_of (filterDataByYear getFullYear data (year - 1)) in
      newGrowers st = size (C ∖ P) /\
      returningGrowers st = size (C ∩ P) /\
      lostGrowers st = size (P ∖ C) /\
      (newGrowers st + returningGrowers st = size C)%nat /\
      (lostGrowers st + returningGrowers st = size P)%nat) /\
  (forall (toString : number -> string) (distinct : Z -> list string) (cy py : Z),
      NoDup (distinct cy) -> NoDup (distinct py) ->
      let e := retentionEntry toString distinct cy py in
      let C : gset string := list_to_set (distinct cy) in
      let P : gset string := list_to_set (distinct py) in
      totalGrowers e = size C /\
      length (distinct py) = size P /\
      entry_newGrowers e = size (C ∖ P) /\
      entry_returningGrowers e = size (C ∩ P) /\
      entry_lostGrowers e = size (P ∖ C) /\
      (entry_newGrowers e + entry_returningGrowers e = totalGrowers e)%nat /\
      (entry_lostGrowers e + entry_returningGrowers e = length (distinct py))%nat).
Proof.
  assert (Hclient : forall cur prev : list Transaction,
      let st := growerStats cur prev in
      let C := growers_of cur in
      let P := growers_of prev in
      newGrowers st = size (C ∖ P) /\
      returningGrowers st = size (C ∩ P) /\
      lostGrowers st = size (P ∖ C) /\
      (newGrowers st + returningGrowers st = size C)%nat /\
      (lostGrowers st + returningGrowers st = size P)%nat).
  { intros cur prev st C P.
    destruct (growerStats_counts cur prev) as (Hn & Hr & Hl). fold st C P in Hn, Hr, Hl.
    repeat split; try assumption.
    - rewrite Hn, Hr. apply size_split.
    - rewrite Hl, Hr, (comm_L (∩) C P). apply size_split. }
  split; [exact Hclient|]. split.
  - intros getFullYear data year. unfold updateGrowerStats.
    exact (Hclient (filterDataByYear getFullYear data year)
                   (filterDataByYear getFullYear data (year - 1))).
  - intros toString distinct cy py Hc Hp e C P.
    destruct (retentionEntry_counts toString distinct cy py Hc Hp)
      as (Ht & Hpl & Hn & Hr & Hl).
    fold e C P in Ht, Hpl, Hn, Hr, Hl.
    repeat split; try assumption.
    + rewrite Ht, Hn, Hr. apply size_split.
    + rewrite Hpl, Hl, Hr, (comm_L (∩) C P). apply size_split.
Qed.

Lemma retention_partition_witness :
  NoDup (distinct_ABC_ABD 2024) /\ NoDup (distinct_ABC_ABD 2023) /\
  let e := retentionEntry NumText.Number_toString distinct_ABC_ABD 2024 2023 in
  let C : gset string := list_to_set (distinct_ABC_ABD 2024) in
  let P : gset string := list_to_set (distinct_ABC_ABD 2023) in
  totalGrowers e = size C /\
  length (distinct_ABC_ABD 2023) = size P /\
  entry_newGrowers e = size (C ∖ P) /\
  entry_returningGrowers e = size (C ∩ P) /\
  entry_lostGrowers e = size (P ∖ C) /\
  (entry_newGrowers e + entry_returningGrowers e = totalGrowers e)%nat /\
  (entry_lostGrowers e + entry_returningGrowers e = length (distinct_ABC_ABD 2023))%nat.
Proof.
  assert (H24 : NoDup (distinct_ABC_ABD 2024)) by compute_done.
  assert (H23 : NoDup (distinct_ABC_ABD 2023)) by compute_done.
  split; [exact H24|]. split; [exact H23|].
  exact (proj2 (proj2 retention_partition) NumText.Number_toString distinct_ABC_ABD
           2024%Z 2023%Z H24 H23).
Defined.

(** *** The retention rate *)

Lemma Qnat_nonneg (n : nat) : 0 <= Qnat n.
Proof. unfold Qnat. change 0 with (inject_Z 0). rewrite <- Zle_Qle. lia. Qed.

Lemma Qnat_le (a b : nat) : (a <= b)%nat -> Qnat a <= Qnat b.
Proof. intros H. unfold Qnat. rewrite <- Zle_Qle. lia. Qed.

Lemma Qnat_pos (n : nat) : n <> 0%nat -> 0 < Qnat n.
Proof. intros H. unfold Qnat. change 0 with (inject_Z 0). rewrite <- Zlt_Qlt. lia. Qed.

Lemma ratio_bounds (r n : nat) :
  (r <= n)%nat -> n <> 0%nat -> 0 <= Qnat r / Qnat n * 100 /\ Qnat r / Qnat n * 100 <= 100.
Proof.
  intros Hrn Hn. pose proof (Qnat_nonneg r). pose proof (Qnat_le r n Hrn).
  pose proof (Qnat_pos n Hn).
  assert (0 <= Qnat r / Qnat n) by (apply Qle_shift_div_l; lra).
  assert (Qnat r / Qnat n <= 1) by (apply Qle_shift_div_r; lra).
  lra.
Qed.

Lemma rate_Num (r n : nat) :
  n <> 0%nat -> (of_nat r / of_nat n * Num 100)%js = Num (Qnat r / Qnat n * 100).
Proof.
  intros Hn. unfold of_nat. rewrite div_Num; [reflexivity|].
  pose proof (Qnat_pos n Hn). unfold Qnat in *. lra.
Qed.







(** The specification's scenario: one new grower, two returning, one lost,
    and a rate of 200/3, which the server answers as 66.7. *)
Lemma scenario_ABC_ABD :
  let st := growerStats current_ABC previous_ABD in
  newGrowers st = 1%nat /\ returningGrowers st = 2%nat /\ lostGrowers st = 1%nat /\
  retentionRate st ≈ Num (200 # 3) /\
  entry_retentionRate (retentionEntry NumText.Number_toString distinct_ABC_ABD 2024 2023)
  = RateText "66.7".
Proof.
  vm_compute. repeat split; reflexivity.
Qed.

(** Twenty-three growers of eighty come back: the exact rate is 28.75, the
    product of the doubles lies just below it, and the server answers 28.7. *)
Lemma scenario_23_of_80 :
  let e := retentionEntry NumText.Number_toString distinct_23_of_80 2024 2023 in
  entry_returningGrowers e = 23%nat /\ length (distinct_23_of_80 2023) = 80%nat /\
  (of_nat 23 / of_nat 80 * Num 100)%js ≈ Num 28.75 /\
  entry_retentionRate e = RateText "28.7".
Proof.
  vm_compute. repeat split; reflexivity.
Qed.

End RetentionFacts.

(** ** Aggregation by grower *)

Module AggregationFacts.
Import JS Stats Data Aggregation QFacts.

Lemma Qsum_perm (l l' : list Q) : l ≡ₚ l' -> Qsum l == Qsum l'.
Proof.
  induction 1 as [|x l l' _ IH|x y l|l l' l'' _ IH1 _ IH2]; simpl.
  - reflexivity.
  - now rewrite IH.
  - ring.
  - now rewrite IH1.
Qed.

Lemma total_insert_fresh (m : gmap string GrowerEntry) (k : string) (g : GrowerEntry) :
  m !! k = None -> total_value (<[k := g]> m) == revenue_value g + total_value m.
Proof.
  intros Hk. unfold total_value.
  rewrite (Qsum_perm _ (map (fun kv => revenue_value (snd kv)) ((k, g) :: map_to_list m))).
  - reflexivity.
  - apply Permutation_map, map_to_list_insert, Hk.
Qed.

Lemma total_insert (m : gmap string GrowerEntry) (k : string) (old g : GrowerEntry) :
  m !! k = Some old ->
  total_value (<[k := g]> m) == total_value m - revenue_value old + revenue_value g.
Proof.
  intros Hk. rewrite <- insert_delete_eq.
  rewrite total_insert_fresh by apply lookup_delete_eq.
  unfold total_value.
  rewrite (Qsum_perm (map _ (map_to_list m))
                     (map (fun kv => revenue_value (snd kv))
                          ((k, old) :: map_to_list (delete k m)))).
  - rewrite map_cons, Qsum_cons. cbn [snd]. ring.
  - apply Permutation_map. symmetry. now apply map_to_list_delete.
Qed.

Section WithDate.

Variable Date_valueOf : string -> number.

Lemma by_grower_step_total (m : gmap string GrowerEntry) (d : Transaction) (a : Q) :
  plain_name d -> amount d = Num a -> finite_entries m ->
  exists m', by_grower_step Date_valueOf m d = Some m' /\
             finite_entries m' /\ total_value m' == total_value m + a.
Proof using Type.
  intros Hname Ha Hfin. unfold by_grower_step.
  rewrite bool_decide_eq_false_2 by exact Hname.
  eexists. split; [reflexivity|]. rewrite Ha.
  destruct (m !! grower_name d) as [g|] eqn:Hg.
  - destruct (Hfin _ _ Hg) as (q & Hq). split.
    + apply map_Forall_insert_2; [|assumption]. cbn [revenue]. rewrite Hq. now eexists.
    + rewrite (total_insert _ _ g) by assumption.
      unfold revenue_value. cbn [revenue]. rewrite Hq. cbn [add]. ring.
  - split.
    + apply map_Forall_insert_2; [|assumption]. cbn [revenue]. now eexists.
    + rewrite total_insert_fresh by assumption.
      unfold revenue_value. cbn [revenue add]. ring.
Qed.

Lemma by_grower_total (data : list Transaction) (m : gmap string GrowerEntry) :
  Forall plain_name data -> Forall nonneg_amount data -> finite_entries m ->
  exists m', foldl (fun acc d => acc ≫= fun byGrower => by_grower_step Date_valueOf byGrower d)
               (Some m) data = Some m' /\
             finite_entries m' /\
             total_value m' == total_value m + Qsum (map amount_value data).
Proof using Type.
  revert m. induction data as [|d data IH]; intros m Hn Ha Hfin.
  - exists m. split; [reflexivity|]. split; [assumption|]. simpl. ring.
  - inversion Hn as [|? ? Hn1 Hn2]; inversion Ha as [|? ? Ha1 Ha2]; subst.
    destruct Ha1 as (a & Hamt & _).
    destruct (by_grower_step_total m d a Hn1 Hamt Hfin) as (m1 & Hstep & Hfin1 & Htot1).
    destruct (IH m1 Hn2 Ha2 Hfin1) as (m' & Hfold & Hfin' & Htot').
    exists m'. split; [|split; [assumption|]].
    + cbn [foldl mbind option_bind]. rewrite Hstep. exact Hfold.
    + rewrite Htot', Htot1, map_cons, Qsum_cons.
      unfold amount_value at 2. rewrite Hamt. ring.
Qed.

End WithDate.

Lemma sum_revenue_total (m : gmap string GrowerEntry) :
  finite_entries m -> sum_revenue m ≈ Num (total_value m).
Proof.
  intros Hfin. unfold sum_revenue, total_value.
  apply map_Forall_to_list in Hfin.
  assert (Hmap : map (fun kv => revenue (snd kv)) (map_to_list m)
                 = map Num (map (fun kv => revenue_value (snd kv)) (map_to_list m))).
  { induction Hfin as [|[k g] l (q & Hq) _ IH]; [reflexivity|].
    cbn [map snd]. rewrite IH. f_equal. unfold revenue_value. cbn in Hq. now rewrite Hq. }
  rewrite Hmap, sum_Num. apply same_Num. rewrite fold_left_Qplus. ring.
Qed.

Lemma totalRevenue_Num (data : list Transaction) (acc : Q) :
  Forall nonneg_amount data ->
  exists q, fold_left (fun sum d => (sum + (amount d || Num 0))%js) data (Num acc) = Num q /\
            q == acc + Qsum (map amount_value data).
Proof.
  intros Ha. revert acc. induction Ha as [|d data (a & Hamt & _) _ IH]; intros acc.
  - exists acc. split; [reflexivity | simpl; ring].
  - cbn [fold_left]. rewrite Hamt.
    assert (Hor : exists a', (Num a || Num 0)%js = Num a' /\ a' == a).
    { unfold or, truthy. destruct (Qeq_bool a 0) eqn:Hz; cbn [negb].
      - exists 0. split; [reflexivity|]. apply Qeq_bool_iff in Hz. now symmetry.
      - exists a. split; reflexivity. }
    destruct Hor as (a' & -> & Ha'). cbn [add].
    destruct (IH (acc + a')) as (q & -> & Hq). exists q. split; [reflexivity|].
    rewrite Hq, map_cons, Qsum_cons. unfold amount_value at 2.
    rewrite Hamt, Ha'. ring.
Qed.

(** Away from the inherited names the per-grower revenues add up to the
    total revenue. *)
Lemma by_grower_partition (Date_valueOf : string -> number) (data : list Transaction) :
  Forall plain_name data -> Forall nonneg_amount data ->
  exists byGrower,
    by_grower Date_valueOf data = Some byGrower /\
    sum_revenue byGrower ≈ totalRevenue (calculateSummary data).
Proof.
  intros Hn Ha.
  destruct (by_grower_total Date_valueOf data ∅ Hn Ha) as (m & Hm & Hfin & Htot);
    [apply map_Forall_empty|].
  exists m. split; [exact Hm|].
  eapply same_trans; [now apply sum_revenue_total|].
  unfold calculateSummary. cbn [totalRevenue].
  destruct (totalRevenue_Num data 0 Ha) as (q & -> & Hq).
  apply same_Num. rewrite Htot, Hq. unfold total_value. rewrite map_to_list_empty.
  simpl. ring.
Qed.

(** C3 fails for a grower whose name is a property every object inherits:
    [byGrower["constructor"]] is then a function, no entry is made,
    [grower.products] is [undefined] and the handler raises instead of
    answering, while the summary reports the revenue. *)
Theorem by_grower_inherited_name (Date_valueOf : string -> number) :
  nonneg_amount (sale_to "constructor") /\
  by_grower Date_valueOf [sale_to "constructor"] = None /\
  totalRevenue (calculateSummary [sale_to "constructor"]) ≈ Num 100.
Proof.
  split; [exists 100; split; [reflexivity | discriminate]|].
  split; [reflexivity|]. vm_compute. reflexivity.
Qed.

End AggregationFacts.

(** ** Strings: trimming, splitting and joining *)

Module StrFacts.
Import Str Csv.

Lemma trimStart_first_ok (s : list ascii) : first_ok s = true -> trimStart s = s.
Proof.
  destruct s as [|c s]; [reflexivity|]. simpl. intros H.
  apply negb_true_iff in H. now rewrite H.
Qed.

Lemma trim_tight (s : list ascii) : tight s = true -> trim s = s.
Proof.
  unfold tight, trim, trimEnd. intros H. apply andb_true_iff in H as [H1 H2].
  rewrite (trimStart_first_ok s H1), (trimStart_first_ok (rev s) H2).
  apply rev_involutive.
Qed.

Lemma trim_trimmed (s : list ascii) : trimmed s = true -> trim s = s.
Proof.
  destruct s as [|c s]; [reflexivity|]. apply trim_tight.
Qed.

Lemma first_ok_app (a b : list ascii) : first_ok a = true -> first_ok (a ++ b) = true.
Proof. destruct a; [discriminate | trivial]. Qed.

Lemma tight_first (s : list ascii) : tight s = true -> first_ok s = true.
Proof. unfold tight. intros H. now apply andb_true_iff in H as [H _]. Qed.

Lemma tight_last (s : list ascii) : tight s = true -> first_ok (rev s) = true.
Proof. unfold tight. intros H. now apply andb_true_iff in H as [_ H]. Qed.

Lemma tight_nonempty (s : list ascii) : tight s = true -> s <> [].
Proof. intros H ->. discriminate H. Qed.

(** *** Splitting a joined text *)

Lemma split_on_nonempty (sep : ascii) (s : list ascii) : split_on sep s <> [].
Proof.
  induction s as [|c s IH]; [discriminate|]. simpl.
  destruct (Ascii.eqb c sep); [discriminate|].
  destruct (split_on sep s); [congruence | discriminate].
Qed.

Lemma split_on_absent (sep : ascii) (s : list ascii) :
  includes_char sep s = false -> split_on sep s = [s].
Proof.
  unfold includes_char. induction s as [|c s IH]; [reflexivity|].
  cbn [existsb split_on]. intros H. apply orb_false_iff in H as [Hc Hs].
  rewrite Ascii.eqb_sym, Hc, (IH Hs). reflexivity.
Qed.

Lemma split_on_app (sep : ascii) (a b : list ascii) :
  includes_char sep a = false -> split_on sep (a ++ sep :: b) = a :: split_on sep b.
Proof.
  unfold includes_char. induction a as [|c a IH]; intros H.
  - cbn [app split_on]. now rewrite Ascii.eqb_refl.
  - cbn [existsb] in H. apply orb_false_iff in H as [Hc Ha].
    cbn [app split_on]. rewrite Ascii.eqb_sym, Hc, (IH Ha). reflexivity.
Qed.

Lemma split_on_join (sep : ascii) (parts : list (list ascii)) :
  parts <> [] -> Forall (fun p => includes_char sep p = false) parts ->
  split_on sep (join [sep] parts) = parts.
Proof.
  intros Hne Hparts. induction Hparts as [|p parts Hp Hrest IH]; [congruence|].
  destruct parts as [|q parts].
  - cbn [join]. now apply split_on_absent.
  - change (join [sep] (p :: q :: parts)) with (p ++ sep :: join [sep] (q :: parts)).
    rewrite split_on_app by assumption. now rewrite IH by discriminate.
Qed.

Lemma includes_char_app (c : ascii) (a b : list ascii) :
  includes_char c (a ++ b) = includes_char c a || includes_char c b.
Proof. apply existsb_app. Qed.

Lemma includes_char_join (c sep : ascii) (parts : list (list ascii)) :
  Ascii.eqb c sep = false ->
  Forall (fun p => includes_char c p = false) parts ->
  includes_char c (join [sep] parts) = false.
Proof.
  intros Hsep Hparts. induction Hparts as [|p parts Hp Hrest IH]; [reflexivity|].
  destruct parts as [|q parts]; [exact Hp|].
  change (join [sep] (p :: q :: parts)) with (p ++ [sep] ++ join [sep] (q :: parts)).
  rewrite !includes_char_app, Hp, IH. cbn. now rewrite Hsep.
Qed.

(** *** What a plain text does not hold *)

Lemma plain_spec (s : list ascii) :
  plain s = true ->
  includes_char comma s = false /\ includes_char quote s = false /\
  includes_char tab s = false /\ includes_char newline s = false.
Proof.
  unfold plain, includes_char. induction s as [|c s IH]; [repeat split|].
  cbn [forallb existsb]. intros H. apply andb_true_iff in H as [Hc Hs].
  destruct (IH Hs) as (H1 & H2 & H3 & H4). rewrite H1, H2, H3, H4.
  apply negb_true_iff in Hc. rewrite !orb_false_iff in Hc.
  destruct Hc as [[[Hc1 Hc2] Hc3] Hc4].
  rewrite (Ascii.eqb_sym comma), (Ascii.eqb_sym quote), (Ascii.eqb_sym tab),
    (Ascii.eqb_sym newline), Hc1, Hc2, Hc3, Hc4. repeat split.
Qed.

(** *** Reading a joined line *)

Lemma parseCSVLine_from_cell (cell rest : list ascii) (result : list (list ascii))
    (current : list ascii) :
  includes_char comma cell = false -> includes_char quote cell = false ->
  parseCSVLine_from (cell ++ rest) result current false
  = parseCSVLine_from rest result (current ++ cell) false.
Proof.
  unfold includes_char. revert current.
  induction cell as [|c cell IH]; intros current Hcomma Hquote.
  - cbn [app]. now rewrite app_nil_r.
  - cbn [existsb] in Hcomma, Hquote.
    apply orb_false_iff in Hcomma as [Hc1 Hcomma].
    apply orb_false_iff in Hquote as [Hc2 Hquote].
    cbn [app parseCSVLine_from].
    rewrite (Ascii.eqb_sym c quote), Hc2, (Ascii.eqb_sym c comma), Hc1. cbn [andb].
    rewrite IH by assumption. now rewrite <- app_assoc.
Qed.

Lemma parseCSVLine_from_join (cells result : list (list ascii)) :
  cells <> [] ->
  Forall (fun cell => includes_char comma cell = false /\ includes_char quote cell = false)
         cells ->
  parseCSVLine_from (join [comma] cells) result [] false = result ++ cells.
Proof.
  intros Hne Hcells. revert result.
  induction Hcells as [|cell cells [Hc Hq] Hrest IH]; intros result; [congruence|].
  destruct cells as [|next cells].
  - cbn [join]. rewrite <- (app_nil_r cell) at 1.
    rewrite parseCSVLine_from_cell by assumption. reflexivity.
  - change (join [comma] (cell :: next :: cells))
      with (cell ++ comma :: join [comma] (next :: cells)).
    rewrite parseCSVLine_from_cell by assumption.
    cbn [parseCSVLine_from app]. change (Ascii.eqb comma quote) with false.
    rewrite Ascii.eqb_refl. cbn [andb negb]. rewrite IH by discriminate.
    now rewrite <- app_assoc.
Qed.

Lemma parseCSVLine_join (cells : list (list ascii)) :
  cells <> [] -> Forall (fun cell => plain cell = true) cells ->
  parseCSVLine (join [comma] cells) = cells.
Proof.
  intros Hne Hplain. unfold parseCSVLine. rewrite parseCSVLine_from_join; [reflexivity | assumption |].
  eapply Forall_impl; [exact Hplain|]. intros cell H.
  destruct (plain_spec cell H) as (H1 & H2 & _). now split.
Qed.

End StrFacts.

(** ** CSV import and export *)

Module CsvFacts.
Import JS Data Str NumText Csv StrFacts QFacts.

(** *** The parser of the dashboard *)

Lemma parseCSV_returns (text : string) : exists data, parseCSV text = Some data.
Proof.
  unfold parseCSV. destruct (split_on newline (trim (la text))) as [|first rest] eqn:H.
  - now apply split_on_nonempty in H.
  - now eexists.
Qed.

Lemma server_parseCSV_returns (text : string) : exists data, server_parseCSV text = Some data.
Proof.
  unfold server_parseCSV. destruct (split_on newline (trim (la text))) as [|first rest] eqn:H.
  - now apply split_on_nonempty in H.
  - now eexists.
Qed.

Lemma nonempty_spec (s : string) : nonempty s = true <-> s <> ""%string.
Proof. destruct s; simpl; split; congruence. Qed.

Lemma parse_line_spec (raw : list ascii) (e : Transaction) :
  parse_line raw = Some e ->
  let values := fields (trim raw) in
  (6 <= length values)%nat /\ e = entry_of values /\
  date e <> ""%string /\ grower_name e <> ""%string /\ product e <> ""%string.
Proof.
  unfold parse_line. destruct (trim raw) as [|c line] eqn:Hline; [discriminate|].
  destruct (6 <=? length (fields (c :: line)))%nat eqn:Hlen; [|discriminate].
  destruct (nonempty (date _) && nonempty (grower_name _) && nonempty (product _)) eqn:Hne;
    [|discriminate].
  intros [= <-]. apply Nat.leb_le in Hlen.
  apply andb_true_iff in Hne as [Hne Hp]. apply andb_true_iff in Hne as [Hd Hg].
  rewrite nonempty_spec in Hd, Hg, Hp. auto.
Qed.

Lemma or_zero_not_NaN (x : number) : (x || Num 0)%js <> NaN.
Proof. unfold or. destruct x; simpl; try discriminate. now destruct (negb _). Qed.

Lemma or_zero_of_NaN (x : number) : x = NaN -> (x || Num 0)%js = Num 0.
Proof. now intros ->. Qed.

(** The import of the dashboard returns, and returns only rows of six or
    more fields with a date, a grower and a product; a quantity or an amount
    that does not parse is 0. *)
Lemma parseCSV_rows_valid (text : string) :
  exists data,
    parseCSV text = Some data /\
    forall e, e ∈ data ->
      exists raw values,
        raw ∈ split_on newline (trim (la text)) /\
        values = fields (trim raw) /\ (6 <= length values)%nat /\
        e = entry_of values /\
        date e <> ""%string /\ grower_name e <> ""%string /\ product e <> ""%string /\
        quantity e <> NaN /\ amount e <> NaN /\
        (parseFloat (value values 4) = NaN -> quantity e = Num 0) /\
        (parseFloat (remove_dollar_comma (value values 5)) = NaN -> amount e = Num 0).
Proof.
  unfold parseCSV. destruct (split_on newline (trim (la text))) as [|first rest] eqn:H.
  { now apply split_on_nonempty in H. }
  eexists. split; [reflexivity|]. intros e He.
  apply list_elem_of_omap in He as (raw & Hraw & Hparse).
  assert (Hin : raw ∈ first :: rest).
  { unfold data_lines in Hraw. destruct (_ || _) in Hraw; [|exact Hraw].
    cbn [drop] in Hraw. now right. }
  destruct (parse_line_spec raw e Hparse) as (Hlen & He & Hd & Hg & Hp).
  exists raw, (fields (trim raw)). repeat split; try assumption.
  - rewrite He. cbn [quantity entry_of]. apply or_zero_not_NaN.
  - rewrite He. cbn [amount entry_of]. apply or_zero_not_NaN.
  - intros Hq. rewrite He. cbn [quantity entry_of]. now apply or_zero_of_NaN.
  - intros Ha. rewrite He. cbn [amount entry_of]. now apply or_zero_of_NaN.
Qed.

(** C8 fails for the parser of the server, which does not test the three
    required fields: a line of five commas has six empty fields and is
    returned as a record without date, grower or product, where the parser of
    the dashboard skips it. *)
Theorem server_parseCSV_keeps_blank_fields :
  server_parseCSV ",,,,," =
    Some [{| date := ""; invoice_number := ""; grower_name := ""; product := "";
             quantity := Num 0; amount := Num 0 |}] /\
  parseCSV ",,,,," = Some [].
Proof. split; reflexivity. Qed.

(** *** Export, then import *)

Lemma sameb_same (a b : number) : sameb a b = true -> a ≈ b.
Proof.
  destruct a, b; simpl; try discriminate; try trivial. apply Qeq_bool_iff.
Qed.

Lemma first_ok_join (sep part : list ascii) (rest : list (list ascii)) :
  first_ok part = true -> first_ok (join sep (part :: rest)) = true.
Proof.
  intros H. destruct rest as [|next rest]; [exact H|].
  change (join sep (part :: next :: rest)) with (part ++ sep ++ join sep (next :: rest)).
  now apply first_ok_app.
Qed.

Lemma last_ok_join (sep : list ascii) (parts : list (list ascii)) :
  parts <> [] -> first_ok (rev (List.last parts [])) = true ->
  first_ok (rev (join sep parts)) = true.
Proof.
  induction parts as [|part [|next rest] IH]; intros Hne Hlast; [congruence | exact Hlast |].
  change (join sep (part :: next :: rest)) with (part ++ sep ++ join sep (next :: rest)).
  rewrite !rev_app_distr, <- app_assoc. apply first_ok_app, IH; [discriminate | exact Hlast].
Qed.

Lemma remove_dollar_comma_id (s : list ascii) :
  includes_char dollar s = false -> includes_char comma s = false ->
  remove_dollar_comma s = s.
Proof.
  unfold includes_char, remove_dollar_comma.
  induction s as [|c s IH]; [reflexivity|]. cbn [existsb List.filter].
  intros Hd Hc. apply orb_false_iff in Hd as [Hd1 Hd]. apply orb_false_iff in Hc as [Hc1 Hc].
  rewrite (Ascii.eqb_sym c dollar), Hd1, (Ascii.eqb_sym c comma), Hc1. cbn [orb negb].
  now rewrite IH.
Qed.

Lemma sa_la (s : string) : sa (la s) = s.
Proof. apply string_of_list_ascii_of_string. Qed.

Lemma la_sa (l : list ascii) : la (sa l) = l.
Proof. apply list_ascii_of_string_of_list_ascii. Qed.

Lemma la_nonempty (s : string) : la s <> [] -> nonempty s = true.
Proof. destruct s; [intros H; now contradict H | reflexivity]. Qed.

Lemma parse_line_tight (raw : list ascii) :
  tight raw = true ->
  parse_line raw =
    if (6 <=? length (fields raw))%nat then
      if nonempty (date (entry_of (fields raw)))
         && nonempty (grower_name (entry_of (fields raw)))
         && nonempty (product (entry_of (fields raw)))
      then Some (entry_of (fields raw)) else None
    else None.
Proof.
  intros H. unfold parse_line. rewrite (trim_tight raw H).
  destruct raw; [discriminate H | reflexivity].
Qed.

Lemma csv_safe_spec (d : Transaction) :
  csv_safe d = true ->
  Forall (fun cell => plain cell = true) (row d) /\
  tight (la (date d)) = true /\ trimmed (la (invoice_number d)) = true /\
  tight (la (grower_name d)) = true /\ tight (la (product d)) = true /\
  tight (la (Number_toString (amount d))) = true /\
  includes_char dollar (la (Number_toString (amount d))) = false /\
  (parseFloat (la (Number_toString (quantity d))) || Num 0)%js ≈ quantity d /\
  (parseFloat (la (Number_toString (amount d))) || Num 0)%js ≈ amount d.
Proof.
  unfold csv_safe, number_ok. rewrite !andb_true_iff, !negb_true_iff.
  intros [[[[[[[[[Hd1 Hd2] Hi1] Hi2] Hg1] Hg2] Hp1] Hp2] [[[Hq1 Hq2] Hq3] Hq4]]
          [[[Ha1 Ha2] Ha3] Ha4]].
  split; [unfold row; repeat constructor; assumption|].
  repeat split; try assumption; now apply sameb_same.
Qed.

(** A safe record comes back from its exported line. *)
Lemma parse_line_row (d : Transaction) :
  csv_safe d = true ->
  exists d', parse_line (join [comma] (row d)) = Some d' /\ same_record d' d.
Proof.
  intros Hsafe.
  destruct (csv_safe_spec d Hsafe)
    as (Hplain & Hdate & Hinv & Hgrower & Hproduct & Hamt & Hdollar & Hq & Ha).
  assert (Htight : tight (join [comma] (row d)) = true).
  { unfold tight. apply andb_true_iff. split.
    - apply first_ok_join. now apply tight_first.
    - apply last_ok_join; [discriminate|]. cbn [row List.last]. now apply tight_last. }
  assert (Hfields : fields (join [comma] (row d)) = row d).
  { unfold fields. rewrite includes_char_join.
    - now apply parseCSVLine_join.
    - reflexivity.
    - eapply Forall_impl; [exact Hplain|]. intros cell H. now apply plain_spec in H. }
  rewrite parse_line_tight, Hfields by assumption.
  change (6 <=? length (row d))%nat with true. cbv iota.
  unfold entry_of, value, row. cbn [nth date grower_name product].
  rewrite (trim_tight _ Hdate), (trim_tight _ Hgrower), (trim_tight _ Hproduct),
    (trim_trimmed _ Hinv), !sa_la.
  rewrite !la_nonempty by (now apply tight_nonempty).
  cbn [andb]. eexists. split; [reflexivity|].
  assert (Hcomma : includes_char comma (la (Number_toString (amount d))) = false).
  { rewrite List.Forall_forall in Hplain.
    apply (plain_spec (la (Number_toString (amount d)))), Hplain.
    unfold row. do 5 right. now left. }
  rewrite remove_dollar_comma_id by assumption.
  unfold same_record. cbn [date invoice_number grower_name product quantity amount].
  repeat split; assumption.
Qed.

Lemma omap_parse_rows (rs : list Transaction) :
  Forall (fun d => csv_safe d = true) rs ->
  exists rs', omap parse_line (map (join [comma]) (map row rs)) = rs' /\
              Forall2 same_record rs' rs.
Proof.
  induction 1 as [|d rs Hd _ (rs' & IH & Hall)].
  - exists []. split; [reflexivity | constructor].
  - destruct (parse_line_row d Hd) as (d' & Hparse & Hsame).
    exists (d' :: rs'). split; [|constructor; assumption].
    cbn [map omap list_omap]. rewrite Hparse. now rewrite <- IH.
Qed.

Lemma row_line_props (d : Transaction) :
  csv_safe d = true ->
  includes_char newline (join [comma] (row d)) = false /\
  tight (join [comma] (row d)) = true.
Proof.
  intros Hsafe.
  destruct (csv_safe_spec d Hsafe) as (Hplain & Hdate & _ & _ & _ & Hamt & _).
  split.
  - apply includes_char_join; [reflexivity|].
    eapply Forall_impl; [exact Hplain|]. intros cell H. now apply plain_spec in H.
  - unfold tight. apply andb_true_iff. split.
    + apply first_ok_join. now apply tight_first.
    + apply last_ok_join; [discriminate|]. cbn [row List.last]. now apply tight_last.
Qed.

(** The exported text splits back into the header and the lines, and the
    header is recognised. *)
Lemma exported_lines (lines : list (list ascii)) :
  Forall (fun l => includes_char newline l = false /\ tight l = true) lines ->
  let header := join [comma] (map la headers) in
  let text := join [newline] (header :: lines) in
  exists firstLine rest,
    split_on newline (trim text) = firstLine :: rest /\
    data_lines (firstLine :: rest) firstLine = lines.
Proof.
  intros Hlines header text.
  assert (Htight : tight text = true).
  { unfold text, tight. apply andb_true_iff. split; [now apply first_ok_join|].
    apply last_ok_join; [discriminate|].
    destruct lines as [|l ls] eqn:Hl; [reflexivity|].
    change (List.last (header :: l :: ls) []) with (List.last (l :: ls) []).
    rewrite <- Hl in *.
    assert (Hne : lines <> []) by (rewrite Hl; discriminate).
    assert (Hin : In (List.last lines []) lines).
    { destruct (exists_last Hne) as (init & final & ->).
      rewrite last_last. apply in_or_app. right. now left. }
    rewrite List.Forall_forall in Hlines. now apply tight_last, Hlines. }
  exists header, lines. rewrite (trim_tight _ Htight). split.
  - apply split_on_join; [discriminate|]. constructor; [reflexivity|].
    eapply Forall_impl; [exact Hlines|]. now intros l [H _].
  - unfold data_lines.
    change (includes (la "date") (toLowerCase header)) with true. cbn [orb drop].
    apply drop_0.
Qed.

(** *** The export of the server *)

Lemma server_parse_line_tight (raw : list ascii) :
  tight raw = true ->
  server_parse_line raw =
    if (6 <=? length (fields raw))%nat then Some (entry_of (fields raw)) else None.
Proof.
  intros H. unfold server_parse_line. rewrite (trim_tight raw H).
  destruct raw; [discriminate H | reflexivity].
Qed.

Lemma number_ok_spec (x : number) :
  number_ok x = true ->
  plain (number_or_empty x) = true /\
  includes_char dollar (number_or_empty x) = false /\
  (number_or_empty x = [] \/ tight (number_or_empty x) = true) /\
  (parseFloat (number_or_empty x) || Num 0)%js ≈ x.
Proof.
  unfold number_ok, number_or_empty. rewrite !andb_true_iff, negb_true_iff.
  intros [[[Hplain Htight] Hdollar] Hsame]. destruct (truthy x) eqn:Htruthy.
  - repeat split; try assumption; [now right | now apply sameb_same].
  - repeat split; try reflexivity; [now left|].
    change (parseFloat [] || Num 0)%js with (Num 0).
    destruct x as [q| | |]; try discriminate Htruthy.
    + cbn [truthy] in Htruthy. apply negb_false_iff, Qeq_bool_iff in Htruthy.
      apply same_Num. now symmetry.
    + exfalso. pose proof (or_zero_not_NaN (parseFloat (la (Number_toString NaN)))) as Hn.
      destruct (parseFloat (la (Number_toString NaN)) || Num 0)%js;
        [discriminate Hsame | discriminate Hsame | discriminate Hsame | now apply Hn].
Qed.

Lemma join_snoc (sep : list ascii) (parts : list (list ascii)) (p : list ascii) :
  parts <> [] -> join sep (parts ++ [p]) = join sep parts ++ sep ++ p.
Proof.
  induction parts as [|a [|b parts] IH]; intros Hne; [congruence | reflexivity |].
  change (join sep ((a :: b :: parts) ++ [p]))
    with (a ++ sep ++ join sep ((b :: parts) ++ [p])).
  rewrite IH by discriminate.
  change (join sep (a :: b :: parts)) with (a ++ sep ++ join sep (b :: parts)).
  now rewrite <- !app_assoc.
Qed.

Lemma server_line_tight (d : Transaction) :
  csv_safe d = true -> tight (join [comma] (server_row d)) = true.
Proof.
  intros Hsafe. pose proof Hsafe as Hsafe'. unfold csv_safe in Hsafe'.
  rewrite !andb_true_iff in Hsafe'.
  destruct Hsafe' as [[[[[[[[[_ Hdate] _] _] _] _] _] _] _] Hamt].
  destruct (number_ok_spec _ Hamt) as (_ & _ & Hlast & _).
  unfold tight. apply andb_true_iff. split.
  - apply first_ok_join. now apply tight_first.
  - unfold server_row. destruct Hlast as [-> | Hlast].
    + change [text_or_empty (date d); text_or_empty (invoice_number d);
              text_or_empty (grower_name d); text_or_empty (product d);
              number_or_empty (quantity d); []]
        with ([text_or_empty (date d); text_or_empty (invoice_number d);
               text_or_empty (grower_name d); text_or_empty (product d);
               number_or_empty (quantity d)] ++ [[]]).
      rewrite join_snoc by discriminate. rewrite !rev_app_distr. reflexivity.
    + apply last_ok_join; [discriminate|]. cbn [List.last]. now apply tight_last.
Qed.

Lemma server_row_plain (d : Transaction) :
  csv_safe d = true -> Forall (fun cell => plain cell = true) (server_row d).
Proof.
  intros Hsafe. unfold csv_safe in Hsafe. rewrite !andb_true_iff in Hsafe.
  destruct Hsafe as [[[[[[[[[Hd _] Hi] _] Hg] _] Hp] _] Hq] Ha].
  destruct (number_ok_spec _ Hq) as (Hq' & _). destruct (number_ok_spec _ Ha) as (Ha' & _).
  unfold server_row, text_or_empty. repeat constructor; assumption.
Qed.

Lemma server_parse_line_row (d : Transaction) :
  csv_safe d = true ->
  exists d', server_parse_line (join [comma] (server_row d)) = Some d' /\ same_record d' d.
Proof.
  intros Hsafe.
  destruct (csv_safe_spec d Hsafe) as (_ & Hdate & Hinv & Hgrower & Hproduct & _).
  pose proof (server_row_plain d Hsafe) as Hplain.
  pose proof Hsafe as Hsafe'. unfold csv_safe in Hsafe'. rewrite !andb_true_iff in Hsafe'.
  destruct Hsafe' as [[_ Hq] Ha].
  destruct (number_ok_spec _ Hq) as (_ & _ & _ & Hq').
  destruct (number_ok_spec _ Ha) as (Haplain & Hadollar & _ & Ha').
  assert (Hfields : fields (join [comma] (server_row d)) = server_row d).
  { unfold fields. rewrite includes_char_join.
    - apply parseCSVLine_join; [discriminate | assumption].
    - reflexivity.
    - eapply Forall_impl; [exact Hplain|]. intros cell H. now apply plain_spec in H. }
  rewrite server_parse_line_tight, Hfields by now apply server_line_tight.
  change (6 <=? length (server_row d))%nat with true. cbv iota.
  eexists. split; [reflexivity|].
  unfold entry_of, value, server_row, text_or_empty, same_record.
  cbn [nth date invoice_number grower_name product quantity amount].
  rewrite (trim_tight _ Hdate), (trim_tight _ Hgrower), (trim_tight _ Hproduct),
    (trim_trimmed _ Hinv), !sa_la.
  rewrite remove_dollar_comma_id; [|assumption | now apply plain_spec in Haplain].
  repeat split; assumption.
Qed.

Lemma omap_server_parse_rows (rs : list Transaction) :
  Forall (fun d => csv_safe d = true) rs ->
  exists rs', omap server_parse_line (map (fun d => join [comma] (server_row d)) rs) = rs' /\
              Forall2 same_record rs' rs.
Proof.
  induction 1 as [|d rs Hd _ (rs' & IH & Hall)].
  - exists []. split; [reflexivity | constructor].
  - destruct (server_parse_line_row d Hd) as (d' & Hparse & Hsame).
    exists (d' :: rs'). split; [|constructor; assumption].
    cbn [map omap list_omap]. rewrite Hparse. now rewrite <- IH.
Qed.

Lemma server_row_line_props (d : Transaction) :
  csv_safe d = true ->
  includes_char newline (join [comma] (server_row d)) = false /\
  tight (join [comma] (server_row d)) = true.
Proof.
  intros Hsafe. split; [|now apply server_line_tight].
  apply includes_char_join; [reflexivity|].
  eapply Forall_impl; [exact (server_row_plain d Hsafe)|].
  intros cell H. now apply plain_spec in H.
Qed.

(** C4 (as amended): a set of records whose text fields hold no comma,
    quote, tab or line feed and no white space at their ends, with a date, a
    grower and a product, and whose numbers are printed faithfully, is read
    back as the same records, up to the representation of the numbers: by
    the dashboard from its own export when the set is not empty (there is no
    export otherwise), and by the server from its own export. *)
Theorem export_import_roundtrip (rs : list Transaction) :
  Forall (fun d => csv_safe d = true) rs ->
  (rs <> [] ->
   exists text rs',
     exportToCSV rs = Some text /\ parseCSV text = Some rs' /\
     Forall2 same_record rs' rs) /\
  (exists rs',
     server_parseCSV (generateCSV rs) = Some rs' /\ Forall2 same_record rs' rs).
Proof.
  intros Hsafe. split.
  - intros Hne. unfold exportToCSV.
    destruct rs as [|r0 rs0] eqn:Hrs; [congruence|].
    change (length (r0 :: rs0) =? 0)%nat with false. cbv iota. rewrite <- Hrs in *.
    clear Hrs r0 rs0 Hne.
    destruct (omap_parse_rows rs Hsafe) as (rs' & Hparse & Hsame).
    eexists. exists rs'. split; [reflexivity|]. split; [|exact Hsame].
    unfold parseCSV. rewrite la_sa.
    destruct (exported_lines (map (join [comma]) (map row rs)))
      as (firstLine & rest & -> & ->).
    { rewrite map_map. apply Forall_map.
      eapply Forall_impl; [exact Hsafe|]. intros d Hd. now apply row_line_props. }
    now rewrite Hparse.
  - destruct (omap_server_parse_rows rs Hsafe) as (rs' & Hparse & Hsame).
    exists rs'. split; [|exact Hsame].
    unfold server_parseCSV, generateCSV. rewrite la_sa.
    destruct (exported_lines (map (fun d => join [comma] (server_row d)) rs))
      as (firstLine & rest & -> & ->).
    { apply Forall_map.
      eapply Forall_impl; [exact Hsafe|]. intros d Hd. now apply server_row_line_props. }
    now rewrite Hparse.
Qed.

Lemma export_import_roundtrip_witness :
  Forall (fun d => csv_safe d = true) [jones] /\ [jones] <> [] /\
  (exists text rs',
     exportToCSV [jones] = Some text /\ parseCSV text = Some rs' /\
     Forall2 same_record rs' [jones]) /\
  (exists rs',
     server_parseCSV (generateCSV [jones]) = Some rs' /\ Forall2 same_record rs' [jones]).
Proof.
  assert (Hne : [jones] <> []) by discriminate.
  assert (Hsafe : Forall (fun d => csv_safe d = true) [jones])
    by (constructor; [vm_compute; reflexivity | constructor]).
  split; [exact Hsafe|]. split; [exact Hne|]. split.
  - exact (proj1 (export_import_roundtrip [jones] Hsafe) Hne).
  - exact (proj2 (export_import_roundtrip [jones] Hsafe)).
Defined.

(** C4 (as stated) fails for a field that holds a comma: the export does not
    quote it, so the line of "Smith, John" has seven fields and is read back
    with grower "Smith", product "John", quantity 0 and amount 10. *)
Lemma export_comma_not_quoted :
  exists text,
    exportToCSV [smith] = Some text /\
    parseCSV text = Some [smith_reimported] /\
    grower_name smith_reimported <> grower_name smith /\
    ~ Forall2 same_record [smith_reimported] [smith].
Proof.
  eexists. split; [reflexivity|]. split; [vm_compute; reflexivity|].
  split; [discriminate|].
  intros H. inversion H as [|? ? ? ? (_ & _ & Hg & _) _]; subst. discriminate Hg.
Qed.

End CsvFacts.

(** ** Addition of numbers, up to the representation of the rationals *)

Module NumberFacts.
Import JS QFacts.

#[export] Instance same_equivalence : Equivalence same.
Proof.
  split; [intros a; apply same_refl | intros a b; apply same_sym
         | intros a b c; apply same_trans].
Qed.

#[export] Instance add_proper : Proper (same ==> same ==> same) add.
Proof. intros a a' Ha b b' Hb. now apply BandFacts.add_same. Qed.

Lemma add_comm (a b : number) : (a + b)%js ≈ (b + a)%js.
Proof. destruct a, b; simpl; trivial. ring. Qed.

Lemma add_assoc (a b c : number) : (a + (b + c))%js ≈ (a + b + c)%js.
Proof. destruct a, b, c; simpl; trivial. ring. Qed.

Lemma add_0_l (a : number) : (Num 0 + a)%js ≈ a.
Proof. destruct a; simpl; trivial. ring. Qed.

Lemma add_0_r (a : number) : (a + Num 0)%js ≈ a.
Proof. rewrite add_comm. apply add_0_l. Qed.

Lemma Qeq_bool_comp (a a' b b' : Q) :
  a == a' -> b == b' -> Qeq_bool a b = Qeq_bool a' b'.
Proof.
  intros Ha Hb. apply eq_true_iff_eq. rewrite !Qeq_bool_iff, Ha, Hb. reflexivity.
Qed.

Lemma Qltb_comp (a a' b b' : Q) : a == a' -> b == b' -> Qltb a b = Qltb a' b'.
Proof.
  intros Ha Hb. unfold Qltb. f_equal. now apply BandFacts.Qle_bool_comp.
Qed.

Lemma div_same (a a' b b' : number) : a ≈ a' -> b ≈ b' -> (a / b)%js ≈ (a' / b')%js.
Proof.
  destruct a as [x| | |], a' as [x'| | |], b as [y| | |], b' as [y'| | |];
    simpl; try tauto; intros Hx Hy; try reflexivity.
  - rewrite (Qeq_bool_comp y y' 0 0 Hy (Qeq_refl 0)),
      (Qeq_bool_comp x x' 0 0 Hx (Qeq_refl 0)), (Qltb_comp 0 0 x x' (Qeq_refl 0) Hx).
    destruct (Qeq_bool y' 0) eqn:Hz.
    + destruct (Qeq_bool x' 0); [exact I|]. now destruct (Qltb 0 x').
    + simpl. apply Qeq_bool_false in Hz.
      assert (~ y == 0) by (rewrite Hy; exact Hz).
      rewrite Hx, Hy. reflexivity.
  - rewrite (Qltb_comp y y' 0 0 Hy (Qeq_refl 0)). now destruct (Qltb y' 0).
  - rewrite (Qltb_comp y y' 0 0 Hy (Qeq_refl 0)). now destruct (Qltb y' 0).
Qed.

(** *** Sums of a value over a list, as [reduce] computes them *)

Section Folds.

Context {A : Type} (g : A -> number).

Lemma fold_add_init (l : list A) (init : number) :
  fold_left (fun s d => (s + g d)%js) l init
  ≈ (init + fold_left (fun s d => (s + g d)%js) l (Num 0))%js.
Proof using Type.
  revert init. induction l as [|d l IH]; intros init; cbn [fold_left].
  - now rewrite add_0_r.
  - rewrite IH, (IH (Num 0 + g d)%js), add_0_l. symmetry. apply add_assoc.
Qed.

Lemma fold_add_proper (l : list A) (init init' : number) :
  init ≈ init' ->
  fold_left (fun s d => (s + g d)%js) l init
  ≈ fold_left (fun s d => (s + g d)%js) l init'.
Proof using Type.
  intros H. rewrite fold_add_init, (fold_add_init l init'). now rewrite H.
Qed.

Lemma fold_add_cons (d : A) (l : list A) :
  fold_left (fun s d => (s + g d)%js) (d :: l) (Num 0)
  ≈ (g d + fold_left (fun s d => (s + g d)%js) l (Num 0))%js.
Proof using Type.
  cbn [fold_left]. rewrite fold_add_init. now rewrite add_0_l.
Qed.

Lemma fold_add_app (l l' : list A) :
  fold_left (fun s d => (s + g d)%js) (l ++ l') (Num 0)
  ≈ (fold_left (fun s d => (s + g d)%js) l (Num 0)
     + fold_left (fun s d => (s + g d)%js) l' (Num 0))%js.
Proof using Type.
  rewrite fold_left_app. apply fold_add_init.
Qed.

Lemma fold_add_perm (l l' : list A) :
  l ≡ₚ l' ->
  forall init, fold_left (fun s d => (s + g d)%js) l init
               ≈ fold_left (fun s d => (s + g d)%js) l' init.
Proof using Type.
  induction 1 as [|x l l' _ IH|x y l|l l' l'' _ IH1 _ IH2]; intros init; cbn [fold_left].
  - reflexivity.
  - apply IH.
  - apply fold_add_proper.
    rewrite <- !add_assoc. now rewrite (add_comm (g y) (g x)).
  - now rewrite IH1.
Qed.

End Folds.

End NumberFacts.

(** ** The summary of the server ([calculateSummary]) *)

Module SummaryFacts.
Import JS Data Aggregation QFacts NumberFacts RetentionFacts.

Lemma length_fold_add (arr : list string) (acc : JSSet.t) :
  (length (fold_left JSSet.add arr acc) <= length acc + length arr)%nat.
Proof.
  revert acc. induction arr as [|a arr IH]; intros acc; cbn [fold_left length]; [lia|].
  specialize (IH (JSSet.add acc a)). unfold JSSet.add in *.
  destruct (JSSet.has acc a); [|rewrite length_app in IH; cbn [length] in IH]; lia.
Qed.

Lemma size_of_list_le (arr : list string) :
  (JSSet.size (JSSet.of_list arr) <= length arr)%nat.
Proof. apply (length_fold_add arr []). Qed.

Lemma size_of_list_zero (arr : list string) :
  JSSet.size (JSSet.of_list arr) = 0%nat <-> arr = [].
Proof.
  split; [|now intros ->]. intros Hz. destruct arr as [|a arr]; [reflexivity|].
  assert (Hin : a ∈ JSSet.of_list (a :: arr)) by (apply elem_of_of_list; left).
  unfold JSSet.size in Hz. apply length_zero_iff_nil in Hz. rewrite Hz in Hin.
  now apply elem_of_nil in Hin.
Qed.

Lemma size_of_list_perm (arr arr' : list string) :
  arr ≡ₚ arr' -> JSSet.size (JSSet.of_list arr) = JSSet.size (JSSet.of_list arr').
Proof.
  intros Hp. rewrite !size_of_list. f_equal. apply set_eq. intros x.
  rewrite !elem_of_list_to_set. now rewrite Hp.
Qed.

Lemma times_count (total : number) (n : nat) :
  n <> 0%nat -> (total / of_nat n * of_nat n)%js ≈ total.
Proof.
  intros Hn. pose proof (Qnat_pos n Hn) as Hpos. unfold Stats.Qnat in Hpos.
  unfold of_nat. set (c := inject_Z (Z.of_nat n)) in *.
  assert (Hc : Qeq_bool c 0 = false) by (apply Qeq_bool_false; lra).
  assert (Hlt : Qltb c 0 = false) by (apply Qltb_ge; lra).
  assert (Hgt : Qltb 0 c = true) by (now apply Qltb_lt).
  destruct total as [q| | |]; cbn [div]; rewrite ?Hc, ?Hlt; cbn [mul];
    unfold inf_times; rewrite ?Hc, ?Hgt; cbn.
  - field. lra.
  - exact I.
  - exact I.
  - exact I.
Qed.

(** X1: in every summary the number of distinct growers is at most the
    number of orders, and is zero only for no data; the average order value
    times the number of orders gives back the total revenue (in exact
    arithmetic, whatever the amounts). *)
Theorem calculateSummary_consistent (data : list Transaction) :
  let s := calculateSummary data in
  (uniqueGrowers s <= totalOrders s)%nat /\
  (uniqueGrowers s = 0%nat <-> data = []) /\
  (avgOrderValue s * of_nat (totalOrders s))%js ≈ totalRevenue s.
Proof.
  cbn zeta. unfold calculateSummary.
  cbn [uniqueGrowers totalOrders avgOrderValue totalRevenue].
  split; [|split].
  - rewrite <- (length_map grower_name data). apply size_of_list_le.
  - rewrite size_of_list_zero. split; [apply map_eq_nil | now intros ->].
  - destruct data as [|d data]; [simpl; reflexivity|].
    change (length (d :: data) =? 0)%nat with false. cbv iota.
    now apply times_count.
Qed.

(** X2: the summary does not depend on the order of the transactions: the
    counts are equal, the totals and the average are the same value (in exact
    arithmetic). *)
Theorem calculateSummary_order (data data' : list Transaction) :
  data ≡ₚ data' ->
  let s := calculateSummary data in
  let s' := calculateSummary data' in
  totalRevenue s ≈ totalRevenue s' /\ totalUnits s ≈ totalUnits s' /\
  totalOrders s = totalOrders s' /\ uniqueGrowers s = uniqueGrowers s' /\
  avgOrderValue s ≈ avgOrderValue s'.
Proof.
  intros Hp. cbn zeta. unfold calculateSummary.
  cbn [uniqueGrowers totalOrders avgOrderValue totalRevenue totalUnits].
  pose proof (fold_add_perm (fun d => (amount d || Num 0)%js) data data' Hp (Num 0)) as Hrev.
  pose proof (fold_add_perm (fun d => (quantity d || Num 0)%js) data data' Hp (Num 0)) as Hunits.
  pose proof (Permutation_length Hp) as Hlen.
  split; [exact Hrev|]. split; [exact Hunits|]. split; [exact Hlen|]. split.
  - apply size_of_list_perm. now apply Permutation_map.
  - rewrite Hlen. destruct (length data' =? 0)%nat; [reflexivity|].
    apply div_same; [exact Hrev | reflexivity].
Qed.

Lemma calculateSummary_order_witness :
  [Retention.sale "A"; Retention.sale "B"] ≡ₚ [Retention.sale "B"; Retention.sale "A"] /\
  totalRevenue (calculateSummary [Retention.sale "A"; Retention.sale "B"])
  ≈ totalRevenue (calculateSummary [Retention.sale "B"; Retention.sale "A"]).
Proof.
  split; [apply perm_swap|].
  apply (calculateSummary_order [Retention.sale "A"; Retention.sale "B"]
           [Retention.sale "B"; Retention.sale "A"] (perm_swap _ _ _)).
Defined.

(** X3: the summary of two batches put together: the orders add up, the
    totals add up (in exact arithmetic), and the distinct growers are at
    least those of each batch and at most those of both. *)
Theorem calculateSummary_app (data more : list Transaction) :
  let s := calculateSummary (data ++ more) in
  let s1 := calculateSummary data in
  let s2 := calculateSummary more in
  totalOrders s = (totalOrders s1 + totalOrders s2)%nat /\
  totalRevenue s ≈ (totalRevenue s1 + totalRevenue s2)%js /\
  totalUnits s ≈ (totalUnits s1 + totalUnits s2)%js /\
  (uniqueGrowers s1 <= uniqueGrowers s)%nat /\ (uniqueGrowers s2 <= uniqueGrowers s)%nat /\
  (uniqueGrowers s <= uniqueGrowers s1 + uniqueGrowers s2)%nat.
Proof.
  cbn zeta. unfold calculateSummary.
  cbn [uniqueGrowers totalOrders totalRevenue totalUnits].
  rewrite !size_of_list, map_app, list_to_set_app_L.
  set (X := list_to_set (map grower_name data) : gset string).
  set (Y := list_to_set (map grower_name more) : gset string).
  split; [apply length_app|]. split; [apply fold_add_app|]. split; [apply fold_add_app|].
  split; [apply subseteq_size, union_subseteq_l|].
  split; [apply subseteq_size, union_subseteq_r|].
  rewrite size_union_alt.
  assert (Hle : (size (Y ∖ X) <= size Y)%nat).
  { apply subseteq_size. apply elem_of_subseteq. intros x Hx.
    now apply elem_of_difference in Hx as [Hx _]. }
  lia.
Qed.

End SummaryFacts.

(** ** More on the CSV functions *)

Module CsvLineFacts.
Import JS Data Str NumText Csv CsvCases StrFacts QFacts.

Lemma parseCSVLine_from_unquoted (line : list ascii) (result : list (list ascii))
    (current : list ascii) :
  includes_char quote line = false ->
  parseCSVLine_from line result current false
  = result ++ match split_on comma line with
              | first :: rest => (current ++ first) :: rest
              | [] => [current]
              end.
Proof.
  unfold includes_char. revert result current.
  induction line as [|c line IH]; intros result current Hq.
  - cbn [parseCSVLine_from split_on]. now rewrite app_nil_r.
  - cbn [existsb] in Hq. apply orb_false_iff in Hq as [Hc Hq].
    cbn [parseCSVLine_from split_on]. rewrite (Ascii.eqb_sym c quote), Hc.
    pose proof (split_on_nonempty comma line) as Hne.
    destruct (Ascii.eqb c comma) eqn:Hcomma; cbn [andb negb].
    + rewrite IH by assumption.
      destruct (split_on comma line) as [|first rest]; [congruence|].
      now rewrite <- app_assoc, app_nil_r.
    + rewrite IH by assumption.
      destruct (split_on comma line) as [|first rest]; [congruence|].
      now rewrite <- app_assoc.
Qed.

(** X4: on a line without double quotes [parseCSVLine] is [split(',')]. *)
Theorem parseCSVLine_unquoted (line : list ascii) :
  includes_char quote line = false -> parseCSVLine line = split_on comma line.
Proof.
  intros Hq. unfold parseCSVLine. rewrite parseCSVLine_from_unquoted by assumption.
  pose proof (split_on_nonempty comma line) as Hne.
  now destruct (split_on comma line) as [|first rest]; [congruence|].
Qed.

Lemma parseCSVLine_unquoted_witness :
  includes_char quote (la "a,b,,c") = false /\
  parseCSVLine (la "a,b,,c") = split_on comma (la "a,b,,c").
Proof.
  split; [reflexivity|]. apply (parseCSVLine_unquoted (la "a,b,,c")). reflexivity.
Defined.

Lemma parseCSVLine_from_inside (cell rest : list ascii) (result : list (list ascii))
    (current : list ascii) :
  includes_char quote cell = false ->
  parseCSVLine_from (cell ++ rest) result current true
  = parseCSVLine_from rest result (current ++ cell) true.
Proof.
  unfold includes_char. revert current.
  induction cell as [|c cell IH]; intros current Hq.
  - cbn [app]. now rewrite app_nil_r.
  - cbn [existsb] in Hq. apply orb_false_iff in Hq as [Hc Hq].
    cbn [app parseCSVLine_from]. rewrite (Ascii.eqb_sym c quote), Hc.
    cbn [negb]. rewrite andb_false_r, IH by assumption. now rewrite <- app_assoc.
Qed.

Lemma parseCSVLine_from_quoted (cell rest : list ascii) (result : list (list ascii))
    (current : list ascii) :
  includes_char quote cell = false ->
  parseCSVLine_from (quoted cell ++ rest) result current false
  = parseCSVLine_from rest result (current ++ cell) false.
Proof.
  intros Hq. unfold quoted. cbn [app parseCSVLine_from].
  rewrite Ascii.eqb_refl. cbn [negb]. rewrite <- app_assoc.
  rewrite parseCSVLine_from_inside by assumption.
  cbn [app parseCSVLine_from]. now rewrite Ascii.eqb_refl.
Qed.

Lemma parseCSVLine_from_quoted_cells (cells result : list (list ascii)) :
  cells <> [] -> Forall (fun cell => includes_char quote cell = false) cells ->
  parseCSVLine_from (join [comma] (map quoted cells)) result [] false = result ++ cells.
Proof.
  intros Hne Hcells. revert result.
  induction Hcells as [|cell cells Hq Hrest IH]; intros result; [congruence|].
  destruct cells as [|next cells].
  - cbn [map join]. rewrite <- (app_nil_r (quoted cell)).
    now rewrite parseCSVLine_from_quoted.
  - change (join [comma] (map quoted (cell :: next :: cells)))
      with (quoted cell ++ comma :: join [comma] (map quoted (next :: cells))).
    rewrite parseCSVLine_from_quoted by assumption.
    cbn [parseCSVLine_from app]. change (Ascii.eqb comma quote) with false.
    rewrite Ascii.eqb_refl. cbn [andb negb]. rewrite IH by discriminate.
    now rewrite <- app_assoc.
Qed.

(** X5: a line of cells written between double quotes and joined by commas
    is read as these cells, commas inside a cell included, as long as no cell
    holds a double quote. *)
Theorem parseCSVLine_quoted_cells (cells : list (list ascii)) :
  cells <> [] -> Forall (fun cell => includes_char quote cell = false) cells ->
  parseCSVLine (join [comma] (map quoted cells)) = cells.
Proof.
  intros Hne Hcells. unfold parseCSVLine.
  now rewrite parseCSVLine_from_quoted_cells.
Qed.

Lemma parseCSVLine_quoted_cells_witness :
  smith_cells <> [] /\
  Forall (fun cell => includes_char quote cell = false) smith_cells /\
  parseCSVLine (join [comma] (map quoted smith_cells)) = smith_cells.
Proof.
  assert (Hne : smith_cells <> []) by discriminate.
  assert (Hq : Forall (fun cell => includes_char quote cell = false) smith_cells)
    by (repeat constructor).
  split; [exact Hne|]. split; [exact Hq|].
  exact (parseCSVLine_quoted_cells smith_cells Hne Hq).
Defined.

Lemma parseCSVLine_from_no_quote (line : list ascii) (result : list (list ascii))
    (current : list ascii) (inQuotes : bool) :
  Forall (fun f => includes_char quote f = false) result ->
  includes_char quote current = false ->
  Forall (fun f => includes_char quote f = false)
         (parseCSVLine_from line result current inQuotes).
Proof.
  revert result current inQuotes.
  induction line as [|c line IH]; intros result current inQuotes Hres Hcur.
  - cbn [parseCSVLine_from]. apply Forall_app. split; [assumption | now constructor].
  - cbn [parseCSVLine_from]. destruct (Ascii.eqb c quote) eqn:Hc; [now apply IH|].
    destruct (Ascii.eqb c comma && negb inQuotes).
    + apply IH; [|reflexivity]. apply Forall_app. split; [assumption | now constructor].
    + apply IH; [assumption|]. rewrite includes_char_app, Hcur.
      unfold includes_char. cbn [existsb]. now rewrite Ascii.eqb_sym, Hc.
Qed.

(** X6: whatever the line, [parseCSVLine] returns at least one field and
    no field holds a double quote: the quotes are dropped, also the ones
    inside a field and an unmatched one. *)
Theorem parseCSVLine_drops_quotes (line : list ascii) :
  parseCSVLine line <> [] /\
  Forall (fun f => includes_char quote f = false) (parseCSVLine line).
Proof.
  split; [|now apply parseCSVLine_from_no_quote].
  assert (Hfrom : forall result current inQuotes,
             parseCSVLine_from line result current inQuotes <> []).
  { induction line as [|c line IH]; intros result current inQuotes.
    - cbn [parseCSVLine_from]. intros H. apply app_eq_nil in H as [_ H]. discriminate H.
    - cbn [parseCSVLine_from]. destruct (Ascii.eqb c quote); [apply IH|].
      destruct (Ascii.eqb c comma && negb inQuotes); apply IH. }
  apply Hfrom.
Qed.

End CsvLineFacts.

Module CsvImportFacts.
Import JS Data Str NumText Csv CsvCases StrFacts QFacts.

Lemma parse_line_server (raw : list ascii) :
  parse_line raw =
  match server_parse_line raw with
  | Some e => if has_required e then Some e else None
  | None => None
  end.
Proof.
  unfold parse_line, server_parse_line, has_required.
  destruct (trim raw) as [|c line]; [reflexivity|].
  now destruct (6 <=? length (fields (c :: line)))%nat.
Qed.

Lemma omap_parse_line_server (lines : list (list ascii)) :
  omap parse_line lines = List.filter has_required (omap server_parse_line lines).
Proof.
  induction lines as [|raw lines IH]; [reflexivity|].
  cbn [omap list_omap]. rewrite parse_line_server.
  destruct (server_parse_line raw) as [e|]; [|exact IH].
  cbn [List.filter]. destruct (has_required e); now rewrite IH.
Qed.

(** X7: the import of the dashboard returns the records the import of the
    server returns for the same text, without those that lack a date, a
    grower or a product, and in the same order. *)
Theorem parseCSV_filters_server (text : string) :
  parseCSV text = List.filter has_required <$> server_parseCSV text.
Proof.
  unfold parseCSV, server_parseCSV.
  destruct (split_on newline (trim (la text))) as [|firstLine rest]; [reflexivity|].
  cbn [fmap option_fmap option_map]. f_equal. apply omap_parse_line_server.
Qed.

Lemma row_server_row (d : Transaction) :
  truthy_numbers d = true -> server_row d = row d.
Proof.
  unfold truthy_numbers, server_row, row, number_or_empty, text_or_empty.
  intros H. apply andb_true_iff in H as [-> ->]. reflexivity.
Qed.

(** X8: the two exports write the same text for a set of records that is
    not empty and whose quantities and amounts are neither 0 nor [NaN]; for
    no record the dashboard exports nothing and the server exports the header
    line. *)
Theorem exports_agree :
  (forall rs : list Transaction,
      rs <> [] -> Forall (fun d => truthy_numbers d = true) rs ->
      exportToCSV rs = Some (generateCSV rs)) /\
  exportToCSV [] = None /\
  generateCSV [] = "date,invoice_number,grower_name,product,quantity,amount"%string.
Proof.
  split; [|split; reflexivity].
  intros rs Hne Hrs. unfold exportToCSV, generateCSV.
  destruct rs as [|r0 rs0] eqn:E; [congruence|].
  change (length (r0 :: rs0) =? 0)%nat with false. cbv iota. rewrite <- E in *.
  do 4 f_equal. rewrite map_map. apply map_ext_Forall.
  eapply Forall_impl; [exact Hrs|]. intros d Hd. cbn beta.
  now rewrite row_server_row.
Qed.

Lemma exports_agree_witness :
  [jones] <> [] /\ Forall (fun d => truthy_numbers d = true) [jones] /\
  exportToCSV [jones] = Some (generateCSV [jones]).
Proof.
  assert (Hne : [jones] <> []) by discriminate.
  assert (Hrs : Forall (fun d => truthy_numbers d = true) [jones])
    by (repeat constructor).
  split; [exact Hne|]. split; [exact Hrs|].
  exact (proj1 exports_agree [jones] Hne Hrs).
Defined.

End CsvImportFacts.

(** ** More on the forecast methods *)

Module RegressionCases.
Import JS Stats Forecast ForecastSpec ForecastCases QFacts RegressionFacts.

Lemma on_line_sums (a b : Q) (pts : list (Q * Q)) :
  on_line a b pts ->
  Sy pts == a * Sx pts + b * Qlen pts /\ Sxy pts == a * Sxx pts + b * Sx pts.
Proof.
  unfold Sy, Sx, Sxy, Sxx. induction 1 as [|[x y] pts Hp _ [IH1 IH2]].
  - rewrite Qlen_nil. simpl. split; ring.
  - cbn [fst snd] in Hp. rewrite Qlen_cons, !map_cons, !Qsum_cons. cbn [fst snd].
    rewrite IH1, IH2, Hp. split; ring.
Qed.

(** X9: when the points lie on a line and hold two distinct x-values, the
    regression returns the value of that line at the target (in exact
    arithmetic). *)
Theorem linearRegression_on_line (a b t : Q) (pts : list (Q * Q)) :
  two_distinct_x pts -> on_line a b pts ->
  linearRegression (xs_of pts) (ys_of pts) (Num t) ≈ Num (a * t + b).
Proof.
  intros Hd Hline. eapply same_trans; [now apply linearRegression_fit|]. apply same_Num.
  pose proof (denominator_pos pts Hd) as HD.
  pose proof (Qlen_pos pts (two_distinct_nonempty pts Hd)) as Hn.
  destruct (on_line_sums a b pts Hline) as [Hy Hxy].
  assert (Hslope : ols_slope pts == a).
  { unfold ols_slope. rewrite Hxy, Hy. field. lra. }
  unfold ols_intercept. rewrite Hslope, Hy. field. lra.
Qed.

Lemma linearRegression_on_line_witness :
  two_distinct_x line_2_1 /\ on_line 2 1 line_2_1 /\
  linearRegression (xs_of line_2_1) (ys_of line_2_1) (Num 10) ≈ Num (2 * 10 + 1).
Proof.
  assert (Hd : two_distinct_x line_2_1).
  { exists (1, 3), (2, 5). unfold line_2_1.
    repeat split; [now left | right; now left | discriminate]. }
  assert (Hline : on_line 2 1 line_2_1) by (repeat constructor).
  split; [exact Hd|]. split; [exact Hline|].
  exact (linearRegression_on_line 2 1 10 line_2_1 Hd Hline).
Defined.

Lemma same_x_sums (x0 : Q) (pts : list (Q * Q)) :
  same_x x0 pts ->
  Sx pts == Qlen pts * x0 /\ Sxx pts == Qlen pts * (x0 * x0) /\ Sxy pts == x0 * Sy pts.
Proof.
  unfold Sy, Sx, Sxy, Sxx. induction 1 as [|[x y] pts Hp _ (IH1 & IH2 & IH3)].
  - rewrite Qlen_nil. simpl. repeat split; ring.
  - cbn [fst snd] in Hp. rewrite Qlen_cons, !map_cons, !Qsum_cons. cbn [fst snd].
    rewrite IH1, IH2, IH3, Hp. repeat split; ring.
Qed.

Lemma zero_div_zero (a b : Q) : a == 0 -> b == 0 -> (Num a / Num b)%js = NaN.
Proof.
  intros Ha Hb. cbn [div]. apply Qeq_bool_iff in Ha, Hb. now rewrite Ha, Hb.
Qed.

(** X10: when all the points have the same x-value (a single point, for
    instance) the slope is 0/0 and the regression returns [NaN], whatever the
    y-values and the target. *)
Theorem linearRegression_same_x (x0 : Q) (pts : list (Q * Q)) (t : number) :
  pts <> [] -> same_x x0 pts ->
  linearRegression (xs_of pts) (ys_of pts) t = NaN.
Proof.
  intros Hne Hsame. destruct (same_x_sums x0 pts Hsame) as (Hx & Hxx & Hxy).
  unfold linearRegression, reduce_i.
  assert (Hlen : length (xs_of pts) = length pts) by apply length_map.
  rewrite Hlen. destruct pts as [|p0 pts0] eqn:Hpts; [congruence|].
  change (length (p0 :: pts0) =? 0)%nat with false. cbv iota. rewrite <- Hpts in *.
  clear Hpts p0 pts0.
  destruct (sum_xs_of pts) as (sx & -> & Hsx).
  destruct (sum_ys_of pts) as (sy & -> & Hsy).
  destruct (sumXY_Num [] pts 0) as (sxy & Hsxy & Hvxy). cbn [map app length] in Hsxy.
  rewrite Hsxy.
  assert (Hxs : xs_of pts = map Num (map fst pts)) by (unfold xs_of; now rewrite map_map).
  rewrite Hxs.
  destruct (sumX2_Num (map fst pts) 0 0) as (sxx & -> & Hsxx).
  assert (Hsxx' : sxx == Sxx pts).
  { rewrite Hsxx. unfold Sxx. rewrite map_map. ring. }
  rewrite Qplus_0_l in Hvxy.
  fold (@Qlen (Q * Q) pts). unfold of_nat. fold (@Qlen (Q * Q) pts).
  cbn [mul sub add neg].
  rewrite zero_div_zero; [reflexivity | |].
  - rewrite Hvxy, Hsx, Hsy, Hxy, Hx. ring.
  - rewrite Hsxx', Hsx, Hxx, Hx. ring.
Qed.

Lemma linearRegression_same_x_witness :
  at_2026 <> [] /\ same_x 2026 at_2026 /\
  linearRegression (xs_of at_2026) (ys_of at_2026) (Num 2027) = NaN.
Proof.
  assert (Hne : at_2026 <> []) by discriminate.
  assert (Hsame : same_x 2026 at_2026) by (repeat constructor).
  split; [exact Hne|]. split; [exact Hsame|].
  exact (linearRegression_same_x 2026 at_2026 (Num 2027) Hne Hsame).
Defined.

End RegressionCases.

Module GrowthCases.
Import JS Stats Forecast ForecastSpec ForecastCases QFacts GrowthFacts.

Lemma mean_const (c : Q) (l : list Q) :
  l <> [] -> Forall (fun x => x == c) l -> mean l == c.
Proof.
  intros Hne Hl. pose proof (Qlen_pos l Hne) as Hn. unfold mean.
  assert (Hsum : Qsum l == c * Qlen l).
  { clear Hne Hn. induction Hl as [|x l Hx _ IH].
    - rewrite Qlen_nil. simpl. ring.
    - rewrite Qlen_cons, Qsum_cons, IH, Hx. ring. }
  rewrite Hsum. field. lra.
Qed.

Lemma ratio_chain_changes (r a : Q) (v : list Q) :
  0 < r -> 0 < a -> ratio_chain r (a :: v) ->
  Forall (fun c => c == r - 1) (yoy_changes (a :: v)) /\
  length (yoy_changes (a :: v)) = length v.
Proof.
  intros Hr. revert a. induction v as [|b v IH]; intros a Ha Hchain.
  - split; [constructor | reflexivity].
  - destruct Hchain as [Hb Hchain].
    assert (Hbpos : 0 < b) by (rewrite Hb; now apply Qmult_lt_0_compat).
    destruct (IH b Hbpos Hchain) as (Hall & Hlen).
    unfold yoy_changes, transitions in *. cbn [tl combine List.filter fst] in *.
    apply Qltb_lt in Ha as Ha'. rewrite Ha'. cbn [map fst snd length].
    split.
    + constructor; [|exact Hall]. rewrite Hb. field. lra.
    + now rewrite Hlen.
Qed.

(** X11: on a series of two or more values that starts above zero and in
    which every value is [r] times the one before, with [r] positive, the
    growth-rate forecast is [r] times the last value (in exact
    arithmetic). *)
Theorem growthRateForecast_ratio (r : Q) (v : list Q) :
  0 < r -> (2 <= length v)%nat -> 0 < hd 0 v -> ratio_chain r v ->
  growthRateForecast (map Num v) ≈ Num (r * List.last v 0).
Proof.
  intros Hr Hlen Hhd Hchain.
  eapply same_trans; [apply growthRateForecast_projection|]. apply same_Num.
  destruct v as [|a v]; [simpl in Hlen; lia|]. cbn [hd] in Hhd.
  destruct (ratio_chain_changes r a v Hr Hhd Hchain) as (Hall & Hlen').
  unfold growth_projection. rewrite (mean_const (r - 1)); [ring | | exact Hall].
  intros Hnil. rewrite Hnil in Hlen'. cbn [length] in Hlen', Hlen. lia.
Qed.

Lemma growthRateForecast_ratio_witness :
  0 < 2 /\ (2 <= length doubling)%nat /\ 0 < hd 0 doubling /\ ratio_chain 2 doubling /\
  growthRateForecast (map Num doubling) ≈ Num (2 * List.last doubling 0).
Proof.
  assert (Hr : 0 < 2) by reflexivity.
  assert (Hlen : (2 <= length doubling)%nat) by (simpl; lia).
  assert (Hhd : 0 < hd 0 doubling) by reflexivity.
  assert (Hchain : ratio_chain 2 doubling) by (repeat split).
  split; [exact Hr|]. split; [exact Hlen|]. split; [exact Hhd|]. split; [exact Hchain|].
  exact (growthRateForecast_ratio 2 doubling Hr Hlen Hhd Hchain).
Defined.

End GrowthCases.

Module WeightedCases.
Import JS Stats Forecast ForecastCases QFacts OrderingFacts.

(** The weighted sum and the total weight of a suffix of the data, read
    together: the weighted sum of values between two bounds is between the
    bounds times the weight. *)
Lemma weighted_between (weights : list number) (suf : list Q) (k : nat)
    (acc tw lo hi : Q) :
  (forall i, (k <= i < k + length suf)%nat -> at_index weights i = of_nat (i + 1)) ->
  between lo hi suf ->
  exists q t,
    reduce_from (fun a value i => (a + value * at_index weights i)%js)
      (map Num suf) k (Num acc) = Num q /\
    fold_left add (imap (fun i _ => of_nat (i + k + 1)) (map Num suf)) (Num tw) = Num t /\
    Qlen suf <= t - tw /\ lo * (t - tw) <= q - acc /\ q - acc <= hi * (t - tw).
Proof.
  revert k acc tw. induction suf as [|x suf IH]; intros k acc tw Hw Hsuf.
  - exists acc, tw. split; [reflexivity|]. split; [reflexivity|].
    rewrite Qlen_nil. repeat split; lra.
  - inversion Hsuf as [|? ? [Hlo Hhi] Hsuf']; subst.
    cbn [map reduce_from]. rewrite Hw by (simpl; lia).
    rewrite imap_cons. cbn [fold_left add of_nat mul].
    rewrite (imap_ext _ (fun i _ => of_nat (i + S k + 1)))
      by (intros i y _; unfold compose; f_equal; lia).
    replace (0 + k + 1)%nat with (k + 1)%nat by lia.
    set (w := inject_Z (Z.of_nat (k + 1))).
    assert (Hwpos : 1 <= w).
    { unfold w. change 1 with (inject_Z 1). rewrite <- Zle_Qle. lia. }
    destruct (IH (S k) (acc + x * w) (tw + w)) as (q & t & Hq & Ht & Hn & Hl & Hh);
      [intros i Hi; apply Hw; simpl; lia | assumption |].
    exists q, t. split; [exact Hq|]. split; [exact Ht|]. rewrite Qlen_cons.
    assert (H1 : 0 <= (x - lo) * w) by (apply Qmult_le_0_compat; lra).
    assert (H2 : 0 <= (hi - x) * w) by (apply Qmult_le_0_compat; lra).
    assert (E1 : (x - lo) * w == x * w - lo * w) by ring.
    assert (E2 : (hi - x) * w == hi * w - x * w) by ring.
    assert (E3 : lo * (t - tw) == lo * (t - (tw + w)) + lo * w) by ring.
    assert (E4 : hi * (t - tw) == hi * (t - (tw + w)) + hi * w) by ring.
    repeat split; lra.
Qed.

(** X12: for values between [lo] and [hi], with [lo] not negative, the
    weighted-average forecast is a finite number between [0.95 * lo] and
    [1.05 * hi] (in exact arithmetic). *)
Theorem weightedAverageForecast_between (lo hi : Q) (v : list Q) :
  v <> [] -> 0 <= lo -> between lo hi v ->
  exists w, weightedAverageForecast (map Num v) = Num w /\
            0.95 * lo <= w /\ w <= 1.05 * hi.
Proof.
  intros Hne Hlo Hv. unfold weightedAverageForecast. rewrite length_map.
  destruct v as [|x0 v0] eqn:Hv0; [congruence|].
  change (length (x0 :: v0) =? 0)%nat with false. cbv iota. rewrite <- Hv0 in *.
  clear Hv0 x0 v0.
  set (weights := imap (fun i _ => of_nat (i + 1)) (map Num v)).
  destruct (weighted_between weights v 0 0 0 lo hi) as (q & t & Hq & Ht & Hn & Hl & Hh);
    [intros i Hi; apply weights_at; rewrite length_map; lia | assumption |].
  rewrite (imap_ext _ (fun i _ => of_nat (i + 1))) in Ht
    by (intros i y _; f_equal; lia).
  fold weights in Ht. unfold sum at 1. rewrite Ht. unfold reduce_i. rewrite Hq.
  pose proof (Qlen_pos v Hne) as Hpos.
  rewrite div_Num by lra.
  assert (Hge : lo <= q / t) by (apply Qle_shift_div_l; lra).
  assert (Hle : q / t <= hi) by (apply Qle_shift_div_r; lra).
  set (avg := q / t) in *.
  destruct (gt _ _); cbn [mul]; eexists; (split; [reflexivity|]); split; lra.
Qed.

Lemma weightedAverageForecast_between_witness :
  doubling <> [] /\ 0 <= 100 /\ between 100 800 doubling /\
  exists w, weightedAverageForecast (map Num doubling) = Num w /\
            0.95 * 100 <= w /\ w <= 1.05 * 800.
Proof.
  assert (Hne : doubling <> []) by discriminate.
  assert (Hlo : 0 <= 100) by discriminate.
  assert (Hv : between 100 800 doubling).
  { unfold between, doubling. repeat constructor; discriminate. }
  split; [exact Hne|]. split; [exact Hlo|]. split; [exact Hv|].
  exact (weightedAverageForecast_between 100 800 doubling Hne Hlo Hv).
Defined.

End WeightedCases.

Module BandCases.
Import JS Stats Forecast ForecastSpec ForecastCases QFacts BandFacts OrderingFacts.

Lemma Qsum_zero (l : list Q) : Forall (fun x => x == 0) l -> Qsum l == 0.
Proof. induction 1 as [|x l Hx _ IH]; [reflexivity|]. rewrite Qsum_cons, Hx, IH. ring. Qed.

Lemma mean_shifted (c : Q) (v : list Q) : v <> [] -> mean (shifted c v) == mean v + c.
Proof.
  intros Hne. pose proof (Qlen_pos v Hne) as Hn. unfold mean, shifted.
  rewrite Qlen_map.
  assert (Hsum : Qsum (map (fun x => x + c) v) == Qsum v + c * Qlen v).
  { clear. induction v as [|x v IH].
    - rewrite Qlen_nil. simpl. ring.
    - rewrite Qlen_cons, map_cons, !Qsum_cons, IH. ring. }
  rewrite Hsum. field. lra.
Qed.

Lemma population_variance_shifted (c : Q) (v : list Q) :
  population_variance (shifted c v) == population_variance v.
Proof.
  destruct v as [|x0 v0] eqn:Hv; [reflexivity|]. rewrite <- Hv.
  assert (Hne : v <> []) by (rewrite Hv; discriminate). clear Hv x0 v0.
  pose proof (mean_shifted c v Hne) as Hm.
  unfold population_variance.
  set (m' := mean (shifted c v)) in *. set (m := mean v) in *.
  unfold shifted. rewrite map_map. unfold mean. rewrite !Qlen_map.
  rewrite (Qsum_map_ext (fun x => (x + c - m') * (x + c - m'))
                        (fun x => (x - m) * (x - m))).
  - reflexivity.
  - intros a. rewrite Hm. ring.
Qed.

Lemma population_variance_repeat (c : Q) (n : nat) :
  population_variance (repeat c n) == 0.
Proof.
  unfold population_variance. unfold mean at 1.
  rewrite Qsum_zero; [unfold Qdiv; ring|].
  destruct n as [|n]; [constructor|].
  apply List.Forall_forall. intros q Hq. apply in_map_iff in Hq as (x & <- & Hx).
  apply repeat_spec in Hx. subst x.
  rewrite (GrowthCases.mean_const c); [ring | discriminate |].
  apply List.Forall_forall. intros y Hy. apply repeat_spec in Hy. now subst y.
Qed.

Lemma add_zero_same (p : number) (q : Q) : q == 0 -> (p + Num q)%js ≈ p.
Proof. intros Hq. destruct p; simpl; trivial. rewrite Hq. ring. Qed.

Section WithSqrt.

Context (sqrtQ : Q -> Q) `{!SqrtSpec sqrtQ}.

(** X13: the standard deviation does not change when a constant is added
    to every value, and is 0 on a series of equal values; the upper bound of
    the forecast of such a series is then the projection itself (in exact
    arithmetic, for a square root that maps 0 to 0). *)
Theorem standardDeviation_shift (c : Q) (v : list Q) (n : nat) :
  standardDeviation sqrtQ (map Num (shifted c v)) ≈ standardDeviation sqrtQ (map Num v) /\
  standardDeviation sqrtQ (map Num (repeat c n)) ≈ Num 0 /\
  forall (data : list YearPoint) (method : string) (confidence : number),
    map revenue data = map Num (repeat c n) ->
    fc_revenueHigh (calculateForecast sqrtQ data method confidence)
    ≈ projection method (map year data) (map revenue data).
Proof using All.
  assert (Hconst : standardDeviation sqrtQ (map Num (repeat c n)) ≈ Num 0).
  { eapply same_trans; [apply standardDeviation_Num; assumption|].
    apply same_Num. unfold population_sd. rewrite <- sqrt_zero.
    apply sqrt_proper, population_variance_repeat. }
  split; [|split; [exact Hconst|]].
  - eapply same_trans; [apply standardDeviation_Num; assumption|].
    eapply same_trans; [|apply same_sym, standardDeviation_Num; assumption].
    apply same_Num. unfold population_sd.
    apply sqrt_proper, population_variance_shifted.
  - intros data method confidence Hrev.
    destruct (calculateForecast_projection sqrtQ data method confidence) as (_ & _ & ->).
    rewrite Hrev. apply same_Num_inv in Hconst as (s & -> & Hs).
    destruct (getZScore_pos confidence) as (z & -> & _). cbn [mul].
    apply add_zero_same. rewrite Hs. ring.
Qed.

End WithSqrt.

Lemma standardDeviation_shift_witness :
  SqrtSpec sqrt_floor /\
  standardDeviation sqrt_floor (map Num (shifted 1000 [100; 0]))
  ≈ standardDeviation sqrt_floor (map Num [100; 0]) /\
  standardDeviation sqrt_floor (map Num (repeat 7 3)) ≈ Num 0.
Proof.
  split; [exact sqrt_floor_spec|].
  destruct (standardDeviation_shift sqrt_floor (SqrtSpec0 := sqrt_floor_spec) 1000 [100; 0] 0)
    as (Hshift & _).
  destruct (standardDeviation_shift sqrt_floor (SqrtSpec0 := sqrt_floor_spec) 7 [] 3)
    as (_ & Hconst & _).
  split; [exact Hshift | exact Hconst].
Defined.

End BandCases.

Module GrowersBand.
Import JS Stats Forecast ForecastSpec ForecastCases QFacts BandFacts OrderingFacts.

Lemma Math_round_Num (x : Q) : Math_round (Num x) = Num (inject_Z (Qfloor (x + (1 # 2)))).
Proof. reflexivity. Qed.

Lemma floor_at_zero (k : Z) :
  Math_max (Num 0) (Num (inject_Z k)) = Num (inject_Z (Z.max 0 k)).
Proof.
  rewrite Math_max_Num. change 0 with (inject_Z 0).
  destruct (Qle_bool (inject_Z 0) (inject_Z k)) eqn:H.
  - apply Qle_bool_iff in H. rewrite <- Zle_Qle in H. now rewrite Z.max_r.
  - apply Qle_bool_false in H. rewrite <- Zlt_Qlt in H. rewrite Z.max_l by lia.
    reflexivity.
Qed.

Lemma le_inject_Z (a b : Z) : le (Num (inject_Z a)) (Num (inject_Z b)) = true <-> (a <= b)%Z.
Proof. cbn [le]. rewrite Qle_bool_iff, <- Zle_Qle. reflexivity. Qed.

Section WithSqrt.

Context (sqrtQ : Q -> Q) `{!SqrtSpec sqrtQ}.

Lemma calculateForecast_growers (data : list YearPoint) (method : string)
    (confidence : number) :
  let r := calculateForecast sqrtQ data method confidence in
  let p := projection method (map year data) (map growers data) in
  let margin := (standardDeviation sqrtQ (map growers data) * getZScore confidence)%js in
  fc_growers r = Math_max (Num 0) (Math_round p) /\
  fc_growersLow r = Math_max (Num 0) (Math_round (p - margin)%js) /\
  fc_growersHigh r = Math_round (p + margin)%js.
Proof using Type.
  unfold calculateForecast, projection.
  destruct (String.eqb method "linear") eqn:Hl.
  - apply String.eqb_eq in Hl. subst method. repeat split.
  - destruct (String.eqb method "growth"); [repeat split|].
    destruct (String.eqb method "weighted"); repeat split.
Qed.

(** X14: when the numbers of growers are finite and the method projects a
    finite value, the three grower figures of the forecast are integers, the
    lower one is between 0 and the forecast, and the forecast is at most the
    upper one exactly when the upper one, which is not floored, is not
    negative. *)
Theorem growers_band (data : list YearPoint) (method : string) (confidence : number)
    (g : list Q) (f : Q) :
  map growers data = map Num g ->
  projection method (map year data) (map growers data) ≈ Num f ->
  let r := calculateForecast sqrtQ data method confidence in
  integral (fc_growers r) /\ integral (fc_growersLow r) /\ integral (fc_growersHigh r) /\
  le (Num 0) (fc_growersLow r) = true /\
  le (fc_growersLow r) (fc_growers r) = true /\
  (le (fc_growers r) (fc_growersHigh r) = true <-> le (Num 0) (fc_growersHigh r) = true).
Proof using All.
  intros Hg Hp r.
  destruct (calculateForecast_growers data method confidence) as (Hr & Hlow & Hhigh).
  fold r in Hr, Hlow, Hhigh. rewrite Hr, Hlow, Hhigh, Hg. clear Hr Hlow Hhigh.
  rewrite Hg in Hp. apply same_Num_inv in Hp as (f' & -> & _).
  destruct (same_Num_inv _ _ (standardDeviation_Num sqrtQ g)) as (sd & -> & Hsd).
  destruct (getZScore_pos confidence) as (z & -> & Hz).
  pose proof (population_sd_nonneg sqrtQ g) as Hpsd. rewrite <- Hsd in Hpsd.
  assert (Hm : 0 <= sd * z) by (apply Qmult_le_0_compat; lra).
  cbn [mul sub add neg]. rewrite !Math_round_Num, !floor_at_zero.
  set (m := sd * z) in *.
  assert (Hab : (Qfloor (f' + - m + (1 # 2)) <= Qfloor (f' + (1 # 2)))%Z)
    by (apply Qfloor_resp_le; lra).
  assert (Hbc : (Qfloor (f' + (1 # 2)) <= Qfloor (f' + m + (1 # 2)))%Z)
    by (apply Qfloor_resp_le; lra).
  set (a := Qfloor (f' + - m + (1 # 2))) in *.
  set (b := Qfloor (f' + (1 # 2))) in *.
  set (c := Qfloor (f' + m + (1 # 2))) in *.
  split; [now eexists|]. split; [now eexists|]. split; [now eexists|].
  change (Num 0) with (Num (inject_Z 0)). rewrite !le_inject_Z.
  repeat split; lia.
Qed.

End WithSqrt.

Lemma growers_band_witness :
  SqrtSpec sqrt_floor /\
  map growers (yearly_growers [(2025, 10); (2026, 12)]) = map Num [10; 12] /\
  projection "growth" (map year (yearly_growers [(2025, 10); (2026, 12)]))
    (map growers (yearly_growers [(2025, 10); (2026, 12)])) ≈ Num (72 # 5) /\
  le (fc_growersLow (calculateForecast sqrt_floor (yearly_growers [(2025, 10); (2026, 12)])
                       "growth" (Num 0.90)))
     (fc_growers (calculateForecast sqrt_floor (yearly_growers [(2025, 10); (2026, 12)])
                    "growth" (Num 0.90))) = true.
Proof.
  assert (Hp : projection "growth" (map year (yearly_growers [(2025, 10); (2026, 12)]))
                 (map growers (yearly_growers [(2025, 10); (2026, 12)])) ≈ Num (72 # 5))
    by (vm_compute; reflexivity).
  split; [exact sqrt_floor_spec|]. split; [reflexivity|]. split; [exact Hp|].
  exact (proj1 (proj2 (proj2 (proj2 (proj2
    (growers_band sqrt_floor (SqrtSpec0 := sqrt_floor_spec)
       (yearly_growers [(2025, 10); (2026, 12)]) "growth" (Num 0.90) [10; 12] (72 # 5)
       eq_refl Hp)))))).
Defined.

End GrowersBand.

(** ** The historical and grower tabs *)

Module HistoryFacts.
Import JS Stats Data Forecast Charts QFacts RetentionFacts.

Lemma last_default {A} (l : list A) (d d' : A) : l <> [] -> List.last l d = List.last l d'.
Proof.
  induction l as [|a [|b l] IH]; intros Hne; [congruence | reflexivity |].
  change (List.last (b :: l) d = List.last (b :: l) d'). apply IH. discriminate.
Qed.

(** The growth rates of a series with one more value. *)
Lemma growthRates_snoc (l : list number) (value : number) :
  growthRates (l ++ [value]) =
  growthRates l ++
  [if (length l =? 0)%nat then Num 0
   else if truthy (List.last l (Num 0))
        then ((value - List.last l (Num 0)) / List.last l (Num 0) * Num 100)%js
        else Num 0].
Proof.
  unfold growthRates. rewrite imap_app. f_equal.
  - apply imap_ext. intros i x Hi. apply lookup_lt_Some in Hi.
    destruct (i =? 0)%nat; [reflexivity|].
    unfold at_index. rewrite app_nth1 by lia. reflexivity.
  - cbn [imap]. rewrite Nat.add_0_r.
    destruct (Nat.eqb_spec (length l) 0) as [Hz | Hnz]; [reflexivity|].
    assert (Hne : l <> []) by (intros ->; now apply Hnz).
    unfold at_index. rewrite app_nth1 by lia.
    rewrite GrowthFacts.nth_pred_length, (last_default l NaN (Num 0)) by assumption.
    reflexivity.
Qed.

Section WithDate.

Variable Date_fields : string -> option (Z * nat).

Lemma historical_fold (data : list Transaction) (years : list Z) (product : string) :
  let state :=
    fold_left
      (fun '(rows, prevRevenue) year =>
         let row := historicalRow Date_fields data product prevRevenue year in
         (rows ++ [row], row_revenue row))
      years ([], Num 0) in
  map row_revenue (fst state) = yearlyRevenue Date_fields data years product /\
  map row_growth (fst state) = growthRates (yearlyRevenue Date_fields data years product) /\
  snd state = List.last (yearlyRevenue Date_fields data years product) (Num 0) /\
  map row_year (fst state) = years.
Proof using Type.
  induction years as [|year years IH] using rev_ind; [repeat split|].
  cbn zeta in *. rewrite fold_left_app. cbn [fold_left].
  destruct (fold_left _ years ([], Num 0)) as [rows prevRevenue].
  cbn [fst snd] in *. destruct IH as (Hrev & Hgrowth & Hprev & Hyears).
  unfold yearlyRevenue in *. rewrite !map_app. cbn [map].
  rewrite growthRates_snoc, last_last.
  set (ys := map _ years) in *.
  rewrite Hrev, Hgrowth, Hyears. split; [reflexivity|]. split; [|split; reflexivity].
  do 2 f_equal. cbn [historicalRow row_growth]. subst prevRevenue.
  destruct (Nat.eqb_spec (length ys) 0) as [Hz | Hnz]; [|reflexivity].
  apply length_zero_iff_nil in Hz. rewrite Hz. reflexivity.
Qed.

(** X15: the rows of the historical summary table carry the years asked
    for, the revenues of the revenue chart and, as their growth, exactly the
    growth rates of the growth-rate chart for the same years and product. *)
Theorem historical_table_matches_charts (data : list Transaction) (years : list Z)
    (product : string) :
  let rows := updateHistoricalTable Date_fields data years product in
  map row_year rows = years /\
  map row_revenue rows = yearlyRevenue Date_fields data years product /\
  map row_growth rows = createGrowthRateChart Date_fields data years product.
Proof using Type.
  destruct (historical_fold data years product) as (Hrev & Hgrowth & _ & Hyears).
  cbn zeta. unfold updateHistoricalTable, createGrowthRateChart.
  split; [exact Hyears|]. split; [exact Hrev | exact Hgrowth].
Qed.

End WithDate.

End HistoryFacts.

Module GrowerTabFacts.
Import JS Stats Data Retention Aggregation Charts QFacts RetentionFacts.

Lemma growerStats_rate (cur prev : list Transaction) :
  exists q, retentionRate (growerStats cur prev) = Num q /\ 0 <= q /\ q <= 100.
Proof.
  set (returning := size (growers_of cur ∩ growers_of prev)).
  set (previous := size (growers_of prev)).
  assert (Hle : (returning <= previous)%nat) by (apply subseteq_size, intersection_subseteq_r).
  assert (Hrate : retentionRate (growerStats cur prev) =
                  if (previous =? 0)%nat then Num 0
                  else (of_nat returning / of_nat previous * Num 100)%js).
  { unfold growerStats. cbn [retentionRate].
    rewrite count_inter by apply NoDup_of_list.
    rewrite size_of_list, !list_to_set_of_list. reflexivity. }
  rewrite Hrate. destruct (Nat.eqb_spec previous 0) as [Hz | Hnz].
  - exists 0. split; [reflexivity|]. split; lra.
  - rewrite rate_Num by assumption.
    destruct (ratio_bounds returning previous Hle Hnz).
    eexists. split; [reflexivity|]. split; assumption.
Qed.

Section WithDate.

Variable Date_fields : string -> option (Z * nat).

(** X16: the retention rate of the overview and the points of the
    retention trend are the rate of the grower tab for the same data and
    year, except the first point of the trend, which is 0 whatever the data
    of 2021 and 2022; every point of the trend is between 0 and 100. *)
Theorem retention_rates_agree (data : list Transaction) :
  (forall currentYear : Z,
      ov_retentionRate (updateOverviewStats Date_fields data currentYear)
      = retentionRate (updateGrowerStats (Date_getFullYear Date_fields) data currentYear)) /\
  retentionData Date_fields data
  = Num 0 :: map (fun yr => retentionRate
                              (updateGrowerStats (Date_getFullYear Date_fields) data yr))
                 (tl Config.YEARS) /\
  Forall (fun x => exists q, x = Num q /\ 0 <= q /\ q <= 100)
         (retentionData Date_fields data).
Proof using Type.
  assert (Htrend : retentionData Date_fields data
                   = Num 0 :: map (fun yr => retentionRate
                                     (updateGrowerStats (Date_getFullYear Date_fields) data yr))
                                  (tl Config.YEARS)) by reflexivity.
  split; [reflexivity|]. split; [exact Htrend|]. rewrite Htrend.
  constructor.
  - exists 0. split; [reflexivity|]. split; lra.
  - apply Forall_map, Forall_forall. intros yr _. apply growerStats_rate.
Qed.

Lemma sum_amount_nonneg (data : list Transaction) :
  Forall nonneg_amount data -> exists q, sum_amount data = Num q /\ 0 <= q.
Proof using Type.
  intros Hd. unfold sum_amount.
  assert (Hgen : forall acc, 0 <= acc ->
            exists q, fold_left (fun sum d => (sum + amount d)%js) data (Num acc) = Num q
                      /\ 0 <= q).
  { induction Hd as [|d data (a & Ha & Hpos) _ IH]; intros acc Hacc.
    - exists acc. split; [reflexivity | assumption].
    - cbn [fold_left]. rewrite Ha. cbn [add]. apply IH. lra. }
  apply Hgen. lra.
Qed.

Lemma change_bound (cur last : Q) :
  0 <= cur -> 0 < last -> -100 <= (cur + - last) / last * 100.
Proof.
  intros Hcur Hlast.
  assert (H : 0 <= cur / last) by (apply Qle_shift_div_l; lra).
  assert (E : (cur + - last) / last == cur / last - 1) by (field; lra).
  rewrite E. lra.
Qed.

(** X17: in the overview the distinct growers of the year are at most its
    orders; the change of the orders is a finite number, not below -100
    (per cent); so is the change of the revenue when the amounts are finite
    and not negative. *)
Theorem overview_changes (data : list Transaction) (currentYear : Z) :
  let s := updateOverviewStats Date_fields data currentYear in
  (ov_growers s <= ov_orders s)%nat /\
  (exists q, ov_ordersChange s = Num q /\ -100 <= q) /\
  (Forall nonneg_amount data -> exists q, ov_revenueChange s = Num q /\ -100 <= q).
Proof using Type.
  cbn zeta. unfold updateOverviewStats.
  cbn [ov_growers ov_orders ov_ordersChange ov_revenueChange].
  set (cur := Charts.filterDataByYear Date_fields data currentYear).
  set (last := Charts.filterDataByYear Date_fields data (currentYear - 1)).
  split; [|split].
  - unfold count_growers. rewrite <- (length_map grower_name cur).
    apply SummaryFacts.size_of_list_le.
  - destruct (Nat.eqb_spec (length last) 0) as [Hz | Hnz].
    + exists 0. split; [reflexivity | lra].
    + pose proof (Qnat_pos _ Hnz) as Hpos. pose proof (Qnat_nonneg (length cur)) as Hcur.
      unfold Qnat in *. unfold of_nat. cbn [sub add neg].
      rewrite div_Num by lra. cbn [mul]. eexists. split; [reflexivity|].
      now apply change_bound.
  - intros Hd.
    assert (Hsub : forall y, Forall nonneg_amount (Charts.filterDataByYear Date_fields data y)).
    { intros y. unfold Charts.filterDataByYear, Retention.filterDataByYear.
      apply List.Forall_forall. intros d Hin. apply filter_In in Hin as [Hin _].
      rewrite List.Forall_forall in Hd. now apply Hd. }
    destruct (sum_amount_nonneg cur (Hsub _)) as (c & -> & Hc).
    destruct (sum_amount_nonneg last (Hsub _)) as (l & -> & Hl).
    cbn [truthy]. destruct (Qeq_bool l 0) eqn:Hz; cbn [negb].
    + exists 0. split; [reflexivity | lra].
    + apply Qeq_bool_false in Hz. cbn [sub add neg].
      rewrite div_Num by assumption. cbn [mul]. eexists. split; [reflexivity|].
      apply change_bound; lra.
Qed.

End WithDate.

Lemma three_sales_nonneg : Forall nonneg_amount three_sales.
Proof.
  unfold three_sales, sale_on.
  repeat constructor; eexists; (split; [reflexivity | discriminate]).
Qed.

Lemma overview_changes_witness :
  Forall nonneg_amount three_sales /\
  exists q, ov_revenueChange (updateOverviewStats iso_fields three_sales 2024) = Num q
            /\ -100 <= q.
Proof.
  split; [exact three_sales_nonneg|].
  exact (proj2 (proj2 (overview_changes iso_fields three_sales 2024)) three_sales_nonneg).
Defined.

End GrowerTabFacts.

(** ** The monthly charts *)

Module MonthlyFacts.
Import JS Stats Data Forecast Aggregation Charts QFacts.

Lemma Qsum_map_plus {A} (f g : A -> Q) (l : list A) :
  Qsum (map (fun a => f a + g a) l) == Qsum (map f l) + Qsum (map g l).
Proof.
  induction l as [|a l IH]; [reflexivity|]. rewrite !map_cons, !Qsum_cons, IH. ring.
Qed.

Lemma Qsum_map_div {A} (f : A -> Q) (c : Q) (l : list A) :
  Qsum (map (fun a => f a / c) l) == Qsum (map f l) / c.
Proof.
  unfold Qdiv. induction l as [|a l IH]; [simpl; ring|].
  rewrite !map_cons, !Qsum_cons, IH. ring.
Qed.

Lemma Qsum_map_times {A} (f : A -> Q) (c : Q) (l : list A) :
  Qsum (map (fun a => c * f a) l) == c * Qsum (map f l).
Proof.
  induction l as [|a l IH]; [simpl; ring|]. rewrite !map_cons, !Qsum_cons, IH. ring.
Qed.

Lemma Qsum_swap {A B} (F : A -> B -> Q) (la : list A) (lb : list B) :
  Qsum (map (fun a => Qsum (map (fun b => F a b) lb)) la)
  == Qsum (map (fun b => Qsum (map (fun a => F a b) la)) lb).
Proof.
  induction la as [|a la IH].
  - cbn [map Qsum fold_right]. induction lb as [|b lb IHb]; [reflexivity|].
    rewrite map_cons, Qsum_cons, <- IHb. ring.
  - rewrite map_cons, Qsum_cons, IH.
    rewrite (Qsum_map_ext (fun b => Qsum (map (fun a0 => F a0 b) (a :: la)))
                          (fun b => F a b + Qsum (map (fun a0 => F a0 b) la)))
      by (intros b; reflexivity).
    now rewrite Qsum_map_plus.
Qed.

(** Adding [a] to the term of index [m] of a sum over consecutive indices. *)
Lemma Qsum_indicator (F : nat -> Q) (m : nat) (a : Q) (s n : nat) :
  Qsum (map (fun i => (if (m =? i)%nat then a else 0) + F i) (seq s n))
  == (if ((s <=? m) && (m <? s + n))%nat then a else 0) + Qsum (map F (seq s n)).
Proof.
  revert s. induction n as [|n IH]; intros s.
  - rewrite Nat.add_0_r. cbn [seq map Qsum fold_right].
    destruct (Nat.leb_spec s m), (Nat.ltb_spec m s); cbn [andb]; try lia; ring.
  - cbn [seq map]. rewrite !Qsum_cons, IH.
    destruct (Nat.eqb_spec m s), (Nat.leb_spec s m), (Nat.leb_spec (S s) m),
      (Nat.ltb_spec m (S s + n)), (Nat.ltb_spec m (s + S n)); cbn [andb]; try lia; ring.
Qed.

(** *** Finite amounts *)

Lemma finite_amounts_filter (P : Transaction -> bool) (data : list Transaction) :
  finite_amounts data -> finite_amounts (List.filter P data).
Proof.
  unfold finite_amounts. rewrite !List.Forall_forall. intros H d Hd.
  apply filter_In in Hd as [Hd _]. now apply H.
Qed.

Lemma sum_amount_Num (data : list Transaction) :
  finite_amounts data ->
  exists q, sum_amount data = Num q /\ q == Qsum (map amount_value data).
Proof.
  intros Hd. unfold sum_amount.
  assert (Hgen : forall acc,
            exists q, fold_left (fun sum d => (sum + amount d)%js) data (Num acc) = Num q
                      /\ q == acc + Qsum (map amount_value data)).
  { induction Hd as [|d data (a & Ha) _ IH]; intros acc.
    - exists acc. split; [reflexivity | simpl; ring].
    - cbn [fold_left]. rewrite Ha. cbn [add].
      destruct (IH (acc + a)) as (q & -> & Hq). exists q. split; [reflexivity|].
      rewrite Hq, map_cons, Qsum_cons. unfold amount_value at 2. rewrite Ha. ring. }
  destruct (Hgen 0) as (q & Hq & Hv). exists q. split; [exact Hq|]. rewrite Hv. ring.
Qed.

(** A sum of finite numbers, read as a sum of rationals. *)
Lemma sum_map_Num {A} (f : A -> number) (g : A -> Q) (s : list A) :
  (forall i, In i s -> exists q, f i = Num q /\ q == g i) ->
  exists q, sum (map f s) = Num q /\ q == Qsum (map g s).
Proof.
  intros Hf. unfold sum.
  assert (Hgen : forall acc,
            exists q, fold_left add (map f s) (Num acc) = Num q
                      /\ q == acc + Qsum (map g s)).
  { induction s as [|i s IH]; intros acc.
    - exists acc. split; [reflexivity | simpl; ring].
    - destruct (Hf i (or_introl eq_refl)) as (x & Hx & Hxg).
      cbn [map fold_left]. rewrite Hx. cbn [add].
      destruct (IH (fun j Hj => Hf j (or_intror Hj)) (acc + x)) as (q & -> & Hq).
      exists q. split; [reflexivity|]. rewrite Hq, Qsum_cons, Hxg. ring. }
  destruct (Hgen 0) as (q & Hq & Hv). exists q. split; [exact Hq|]. rewrite Hv. ring.
Qed.

Lemma sum_amount_fold (data : list Transaction) :
  finite_amounts data ->
  sum_amount data = Num (fold_left Qplus (map amount_value data) 0).
Proof.
  intros Hd. unfold sum_amount.
  assert (Hgen : forall acc,
            fold_left (fun sum d => (sum + amount d)%js) data (Num acc)
            = Num (fold_left Qplus (map amount_value data) acc)).
  { induction Hd as [|d data (a & Ha) _ IH]; intros acc; [reflexivity|].
    assert (Hav : amount_value d = a) by (unfold amount_value; now rewrite Ha).
    cbn [fold_left map]. rewrite Ha, Hav. cbn [add]. apply IH. }
  apply Hgen.
Qed.

Lemma filter_and {A} (P R : A -> bool) (l : list A) :
  List.filter (fun d => P d && R d) l = List.filter R (List.filter P l).
Proof.
  induction l as [|d l IH]; [reflexivity|]. cbn [List.filter].
  destruct (P d); cbn [andb List.filter]; [|exact IH]. destruct (R d); now rewrite IH.
Qed.

(** The regression over the five years of the configuration is finite on
    finite values: the years are distinct. *)
Lemma yearly_regression_finite (h : Z -> Q) :
  exists f, linearRegression YEARS_numbers (map (fun yr => Num (h yr)) Config.YEARS)
              (Num 2027) = Num f.
Proof.
  set (pts := map (fun yr => (inject_Z yr, h yr)) Config.YEARS).
  assert (Hd : ForecastSpec.two_distinct_x pts).
  { exists (inject_Z 2022, h 2022%Z), (inject_Z 2023, h 2023%Z).
    split; [now left|]. split; [right; now left|]. cbn [fst]. intros H. discriminate H. }
  pose proof (RegressionFacts.linearRegression_fit pts 2027 Hd) as Hfit.
  apply BandFacts.same_Num_inv in Hfit as (f & Hf & _). exists f. exact Hf.
Qed.

Section WithDate.

Variable Date_fields : string -> option (Z * nat).

Hypothesis months : valid_months Date_fields.

Lemma month_of_year (data : list Transaction) (y : Z) (d : Transaction) :
  In d (Charts.filterDataByYear Date_fields data y) ->
  exists m, Date_getMonth Date_fields (date d) = Some m /\ (m < 12)%nat.
Proof using months.
  intros Hd. apply filter_In in Hd as [_ Hy].
  unfold Date_getFullYear, Date_getMonth in *.
  destruct (Date_fields (date d)) as [[y' m]|] eqn:Hf; [|discriminate Hy].
  exists m. split; [reflexivity|]. now apply (months _ _ _ Hf).
Qed.

(** The amounts of the twelve months add up to the amounts of the list. *)
Lemma buckets_total (l : list Transaction) :
  (forall d, In d l ->
     exists m, Date_getMonth Date_fields (date d) = Some m /\ (m < 12)%nat) ->
  Qsum (map (fun i => Qsum (map amount_value (List.filter (month_is Date_fields i) l)))
            (seq 0 12))
  == Qsum (map amount_value l).
Proof using Type.
  induction l as [|d l IH]; intros Hl; [reflexivity|].
  destruct (Hl d (or_introl eq_refl)) as (m & Hm & Hlt).
  rewrite (Qsum_map_ext _
             (fun i => (if (m =? i)%nat then amount_value d else 0)
                       + Qsum (map amount_value (List.filter (month_is Date_fields i) l)))).
  - rewrite Qsum_indicator.
    replace ((0 <=? m) && (m <? 0 + 12))%nat with true
      by (symmetry; apply andb_true_iff; split; [apply Nat.leb_le | apply Nat.ltb_lt]; lia).
    rewrite IH by (intros d' Hd'; apply Hl; now right).
    rewrite map_cons, Qsum_cons. reflexivity.
  - intros i. cbn [List.filter]. unfold month_is at 1. rewrite Hm.
    destruct (m =? i)%nat; [rewrite map_cons, Qsum_cons; reflexivity | ring].
Qed.

(** X18: when the amounts are finite, the twelve values of the monthly
    chart of the overview add up to the total revenue of the year shown
    above it (in exact arithmetic; the months of a date are 0 to 11). *)
Theorem monthlyData_total (data : list Transaction) (currentYear : Z) :
  finite_amounts data ->
  sum (monthlyData Date_fields data currentYear)
  ≈ ov_totalRevenue (updateOverviewStats Date_fields data currentYear).
Proof using months.
  intros Hfin. unfold monthlyData, updateOverviewStats. cbn [ov_totalRevenue].
  set (yearData := Charts.filterDataByYear Date_fields data currentYear).
  assert (Hyear : finite_amounts yearData) by now apply finite_amounts_filter.
  destruct (sum_map_Num
              (fun index =>
                 sum_amount
                   (List.filter
                      (fun d => year_is Date_fields currentYear d
                                && month_is Date_fields index d) data))
              (fun index =>
                 Qsum (map amount_value (List.filter (month_is Date_fields index) yearData)))
              (seq 0 12)) as (q & -> & Hq).
  { intros i _. rewrite filter_and.
    change (List.filter (year_is Date_fields currentYear) data) with yearData.
    apply sum_amount_Num. now apply finite_amounts_filter. }
  destruct (sum_amount_Num yearData Hyear) as (t & -> & Ht).
  apply same_Num. rewrite Hq, Ht. apply buckets_total.
  intros d Hd. now apply (month_of_year data currentYear).
Qed.

Lemma distribution_fold (index : nat) (data : list Transaction) (years : list Z) (a b : Q) :
  finite_amounts data ->
  exists tm ty,
    fold_left
      (fun '(totalMonthRevenue, totalYearRevenue) yr =>
         let yearData := Charts.filterDataByYear Date_fields data yr in
         let monthData := List.filter (month_is Date_fields index) yearData in
         ((totalMonthRevenue + sum_amount monthData)%js,
          (totalYearRevenue + sum_amount yearData)%js))
      years (Num a, Num b) = (Num tm, Num ty) /\
    tm == a + Qsum (map (fun yr =>
                           Qsum (map amount_value
                                   (List.filter (month_is Date_fields index)
                                      (Charts.filterDataByYear Date_fields data yr))))
                        years) /\
    ty == b + Qsum (map (fun yr =>
                           Qsum (map amount_value
                                   (Charts.filterDataByYear Date_fields data yr)))
                        years).
Proof using Type.
  intros Hfin. revert a b. induction years as [|yr years IH]; intros a b.
  - exists a, b. split; [reflexivity|]. split; simpl; ring.
  - cbn [fold_left].
    set (yearData := Charts.filterDataByYear Date_fields data yr).
    assert (Hyear : finite_amounts yearData) by now apply finite_amounts_filter.
    destruct (sum_amount_Num yearData Hyear) as (t & Ht' & Ht).
    destruct (sum_amount_Num (List.filter (month_is Date_fields index) yearData)
                (finite_amounts_filter _ _ Hyear)) as (m & Hm' & Hm).
    rewrite Ht', Hm'.
    destruct (IH (a + m) (b + t)) as (tm & ty & Hfold & Htm & Hty).
    exists tm, ty. split; [exact Hfold|].
    rewrite !map_cons, !Qsum_cons. fold yearData. rewrite Htm, Hty, Hm, Ht. split; ring.
Qed.

(** The share of a month, as a rational: a twelfth when the revenue of the
    five years is zero. *)
Lemma distribution_value (data : list Transaction) :
  finite_amounts data ->
  exists T : Q, exists M : nat -> Q,
    Qsum (map M (seq 0 12)) == T /\
    exists dist : nat -> number,
      monthlyDistribution Date_fields data = map dist (seq 0 12) /\
      forall i, exists q, dist i = Num q /\
                          q == if Qeq_bool T 0 then 1 / 12 else M i / T.
Proof using months.
  intros Hfin.
  set (year_total := fun yr =>
         Qsum (map amount_value (Charts.filterDataByYear Date_fields data yr))).
  set (month_total := fun (i : nat) yr =>
         Qsum (map amount_value
                 (List.filter (month_is Date_fields i)
                    (Charts.filterDataByYear Date_fields data yr)))).
  exists (Qsum (map year_total Config.YEARS)).
  exists (fun i => Qsum (map (month_total i) Config.YEARS)).
  split.
  { rewrite (Qsum_swap month_total). apply Qsum_map_ext. intros yr.
    apply buckets_total. intros d Hd. now apply (month_of_year data yr). }
  eexists. split; [reflexivity|]. intros i. cbn beta.
  destruct (distribution_fold i data Config.YEARS 0 0 Hfin) as (tm & ty & Hfold & Htm & Hty).
  rewrite Hfold. fold (month_total i) in Htm. fold year_total in Hty.
  rewrite Qplus_0_l in Htm, Hty. cbn [truthy].
  rewrite (NumberFacts.Qeq_bool_comp ty _ 0 0 Hty (Qeq_refl 0)).
  destruct (Qeq_bool (Qsum (map year_total Config.YEARS)) 0) eqn:Hz; cbn [negb].
  - eexists. split; [reflexivity|]. reflexivity.
  - apply Qeq_bool_false in Hz. rewrite div_Num by (rewrite Hty; exact Hz).
    eexists. split; [reflexivity|]. now rewrite Htm, Hty.
Qed.

(** X19: when the amounts are finite and not negative, the twelve shares of
    the monthly distribution add up to 1 and the twelve monthly forecasts add
    up to the forecast of 2027 they split (in exact arithmetic; the months of
    a date are 0 to 11).  Without negative amounts the revenue of the five
    years is zero in the arithmetic of the language exactly when it is zero
    here, so the same branch is taken. *)
Theorem monthlyForecast_total (data : list Transaction) :
  Forall nonneg_amount data ->
  sum (monthlyDistribution Date_fields data) ≈ Num 1 /\
  sum (monthlyForecast Date_fields data) ≈ forecast2027 Date_fields data.
Proof using months.
  intros Hnonneg.
  assert (Hfin : finite_amounts data).
  { unfold finite_amounts. eapply Forall_impl; [exact Hnonneg|].
    intros d (a & Ha & _). now exists a. }
  destruct (distribution_value data Hfin) as (T & M & HM & dist & Hdist & Hq).
  set (share := fun i => if Qeq_bool T 0 then 1 / 12 else M i / T).
  assert (Hone : Qsum (map share (seq 0 12)) == 1).
  { unfold share. destruct (Qeq_bool T 0) eqn:Hz; [reflexivity|].
    apply Qeq_bool_false in Hz. rewrite Qsum_map_div, HM. now field. }
  split.
  - rewrite Hdist. destruct (sum_map_Num dist share (seq 0 12)) as (q & -> & Hsum).
    + intros i _. apply Hq.
    + apply same_Num. now rewrite Hsum.
  - assert (Hf : exists f, forecast2027 Date_fields data = Num f).
    { unfold forecast2027.
      rewrite (map_ext (fun yr => sum_amount (Charts.filterDataByYear Date_fields data yr))
                 (fun yr => Num (fold_left Qplus
                                   (map amount_value
                                      (Charts.filterDataByYear Date_fields data yr)) 0))).
      - apply yearly_regression_finite.
      - intros yr. apply sum_amount_fold. now apply finite_amounts_filter. }
    destruct Hf as (f & Hf). unfold monthlyForecast. rewrite Hf, Hdist, map_map.
    destruct (sum_map_Num (fun i => (Num f * dist i)%js) (fun i => f * share i) (seq 0 12))
      as (q & -> & Hsum).
    + intros i _. destruct (Hq i) as (x & -> & Hx). cbn [mul].
      eexists. split; [reflexivity|]. fold (share i) in Hx. now rewrite Hx.
    + apply same_Num. rewrite Hsum, Qsum_map_times, Hone. ring.
Qed.

End WithDate.

Lemma iso_months : valid_months iso_fields.
Proof.
  intros s y m. unfold iso_fields.
  destruct (Str.la s) as [|y1 [|y2 [|y3 [|y4 [|dash [|m1 [|m2 rest]]]]]]]; try discriminate.
  destruct (forallb _ _ && _); [|discriminate].
  destruct (NumText.digits [y1; y2; y3; y4] 0 0) as [[yr ?] ?].
  destruct (NumText.digits [m1; m2] 0 0) as [[mo ?] ?].
  destruct ((1 <=? mo)%Z && (mo <=? 12)%Z) eqn:Hmo; [|discriminate].
  intros [= <- <-]. apply andb_true_iff in Hmo as [H1 H2].
  apply Z.leb_le in H1, H2. lia.
Qed.

Lemma three_sales_finite : finite_amounts three_sales.
Proof. unfold three_sales, sale_on. repeat constructor; now eexists. Qed.

Lemma monthlyData_total_witness :
  valid_months iso_fields /\ finite_amounts three_sales /\
  sum (monthlyData iso_fields three_sales 2024)
  ≈ ov_totalRevenue (updateOverviewStats iso_fields three_sales 2024).
Proof.
  split; [exact iso_months|]. split; [exact three_sales_finite|].
  exact (monthlyData_total iso_fields iso_months three_sales 2024 three_sales_finite).
Defined.

Lemma monthlyForecast_total_witness :
  valid_months iso_fields /\ Forall nonneg_amount three_sales /\
  sum (monthlyDistribution iso_fields three_sales) ≈ Num 1 /\
  sum (monthlyForecast iso_fields three_sales) ≈ forecast2027 iso_fields three_sales.
Proof.
  split; [exact iso_months|]. split; [exact GrowerTabFacts.three_sales_nonneg|].
  exact (monthlyForecast_total iso_fields iso_months three_sales
           GrowerTabFacts.three_sales_nonneg).
Defined.

End MonthlyFacts.

(** ** The forecast of the stored data *)

Module RunForecastFacts.
Import JS Stats Data Forecast ForecastSpec ForecastCases Aggregation Charts.
Import QFacts BandFacts OrderingFacts MonthlyFacts.

Lemma projection_finite (method : string) (h : Z -> Q) :
  (forall yr, 0 <= h yr) ->
  finite (projection method YEARS_numbers (map (fun yr => Num (h yr)) Config.YEARS)).
Proof.
  intros Hh. unfold projection, finite.
  assert (Hnn : Forall (fun x => 0 <= x) (map h Config.YEARS)).
  { apply Forall_map, Forall_forall. intros yr _. apply Hh. }
  destruct (String.eqb method "growth"); [|destruct (String.eqb method "weighted")].
  - rewrite <- (map_map h Num).
    pose proof (GrowthFacts.growthRateForecast_projection (map h Config.YEARS)) as Hg.
    apply same_Num_inv in Hg as (f & Hf & _). now exists f.
  - rewrite <- (map_map h Num).
    destruct (weightedAverageForecast_nonneg _ Hnn) as (w & Hw & _). now exists w.
  - apply yearly_regression_finite.
Qed.

Lemma finite_max (x : number) : finite x -> finite (Math_max (Num 0) x).
Proof. intros (q & ->). rewrite Math_max_Num. now eexists. Qed.

Lemma finite_round (x : number) : finite x -> finite (Math_round x).
Proof. intros (q & ->). now eexists. Qed.

Lemma finite_add (x y : number) : finite x -> finite y -> finite (x + y)%js.
Proof. intros (q & ->) (r & ->). now eexists. Qed.

Lemma finite_sub (x y : number) : finite x -> finite y -> finite (x - y)%js.
Proof. intros (q & ->) (r & ->). now eexists. Qed.

Section WithDate.

Variable Date_fields : string -> option (Z * nat).

Context (sqrtQ : Q -> Q) `{!SqrtSpec sqrtQ}.

Lemma margin_finite (v : list Q) (confidence : number) :
  finite (standardDeviation sqrtQ (map Num v) * getZScore confidence)%js.
Proof using All.
  destruct (same_Num_inv _ _ (standardDeviation_Num sqrtQ v)) as (sd & -> & _).
  destruct (getZScore_pos confidence) as (z & -> & _). now eexists.
Qed.

(** X20: on stored data whose amounts are finite and not negative, every
    figure of the forecast is a finite number, whatever the method and the
    confidence level: the five years of the configuration are distinct, so
    the regression never divides zero by zero. *)
Theorem runForecast_finite (data : list Transaction) (method : string)
    (confidence : number) :
  Forall nonneg_amount data ->
  let r := runForecast Date_fields sqrtQ data method confidence in
  finite (fc_revenue r) /\ finite (fc_revenueLow r) /\ finite (fc_revenueHigh r) /\
  finite (fc_growers r) /\ finite (fc_growersLow r) /\ finite (fc_growersHigh r).
Proof using All.
  intros Hd r. unfold r, runForecast.
  assert (Hfin : finite_amounts data).
  { eapply Forall_impl; [exact Hd|]. intros d (a & Ha & _). now exists a. }
  set (rev := fun yr =>
         fold_left Qplus
           (map amount_value (Charts.filterDataByYear Date_fields data yr)) 0).
  set (cnt := fun yr =>
         Qnat (count_growers (Charts.filterDataByYear Date_fields data yr))).
  assert (Hyears : map Forecast.year (yearlyData Date_fields data) = YEARS_numbers) by reflexivity.
  assert (Hrev : map Forecast.revenue (yearlyData Date_fields data)
                 = map (fun yr => Num (rev yr)) Config.YEARS).
  { unfold yearlyData. rewrite map_map. cbn [Forecast.revenue]. apply map_ext. intros yr.
    apply sum_amount_fold. now apply finite_amounts_filter. }
  assert (Hgro : map Forecast.growers (yearlyData Date_fields data)
                 = map (fun yr => Num (cnt yr)) Config.YEARS) by reflexivity.
  assert (Hrev0 : forall yr, 0 <= rev yr).
  { intros yr. unfold rev. rewrite fold_left_Qplus, Qplus_0_l.
    apply Qsum_nonneg, Forall_map, List.Forall_forall. intros d Hin.
    apply filter_In in Hin as [Hin _]. rewrite List.Forall_forall in Hd.
    destruct (Hd d Hin) as (a & Ha & Hpos). unfold amount_value. now rewrite Ha. }
  assert (Hcnt0 : forall yr, 0 <= cnt yr) by (intros yr; apply RetentionFacts.Qnat_nonneg).
  destruct (calculateForecast_projection sqrtQ (yearlyData Date_fields data) method
              confidence) as (-> & -> & ->).
  destruct (GrowersBand.calculateForecast_growers sqrtQ (yearlyData Date_fields data)
              method confidence) as (-> & -> & ->).
  rewrite Hyears, Hrev, Hgro.
  pose proof (projection_finite method rev Hrev0) as Hp.
  pose proof (projection_finite method cnt Hcnt0) as Hg.
  pose proof (margin_finite (map rev Config.YEARS) confidence) as Hm.
  pose proof (margin_finite (map cnt Config.YEARS) confidence) as Hgm.
  rewrite !map_map in Hm, Hgm.
  split; [now apply finite_max|].
  split; [now apply finite_max, finite_sub|].
  split; [now apply finite_add|].
  split; [now apply finite_max, finite_round|].
  split; [now apply finite_max, finite_round, finite_sub|].
  now apply finite_round, finite_add.
Qed.

End WithDate.

Lemma runForecast_finite_witness :
  SqrtSpec sqrt_floor /\ Forall nonneg_amount three_sales /\
  finite (fc_revenue (runForecast iso_fields sqrt_floor three_sales "linear" (Num 0.90))).
Proof.
  split; [exact sqrt_floor_spec|]. split; [exact GrowerTabFacts.three_sales_nonneg|].
  exact (proj1 (runForecast_finite iso_fields sqrt_floor (SqrtSpec0 := sqrt_floor_spec)
                  three_sales "linear" (Num 0.90) GrowerTabFacts.three_sales_nonneg)).
Defined.

End RunForecastFacts.

(** ** The product table *)

Module SortFacts.
Import JS Products QFacts.

Lemma insert_sorted_perm {A} (compare : A -> A -> number) (x : A) (l : list A) :
  insert_sorted compare x l ≡ₚ x :: l.
Proof.
  induction l as [|y l IH]; [reflexivity|]. cbn [insert_sorted].
  destruct (gt (compare x y) (Num 0)); [|reflexivity].
  rewrite IH. apply perm_swap.
Qed.

Lemma sort_perm {A} (compare : A -> A -> number) (l : list A) : sort compare l ≡ₚ l.
Proof.
  induction l as [|x l IH]; [reflexivity|]. cbn [sort fold_right].
  fold (sort compare l). rewrite insert_sorted_perm. now constructor.
Qed.

Lemma le_trans (a b c : number) : le a b = true -> le b c = true -> le a c = true.
Proof.
  destruct a, b, c; cbn [le]; try congruence.
  rewrite !Qle_bool_iff. apply Qle_trans.
Qed.

(** Comparing two positive values by their difference. *)
Lemma compare_positive (a b : number) :
  gt a (Num 0) = true -> gt b (Num 0) = true ->
  if gt (b - a)%js (Num 0) then le a b = true else le b a = true.
Proof.
  destruct a as [x| | |], b as [y| | |]; cbn [gt lt]; try discriminate; intros Ha Hb;
    try reflexivity.
  cbn [sub add neg lt le]. destruct (Qltb 0 (y + - x)) eqn:H.
  - apply Qltb_lt in H. apply Qle_bool_iff. lra.
  - apply Qltb_ge in H. apply Qle_bool_iff. lra.
Qed.

(** Sorting positive keys by the difference of the keys puts them in
    descending order. *)
Lemma sort_descending {A} (key : A -> number) (l : list A) :
  Forall (fun x => gt (key x) (Num 0) = true) l ->
  StronglySorted (fun a b => le (key b) (key a) = true)
                 (sort (fun a b => (key b - key a)%js) l).
Proof.
  induction 1 as [|x l Hx Hl IH]; [constructor|].
  cbn [sort fold_right]. fold (sort (fun a b => (key b - key a)%js) l).
  assert (Hpos : Forall (fun y => gt (key y) (Num 0) = true)
                        (sort (fun a b => (key b - key a)%js) l)).
  { eapply Permutation_Forall; [symmetry; apply sort_perm | exact Hl]. }
  revert IH Hpos. generalize (sort (fun a b => (key b - key a)%js) l). clear Hl l.
  intros l IH Hpos. induction IH as [|y l Hsorted IHl Hy].
  - repeat constructor.
  - inversion Hpos as [|? ? Hypos Hlpos]; subst. cbn [insert_sorted].
    pose proof (compare_positive (key x) (key y) Hx Hypos) as Hcmp.
    destruct (gt (key y - key x)%js (Num 0)).
    + constructor; [now apply IHl|].
      eapply Permutation_Forall; [symmetry; apply insert_sorted_perm|].
      constructor; assumption.
    + constructor; [now constructor|]. constructor; [assumption|].
      eapply Forall_impl; [exact Hy|]. intros z Hz. cbn beta in *.
      now apply (le_trans _ (key y)).
Qed.

End SortFacts.

Module ProductFacts.
Import JS Stats Data Aggregation Products QFacts SortFacts.

Lemma keys_update {V} (obj : Obj V) (k : string) (f : V -> V) :
  map fst (update obj k f) = map fst obj.
Proof.
  unfold update. rewrite map_map. apply map_ext. intros [k' v]. cbn [fst snd].
  now destruct (String.eqb k' k).
Qed.

Lemma hasOwnProperty_keys {V} (obj : Obj V) (k : string) :
  hasOwnProperty obj k = bool_decide (k ∈ map fst obj).
Proof.
  unfold hasOwnProperty. induction obj as [|[k' v] obj IH]; [reflexivity|].
  cbn [existsb map fst]. rewrite IH. destruct (String.eqb_spec k' k) as [-> | Hne].
  - cbn [orb]. symmetry. apply bool_decide_eq_true. left.
  - cbn [orb]. apply bool_decide_ext. rewrite elem_of_cons. split; [tauto|].
    intros [-> | H]; [congruence | exact H].
Qed.

(** The loop over the data keeps the keys, and skips the records whose
    product is not a key. *)
Lemma fold_keys {V} (f : Transaction -> V -> V) (data : list Transaction) (init : Obj V) :
  map fst
    (fold_left (fun obj d => if hasOwnProperty obj (product d)
                             then update obj (product d) (f d) else obj) data init)
  = map fst init.
Proof.
  revert init. induction data as [|d data IH]; intros init; [reflexivity|].
  cbn [fold_left]. rewrite IH. destruct (hasOwnProperty init (product d)); [|reflexivity].
  apply keys_update.
Qed.

Lemma fold_known {V} (f : Transaction -> V -> V) (data : list Transaction) (init : Obj V) :
  map fst init = Config.PRODUCTS ->
  fold_left (fun obj d => if hasOwnProperty obj (product d)
                          then update obj (product d) (f d) else obj) data init
  = fold_left (fun obj d => if hasOwnProperty obj (product d)
                            then update obj (product d) (f d) else obj)
              (List.filter known_product data) init.
Proof.
  revert init. induction data as [|d data IH]; intros init Hkeys; [reflexivity|].
  cbn [fold_left List.filter]. unfold known_product at 1.
  rewrite hasOwnProperty_keys, Hkeys.
  destruct (bool_decide (product d ∈ Config.PRODUCTS)) eqn:Hd.
  - cbn [fold_left]. rewrite hasOwnProperty_keys, Hkeys, Hd.
    apply IH. now rewrite keys_update.
  - now apply IH.
Qed.

Lemma keys_productStats (data : list Transaction) :
  map fst (productStats data) = Config.PRODUCTS.
Proof. unfold productStats. rewrite fold_keys, map_map. apply map_id. Qed.

Lemma NoDup_map_filter {A B} (f : A -> B) (P : A -> bool) (l : list A) :
  NoDup (map f l) -> NoDup (map f (List.filter P l)).
Proof.
  induction l as [|a l IH]; [trivial|]. cbn [map List.filter]. intros Hnd.
  apply NoDup_cons in Hnd as [Ha Hnd]. destruct (P a); [|now apply IH].
  cbn [map]. apply NoDup_cons. split; [|now apply IH].
  intros Hin. apply Ha. apply list_elem_of_fmap in Hin as (b & -> & Hb).
  apply list_elem_of_fmap. exists b. split; [reflexivity|].
  apply list_elem_of_In in Hb. apply filter_In in Hb as [Hb _]. now apply list_elem_of_In.
Qed.

Lemma product_of_row (previous : Obj number) (total : number)
    (entries : list (string * ProductStats)) :
  map pr_product (map (productRow previous total) entries) = map fst entries /\
  map pr_revenue (map (productRow previous total) entries)
  = map (fun entry => ps_revenue (snd entry)) entries.
Proof.
  rewrite !map_map. split; apply map_ext; now intros [k v].
Qed.

(** X21: the product table ignores the records whose product is not one of
    the ten of the configuration: they change no row and count in no total.
    Its rows are for distinct products of the configuration, each with a
    revenue above 0, in descending order of revenue. *)
Theorem productRows_known (data previousYearData : list Transaction) :
  let rows := productRows data previousYearData in
  rows = productRows (List.filter known_product data)
                     (List.filter known_product previousYearData) /\
  NoDup (map pr_product rows) /\
  Forall (fun r => pr_product r ∈ Config.PRODUCTS /\ gt (pr_revenue r) (Num 0) = true) rows /\
  StronglySorted (fun r1 r2 => le (pr_revenue r2) (pr_revenue r1) = true) rows.
Proof.
  cbn zeta. split; [|split; [|split]].
  - unfold productRows, productStats, previousProductRevenue.
    rewrite <- !fold_known; [reflexivity | |]; rewrite map_map; apply map_id.
  - unfold productRows. rewrite (proj1 (product_of_row _ _ _)).
    rewrite (Permutation_map fst (sort_perm _ _)).
    apply NoDup_map_filter. rewrite keys_productStats. compute_done.
  - unfold productRows. apply Forall_map. apply List.Forall_forall. intros [k v] Hin.
    apply (Permutation_in _ (sort_perm _ _)) in Hin. apply filter_In in Hin as [Hin Hpos].
    cbn [productRow pr_product pr_revenue snd] in *. split; [|exact Hpos].
    rewrite <- (keys_productStats data). apply list_elem_of_fmap. exists (k, v).
    split; [reflexivity | now apply list_elem_of_In].
  - unfold productRows.
    set (stats := List.filter _ (productStats data)).
    assert (Hpos : Forall (fun x : string * ProductStats =>
                             gt (ps_revenue (snd x)) (Num 0) = true) stats).
    { apply List.Forall_forall. intros x Hx. now apply filter_In in Hx as [_ Hx]. }
    assert (Hsorted :
              StronglySorted
                (fun a b : string * ProductStats =>
                   le (ps_revenue (snd b)) (ps_revenue (snd a)) = true)
                (sort (fun a b : string * ProductStats =>
                         (ps_revenue (snd b) - ps_revenue (snd a))%js) stats)).
    { apply (sort_descending (fun entry : string * ProductStats => ps_revenue (snd entry))).
      exact Hpos. }
    revert Hsorted.
    generalize (sort (fun a b : string * ProductStats =>
                        (ps_revenue (snd b) - ps_revenue (snd a))%js) stats).
    intros sorted Hl. induction Hl as [|[k v] rest Hl IH Hhd]; [constructor|].
    cbn [map]. constructor; [exact IH|]. apply Forall_map.
    eapply Forall_impl; [exact Hhd|]. now intros [k' v'].
Qed.

(** *** The share of the total *)

Lemma update_entries {V} (P : V -> Prop) (obj : Obj V) (k : string) (f : V -> V) :
  (forall v, P v -> P (f v)) ->
  Forall (fun kv => P (snd kv)) obj -> Forall (fun kv => P (snd kv)) (update obj k f).
Proof.
  intros Hf Hobj. unfold update. apply Forall_map.
  eapply Forall_impl; [exact Hobj|]. intros [k' v] Hv. cbn [fst snd] in *.
  destruct (String.eqb k' k); cbn [snd]; auto.
Qed.

Lemma productStats_nonneg (data : list Transaction) :
  Forall nonneg_amount data ->
  Forall (fun kv => exists q, ps_revenue (snd kv) = Num q /\ 0 <= q) (productStats data).
Proof.
  intros Hd. unfold productStats.
  set (P := fun s : ProductStats => exists q, ps_revenue s = Num q /\ 0 <= q).
  assert (Hinit : Forall (fun kv : string * ProductStats => P (snd kv))
                    (map (fun p => (p, {| ps_revenue := Num 0; ps_units := Num 0 |}))
                         Config.PRODUCTS)).
  { apply Forall_map, Forall_forall. intros p _. exists 0. split; [reflexivity | lra]. }
  revert Hinit. generalize (map (fun p => (p, {| ps_revenue := Num 0; ps_units := Num 0 |}))
                                Config.PRODUCTS).
  induction Hd as [|d data (a & Ha & Hpos) _ IH]; intros init Hinit; [exact Hinit|].
  cbn [fold_left]. apply IH. destruct (hasOwnProperty init (product d)); [|exact Hinit].
  apply update_entries; [|exact Hinit].
  intros s (q & Hq & Hq0). exists (q + a). cbn [ps_revenue]. rewrite Hq, Ha.
  split; [reflexivity | lra].
Qed.

Lemma Qsum_positive {A} (f : A -> Q) (l : list A) (a : A) :
  Forall (fun x => 0 <= f x) l -> In a l -> 0 < f a -> 0 < Qsum (map f l).
Proof.
  intros Hl Ha Hpos. induction Hl as [|b l Hb Hl IH]; [destruct Ha|].
  rewrite map_cons, Qsum_cons. pose proof (Qsum_nonneg (map f l)) as Hsum.
  assert (Hnn : 0 <= Qsum (map f l)) by (apply Hsum, Forall_map; exact Hl).
  destruct Ha as [-> | Ha]; [lra|]. specialize (IH Ha). lra.
Qed.

Lemma Qsum_drop_zero {A} (f : A -> Q) (l : list A) :
  Forall (fun x => 0 <= f x) l ->
  Qsum (map f (List.filter (fun x => Qltb 0 (f x)) l)) == Qsum (map f l).
Proof.
  induction 1 as [|x l Hx _ IH]; [reflexivity|]. cbn [List.filter].
  destruct (Qltb 0 (f x)) eqn:H; rewrite !map_cons, ?Qsum_cons, IH; [reflexivity|].
  apply Qltb_ge in H. lra.
Qed.

Lemma total_revenue_Num (stats : Obj ProductStats) :
  Forall (fun kv => exists q, ps_revenue (snd kv) = Num q /\ 0 <= q) stats ->
  exists t, fold_left (fun sum p => (sum + ps_revenue (snd p))%js) stats (Num 0) = Num t
            /\ t == Qsum (map entry_revenue stats).
Proof.
  intros Hstats.
  assert (Hgen : forall acc,
            exists t, fold_left (fun sum p => (sum + ps_revenue (snd p))%js) stats (Num acc)
                      = Num t /\ t == acc + Qsum (map entry_revenue stats)).
  { induction Hstats as [|kv stats (q & Hq & _) _ IH]; intros acc.
    - exists acc. split; [reflexivity | simpl; ring].
    - cbn [fold_left]. rewrite Hq. cbn [add].
      destruct (IH (acc + q)) as (t & Ht & Heq). exists t. split; [exact Ht|].
      rewrite Heq, map_cons, Qsum_cons. unfold entry_revenue at 2. rewrite Hq. ring. }
  destruct (Hgen 0) as (t & Ht & Heq). exists t. split; [exact Ht|]. rewrite Heq. ring.
Qed.

(** X22: when every amount is a finite number that is not negative and the table has a row, the "% of total" column adds up to
    100 (in exact arithmetic): the rows left out have no revenue. *)
Theorem productRows_percent (data previousYearData : list Transaction) :
  Forall nonneg_amount data ->
  productRows data previousYearData <> [] ->
  (sum (map pr_percentOfTotal (productRows data previousYearData)) ≈ Num 100)%js.
Proof.
  intros Hdata Hrows. unfold productRows in *. cbv zeta in *.
  pose proof (productStats_nonneg data Hdata) as Hstats.
  set (stats := productStats data) in *.
  destruct (total_revenue_Num stats Hstats) as (t & Ht & Hteq). rewrite Ht in *.
  set (cmp := fun a b : string * ProductStats => (ps_revenue (snd b) - ps_revenue (snd a))%js)
    in *.
  set (kept := List.filter (fun entry => gt (ps_revenue (snd entry)) (Num 0)) stats) in *.
  assert (Hkept : forall e, In e kept -> In e stats /\ 0 < entry_revenue e).
  { intros e He. apply filter_In in He as [He Hpos]. split; [exact He|].
    apply List.Forall_forall with (x := e) in Hstats as (q & Hq & _); [|exact He].
    unfold entry_revenue. rewrite Hq in *. cbn in Hpos. now apply Qltb_lt. }
  assert (Hnn : Forall (fun e => 0 <= entry_revenue e) stats).
  { eapply Forall_impl; [exact Hstats|]. intros e (q & Hq & Hq0).
    unfold entry_revenue. now rewrite Hq. }
  assert (Hkeq : Qsum (map entry_revenue kept) == t).
  { rewrite Hteq, <- (Qsum_drop_zero entry_revenue stats Hnn).
    assert (E : kept = List.filter (fun x => Qltb 0 (entry_revenue x)) stats).
    { apply filter_ext_in. intros e He.
      apply List.Forall_forall with (x := e) in Hstats as (q & Hq & _); [|exact He].
      unfold entry_revenue. rewrite Hq. reflexivity. }
    rewrite E. reflexivity. }
  assert (Htpos : 0 < t).
  { destruct (sort cmp kept) as [|e rest] eqn:Hsort; [now destruct Hrows|].
    assert (He : In e kept).
    { apply (Permutation_in e (sort_perm cmp kept)). rewrite Hsort. now left. }
    destruct (Hkept e He) as [Hin Hpos]. rewrite Hteq.
    now apply Qsum_positive with (a := e). }
  rewrite map_map.
  destruct (MonthlyFacts.sum_map_Num
              (fun e => pr_percentOfTotal (productRow (previousProductRevenue previousYearData)
                                                      (Num t) e))
              (fun e => entry_revenue e / t * 100) (sort cmp kept)) as (q & Hq & Hqeq).
  { intros e He. apply (Permutation_in e (sort_perm cmp kept)) in He.
    destruct (Hkept e He) as [Hin _].
    apply List.Forall_forall with (x := e) in Hstats as (r & Hr & _); [|exact Hin].
    destruct e as [k v]. unfold entry_revenue. cbn [productRow pr_percentOfTotal snd] in *.
    rewrite Hr. unfold truthy. 
    assert (Hne : Qeq_bool t 0 = false).
    { apply not_true_iff_false. rewrite Qeq_bool_iff. lra. }
    rewrite Hne. cbn [negb div]. rewrite Hne. cbn [mul].
    eexists. split; [reflexivity | reflexivity]. }
  rewrite Hq. cbn [same]. rewrite Hqeq.
  rewrite (AggregationFacts.Qsum_perm _ _ (Permutation_map _ (sort_perm cmp kept))).
  assert (Haff : forall l : list (string * ProductStats),
            Qsum (map (fun e => entry_revenue e / t * 100) l)
            == Qsum (map entry_revenue l) / t * 100).
  { induction l as [|e l IH]; [simpl; field; lra|].
    rewrite !map_cons, !Qsum_cons, IH. field. lra. }
  rewrite Haff, Hkeq. field. lra.
Qed.

Lemma mixed_sales_nonneg : Forall nonneg_amount mixed_sales.
Proof.
  unfold mixed_sales, sale_of.
  repeat constructor; eexists; (split; [reflexivity | discriminate]).
Qed.

Lemma mixed_sales_rows : productRows mixed_sales [] <> [].
Proof. vm_compute. discriminate. Qed.

Lemma productRows_percent_witness :
  Forall nonneg_amount mixed_sales /\ productRows mixed_sales [] <> [] /\
  (sum (map pr_percentOfTotal (productRows mixed_sales [])) ≈ Num 100)%js.
Proof.
  split; [exact mixed_sales_nonneg|]. split; [exact mixed_sales_rows|].
  exact (productRows_percent mixed_sales [] mixed_sales_nonneg mixed_sales_rows).
Defined.

(** *** The pie of the revenue by product *)

Lemma update_map {V W} (proj : V -> W) (f : V -> V) (g : W -> W)
    (obj : Obj V) (k : string) :
  (forall v, proj (f v) = g (proj v)) ->
  map (fun kv => (fst kv, proj (snd kv))) (update obj k f)
  = update (map (fun kv => (fst kv, proj (snd kv))) obj) k g.
Proof.
  intros Hfg. unfold update. rewrite !map_map. apply map_ext. intros [k' v].
  cbn [fst snd]. destruct (String.eqb k' k); cbn [fst snd]; [|reflexivity].
  now rewrite Hfg.
Qed.

Lemma hasOwnProperty_map {V W} (proj : V -> W) (obj : Obj V) (k : string) :
  hasOwnProperty (map (fun kv => (fst kv, proj (snd kv))) obj) k = hasOwnProperty obj k.
Proof. rewrite !hasOwnProperty_keys, map_map. reflexivity. Qed.

Lemma productRevenue_stats (data : list Transaction) :
  productRevenue data
  = map (fun kv => (fst kv, ps_revenue (snd kv))) (productStats data).
Proof.
  unfold productRevenue, productStats.
  assert (Hinit : map (fun p => (p, Num 0)) Config.PRODUCTS
                  = map (fun kv : string * ProductStats => (fst kv, ps_revenue (snd kv)))
                        (map (fun p => (p, {| ps_revenue := Num 0; ps_units := Num 0 |}))
                             Config.PRODUCTS)).
  { rewrite map_map. reflexivity. }
  rewrite Hinit. clear Hinit.
  generalize (map (fun p => (p, {| ps_revenue := Num 0; ps_units := Num 0 |}))
                  Config.PRODUCTS).
  induction data as [|d data IH]; intros init; [reflexivity|].
  cbn [fold_left]. rewrite hasOwnProperty_map.
  destruct (hasOwnProperty init (product d)); [|apply IH].
  rewrite <- IH. f_equal. symmetry. now apply update_map.
Qed.

Lemma get_entry (obj : Obj number) (k : string) (v : number) :
  NoDup (map fst obj) -> In (k, v) obj -> get obj k = v.
Proof.
  unfold get. induction obj as [|[k' v'] obj IH]; intros Hnd Hin; [destruct Hin|].
  cbn [map fst] in Hnd. apply NoDup_cons in Hnd as [Hk Hnd].
  cbn [List.find fst]. destruct (String.eqb_spec k' k) as [-> | Hne].
  - destruct Hin as [E | Hin]; [now inversion E|].
    exfalso. apply Hk. apply list_elem_of_fmap. exists (k, v).
    split; [reflexivity | now apply list_elem_of_In].
  - destruct Hin as [E | Hin]; [inversion E; congruence|]. now apply IH.
Qed.

Lemma own_entries (P : number -> bool) (obj : Obj number) :
  NoDup (map fst obj) ->
  let labels := List.filter (fun k => P (get obj k)) (map fst obj) in
  combine labels (map (fun l => get obj l) labels)
  = List.filter (fun kv => P (snd kv)) obj.
Proof.
  intros Hnd labels.
  assert (Hlabels : labels = map fst (List.filter (fun kv => P (snd kv)) obj)).
  { subst labels.
    assert (Hgen : forall part, (forall kv, In kv part -> In kv obj) ->
              List.filter (fun k => P (get obj k)) (map fst part)
              = map fst (List.filter (fun kv => P (snd kv)) part)).
    { induction part as [|[k v] part IH]; intros Hsub; [reflexivity|].
      cbn [map List.filter fst snd].
      rewrite (get_entry obj k v Hnd) by (apply Hsub; now left).
      rewrite IH by (intros kv Hkv; apply Hsub; now right).
      now destruct (P v). }
    now apply Hgen. }
  rewrite Hlabels, map_map.
  assert (Hsub : forall kv, In kv (List.filter (fun kv => P (snd kv)) obj) -> In kv obj).
  { intros kv Hkv. now apply filter_In in Hkv. }
  revert Hsub. generalize (List.filter (fun kv => P (snd kv)) obj).
  induction l as [|[k v] l IH]; intros Hsub; [reflexivity|].
  cbn [map combine fst]. rewrite (get_entry obj k v Hnd) by (apply Hsub; now left).
  f_equal. apply IH. intros kv Hkv. apply Hsub. now right.
Qed.

(** X23: for the same data the pie of the revenue by product has one label for one value, and its
    slices are the rows of the product table, each product with the same
    revenue; the table only lists them in another order. *)
Theorem revenue_chart_matches_table (data previousYearData : list Transaction) :
  let '(labels, values) := createProductRevenueChart data in
  length labels = length values /\
  map (fun r => (pr_product r, pr_revenue r)) (productRows data previousYearData)
  ≡ₚ combine labels values.
Proof.
  unfold createProductRevenueChart. cbv zeta. split; [now rewrite length_map|].
  assert (Hnd : NoDup (map fst (productRevenue data))).
  { rewrite productRevenue_stats, map_map. cbn [fst].
    change (NoDup (map fst (productStats data))).
    rewrite keys_productStats. compute_done. }
  rewrite (own_entries (fun v => gt v (Num 0)) (productRevenue data) Hnd).
  rewrite productRevenue_stats. unfold productRows. cbv zeta.
  rewrite map_map.
  set (cmp := fun a b : string * ProductStats => (ps_revenue (snd b) - ps_revenue (snd a))%js).
  set (proj := fun kv : string * ProductStats => (fst kv, ps_revenue (snd kv))).
  assert (Hrow : forall previous total entries,
            map (fun x => (pr_product (productRow previous total x),
                           pr_revenue (productRow previous total x))) entries
            = map proj entries).
  { intros. apply map_ext. now intros [k v]. }
  rewrite Hrow, (sort_perm cmp).
  assert (Hfilter : forall l : list (string * ProductStats),
            List.filter (fun kv => gt (snd kv) (Num 0)) (map proj l)
            = map proj (List.filter (fun entry => gt (ps_revenue (snd entry)) (Num 0)) l)).
  { induction l as [|[k v] l IH]; [reflexivity|]. cbn [map List.filter].
    unfold proj at 1. cbn [fst snd]. rewrite IH.
    now destruct (gt (ps_revenue v) (Num 0)). }
  now rewrite Hfilter.
Qed.

End ProductFacts.

(** ** Revenue by product on the server *)

Module ProductAggregationFacts.
Import JS Data Aggregation Charts ProductAggregation.

Lemma of_product_snoc (p : string) (data : list Transaction) (d : Transaction) :
  of_product p (data ++ [d])
  = of_product p data ++ (if String.eqb (product d) p then [d] else []).
Proof. unfold of_product. rewrite List.filter_app. reflexivity. Qed.

(** X24: in the answer of the handler a product named as an inherited
    property of objects has no entry in the answer, and neither has a
    product without records; every other product has the entry that counts
    its records and adds up their amounts and quantities, in the order of
    the data. *)
Theorem by_product_entry (data : list Transaction) (p : string) :
  by_product data !! p =
    match of_product p data with
    | [] => None
    | records =>
        if bool_decide (p ∈ Object_prototype_names) then None
        else Some {| pe_revenue := sum_amount records;
                     pe_quantity := sum_quantity records;
                     pe_orders := length records |}
    end.
Proof.
  induction data as [|d data IH] using rev_ind; [reflexivity|].
  unfold by_product in *. rewrite foldl_app. cbn [foldl].
  set (byProduct := foldl by_product_step ∅ data) in *.
  rewrite of_product_snoc. unfold by_product_step.
  destruct (String.eqb (product d) p) eqn:Hp.
  - apply String.eqb_eq in Hp. subst p.
    destruct (bool_decide (product d ∈ Object_prototype_names)) eqn:Hin.
    + rewrite IH. destruct (of_product (product d) data); reflexivity.
    + rewrite lookup_insert_eq, IH.
      destruct (of_product (product d) data) as [|r records] eqn:Hrecords.
      * reflexivity.
      * cbn [app]. rewrite !(app_comm_cons records [d] r).
        unfold sum_amount, sum_quantity. rewrite !fold_left_app, length_app.
        cbn [fold_left length pe_revenue pe_quantity pe_orders]. do 2 f_equal. lia.
  - rewrite app_nil_r.
    assert (Hne : product d <> p) by (intros E; now rewrite E, String.eqb_refl in Hp).
    destruct (bool_decide (product d ∈ Object_prototype_names)); [exact IH|].
    rewrite lookup_insert_ne by exact Hne. exact IH.
Qed.

End ProductAggregationFacts.

(** ** The values of the product table *)

Module ProductTableFacts.
Import JS Data Aggregation Charts Products ProductAggregation SortFacts ProductFacts.

Lemma In_update {V} (obj : Obj V) (k k' : string) (v : V) (f : V -> V) :
  In (k, v) obj -> In (k, if String.eqb k k' then f v else v) (update obj k' f).
Proof.
  intros Hin. unfold update. apply in_map_iff. exists (k, v). split; [|exact Hin].
  cbn [fst snd]. now destruct (String.eqb k k').
Qed.

(** The value of a key after the loop over the data is the fold of the
    records of that product. *)
Lemma fold_value {V} (f : Transaction -> V -> V) (data : list Transaction)
    (init : Obj V) (k : string) (v0 : V) :
  In (k, v0) init ->
  In (k, fold_left (fun v d => f d v) (of_product k data) v0)
     (fold_left (fun obj d => if hasOwnProperty obj (product d)
                              then update obj (product d) (f d) else obj) data init).
Proof.
  revert init v0. induction data as [|d data IH]; intros init v0 Hin; [exact Hin|].
  cbn [fold_left]. unfold of_product. cbn [List.filter]. fold (of_product k data).
  destruct (hasOwnProperty init (product d)) eqn:Hown.
  - rewrite (String.eqb_sym (product d) k).
    pose proof (In_update init k (product d) v0 (f d) Hin) as Hup.
    destruct (String.eqb k (product d)); cbn [fold_left]; now apply IH.
  - destruct (String.eqb_spec (product d) k) as [E | _]; [|now apply IH].
    exfalso. rewrite hasOwnProperty_keys in Hown. apply bool_decide_eq_false in Hown.
    apply Hown. rewrite E. apply list_elem_of_fmap. exists (k, v0).
    split; [reflexivity | now apply list_elem_of_In].
Qed.

Lemma fold_stats (records : list Transaction) (s : ProductStats) :
  fold_left (fun v d => {| ps_revenue := (ps_revenue v + amount d)%js;
                           ps_units := (ps_units v + quantity d)%js |}) records s
  = {| ps_revenue := fold_left (fun sum d => (sum + amount d)%js) records (ps_revenue s);
       ps_units := fold_left (fun sum d => (sum + quantity d)%js) records (ps_units s) |}.
Proof.
  revert s. induction records as [|d records IH]; intros [r u]; [reflexivity|].
  cbn [fold_left]. now rewrite IH.
Qed.

Lemma unique_value {V} (obj : Obj V) (k : string) (v v' : V) :
  NoDup (map fst obj) -> In (k, v) obj -> In (k, v') obj -> v = v'.
Proof.
  induction obj as [|[k0 v0] obj IH]; intros Hnd Hv Hv'; [destruct Hv|].
  cbn [map fst] in Hnd. apply NoDup_cons in Hnd as [Hk Hnd].
  assert (Hkey : forall w, In (k0, w) obj -> False).
  { intros w Hw. apply Hk. apply list_elem_of_fmap. exists (k0, w).
    split; [reflexivity | now apply list_elem_of_In]. }
  destruct Hv as [E | Hv], Hv' as [E' | Hv'].
  - congruence.
  - inversion E; subst. now destruct (Hkey v').
  - inversion E'; subst. now destruct (Hkey v).
  - now apply IH.
Qed.

Lemma productStats_value (data : list Transaction) (k : string) (s : ProductStats) :
  In (k, s) (productStats data) ->
  s = {| ps_revenue := sum_amount (of_product k data);
         ps_units := sum_quantity (of_product k data) |}.
Proof.
  intros Hin.
  assert (Hk : In k Config.PRODUCTS).
  { rewrite <- (keys_productStats data). apply in_map_iff. now exists (k, s). }
  apply (unique_value (productStats data) k); [|exact Hin|].
  { rewrite keys_productStats. compute_done. }
  unfold sum_amount, sum_quantity.
  change {| ps_revenue := fold_left (fun sum d => (sum + amount d)%js) (of_product k data) (Num 0);
            ps_units := fold_left (fun sum d => (sum + quantity d)%js) (of_product k data) (Num 0) |}
    with {| ps_revenue := fold_left (fun sum d => (sum + amount d)%js) (of_product k data)
                            (ps_revenue {| ps_revenue := Num 0; ps_units := Num 0 |});
            ps_units := fold_left (fun sum d => (sum + quantity d)%js) (of_product k data)
                          (ps_units {| ps_revenue := Num 0; ps_units := Num 0 |}) |}.
  rewrite <- fold_stats. unfold productStats.
  apply (fold_value (fun d s => {| ps_revenue := (ps_revenue s + amount d)%js;
                                   ps_units := (ps_units s + quantity d)%js |})).
  apply in_map_iff. now exists k.
Qed.

Lemma previous_value (previousYearData : list Transaction) (k : string) :
  In k Config.PRODUCTS ->
  get (previousProductRevenue previousYearData) k = sum_amount (of_product k previousYearData).
Proof.
  intros Hk. apply get_entry.
  - unfold previousProductRevenue. rewrite fold_keys, map_map. cbn [fst].
    rewrite map_id. compute_done.
  - unfold previousProductRevenue, sum_amount.
    apply (fold_value (fun d v => (v + amount d)%js)).
    apply in_map_iff. now exists k.
Qed.

(** X25: the revenue and the units of a row are the
    sums of the amounts and of the quantities of the records of its product,
    and its change is the change of that revenue against the sum of the
    amounts of the product in the data of the year before, in percent, or 0
    when that sum is 0 or not a number. *)
Theorem productRows_values (data previousYearData : list Transaction) :
  Forall (fun r =>
            let records := of_product (pr_product r) data in
            let prevRevenue := sum_amount (of_product (pr_product r) previousYearData) in
            pr_revenue r = sum_amount records /\
            pr_units r = sum_quantity records /\
            pr_yoyChange r =
              if truthy prevRevenue
              then ((pr_revenue r - prevRevenue) / prevRevenue * Num 100)%js
              else Num 0)
         (productRows data previousYearData).
Proof.
  unfold productRows. cbv zeta. apply List.Forall_forall. intros r Hr.
  apply in_map_iff in Hr as ([k s] & <- & Hin).
  apply (Permutation_in _ (sort_perm _ _)) in Hin.
  apply filter_In in Hin as [Hin _].
  assert (Hk : In k Config.PRODUCTS).
  { rewrite <- (keys_productStats data). apply in_map_iff. now exists (k, s). }
  apply productStats_value in Hin. subst s.
  cbn [productRow pr_product pr_revenue pr_units pr_yoyChange ps_revenue ps_units].
  rewrite (previous_value previousYearData k Hk). repeat split.
Qed.

End ProductTableFacts.
